(** * Streaming assistance engine of the Dependabot dashboard

    A shallow embedding of the JavaScript front end's AI assistance path:
    [AppHelpers] (escapeHtml, storage, getErrorMessage), [AIService]
    (streamFixSuggestion, cancelStream, the response cache),
    [AIAssistModalComponent] (the subscriber of the stream) and
    [DependabotApp.handleAIAssistRequest]; and of what feeds it: the
    other helpers of [AppHelpers] (truncateText, isValidGitHubOrg,
    getHighestSeverity, sortReposBySeverity), [GitHubApiService] (the
    search, the load of alerts and what they do to the answers), the
    counts of [SummaryComponent], the alerts array and the card values of
    [AlertCardComponent], and the notifications of the application.

    Conventions of the embedding:
    - a JS string is a [string], and its length the number of its
      characters (which is exact for texts of the ASCII range); a property
      that may be [undefined]/[null] is an [option]; truthiness of such a
      property is [truthy]; numbers are integers;
    - [Date.now()] is an explicit argument [now : Z] (milliseconds);
    - an [async] function is a coroutine: a program counter ([Pc]) records
      the [await] at which it is suspended, and [resume] runs it from there
      to its next [await] when the awaited promise settles ([Stimulus]);
    - everything the code does to the outside world (the fetch, the three
      subscriber callbacks, the reader's abort, the storage write) is
      recorded as an [Effect], in program order;
    - a number that may be NaN is an [option Z]; where the language leaves
      the result of [Array.prototype.sort] to the engine (a comparator that
      yields NaN), the engine's choice is an argument ([Arrangement]);
    - the properties of an alert are texts; [Dynamic] has the functions
      that make and check an alert on values of any type. *)

From stdpp Require Import base gmap strings list pretty.
From Stdlib Require Import ZArith Ascii Lia Sorted.

Local Open Scope Z_scope.

(** ** JavaScript values used by the code *)

Module Js.

(** [!x] is false exactly for a present, non-empty string. *)
Definition truthy (o : option string) : bool :=
  match o with
  | Some s => negb (String.eqb s "")
  | None => false
  end.

(** [x || d] *)
Definition or_default (o : option string) (d : string) : string :=
  match o with
  | Some s => if String.eqb s "" then d else s
  | None => d
  end.

Fixpoint starts_with (needle s : string) : bool :=
  match needle with
  | EmptyString => true
  | String a needle' =>
      match s with
      | EmptyString => false
      | String b s' => Ascii.eqb a b && starts_with needle' s'
      end
  end.

(** [s.includes(needle)] *)
Fixpoint includes (s needle : string) : bool :=
  starts_with needle s ||
  match s with
  | EmptyString => false
  | String _ s' => includes s' needle
  end.

(** [parts.join(sep)] *)
Fixpoint join (sep : string) (parts : list string) : string :=
  match parts with
  | [] => ""
  | [p] => p
  | p :: rest => p +:+ sep +:+ join sep rest
  end.

(** An [Error] object: [name], [message], and the [status]/[statusText]
    properties that [_handleApiError] attaches. *)
Record Error := mkErr {
  name : string;
  message : string;
  status : option Z;
  statusText : option string
}.

(** [new Error(msg)] *)
Definition new_Error (msg : string) : Error :=
  {| name := "Error"; message := msg; status := None; statusText := None |}.

End Js.

(** ** Summaries *)

(** The summary object: the repositories found and a count for each
    severity. *)
Record Summary := mkSummary {
  repos_found : Z;
  sum_critical : Z;
  sum_high : Z;
  sum_medium : Z;
  sum_low : Z
}.

(** ** window.APP_CONSTANTS *)

Module APP_CONSTANTS.

Definition STREAM_FIX : string := "/stream_fix".

Definition NETWORK_ERROR : string :=
  "Network error occurred. Please check your connection.".
Definition AI_SERVICE_ERROR : string :=
  "AI service is currently unavailable. Please try again later.".
Definition UNAUTHORIZED : string :=
  "Unauthorized access. Please check your GitHub token.".
Definition RATE_LIMITED : string :=
  "Rate limit exceeded. Please wait before making more requests.".
Definition INVALID_ORGANIZATION : string :=
  "Please enter a valid GitHub organization name.".
Definition INVALID_FILTER : string :=
  "Please enter a search filter for repositories.".

Definition SEARCH_REPOS : string := "/search_repos".
Definition LOAD_ALERTS : string := "/load_alerts".

(** [Object.values(SEVERITY_LEVELS)] *)
Definition SEVERITY_LEVELS : list string := ["critical"; "high"; "medium"; "low"].

(** [SEVERITY_ORDER[severity]]; [None] is [undefined], also for the
    properties inherited from [Object.prototype], which are no numbers. *)
Definition SEVERITY_ORDER (severity : string) : option Z :=
  if String.eqb severity "critical" then Some 4
  else if String.eqb severity "high" then Some 3
  else if String.eqb severity "medium" then Some 2
  else if String.eqb severity "low" then Some 1
  else None.

(** [DEFAULTS.SUMMARY] *)
Definition DEFAULTS_SUMMARY : Summary := mkSummary 0 0 0 0 0.

Definition MAX_VULNERABILITY_TITLE_LENGTH : nat := 80.

End APP_CONSTANTS.

(** ** Repositories *)

(** [repo.counts]; a missing count is [None]. Counts are integers. *)
Record Counts := mkCounts {
  critical : option Z;
  high : option Z;
  medium : option Z;
  low : option Z
}.

(** A repository summary of the search response. The code uses
    [repo.severity] as a property key ([severityOrder[repo.severity]]):
    [repo_severity] is that key, [None] when it names nothing (a missing
    severity, a number). *)
Record Repo := mkRepo {
  full_name : option string;
  repo_severity : option string;
  counts : option Counts
}.

(** ** AppHelpers *)

Module AppHelpers.

Definition escape_char (c : ascii) : string :=
  if Ascii.eqb c "&" then "&amp;"
  else if Ascii.eqb c "<" then "&lt;"
  else if Ascii.eqb c ">" then "&gt;"
  else if Ascii.eqb c "034" then "&quot;"
  else if Ascii.eqb c "'" then "&#039;"
  else String c "".

(** The five [replace] passes touch disjoint characters, and only the
    first introduces an ampersand, so they amount to one pass. *)
Fixpoint escapeHtml (unsafe : string) : string :=
  match unsafe with
  | EmptyString => ""
  | String c rest => escape_char c +:+ escapeHtml rest
  end.

(** [getErrorMessage(error)]; [None] is a falsy argument. *)
Definition getErrorMessage (error : option Js.Error) : string :=
  match error with
  | None => APP_CONSTANTS.NETWORK_ERROR
  | Some e =>
      if String.eqb (Js.name e) "TypeError"
         || Js.includes (Js.message e) "Failed to fetch"
      then APP_CONSTANTS.NETWORK_ERROR
      else if bool_decide (Js.status e = Some 401) then APP_CONSTANTS.UNAUTHORIZED
      else if bool_decide (Js.status e = Some 429) then APP_CONSTANTS.RATE_LIMITED
      else if String.eqb (Js.message e) "" then APP_CONSTANTS.NETWORK_ERROR
      else Js.message e
  end.

(** [s.replace(/c/g, rep)] for a pattern of one character. *)
Fixpoint replace_all (c : ascii) (rep : string) (s : string) : string :=
  match s with
  | EmptyString => ""
  | String x rest =>
      (if Ascii.eqb x c then rep else String x "") +:+ replace_all c rep rest
  end.

(** [escapeHtml] as it is written: five passes, one after the other. *)
Definition escapeHtml_passes (unsafe : string) : string :=
  replace_all "'" "&#039;"
    (replace_all "034" "&quot;"
       (replace_all ">" "&gt;"
          (replace_all "<" "&lt;"
             (replace_all "&" "&amp;" unsafe)))).

(** [truncateText(text, maxLength)]; [None] is a value that is no string.
    The length counts the characters of the string, its code units. *)
Definition truncateText (text : option string) (maxLength : nat) : string :=
  match text with
  | None => ""
  | Some text =>
      if (String.length text <=? maxLength)%nat then text
      else String.substring 0 maxLength text +:+ "..."
  end.

(** [[a-z\d]] under the [i] flag. *)
Definition is_alnum (c : ascii) : bool :=
  let n := nat_of_ascii c in
  ((48 <=? n) && (n <=? 57) || (65 <=? n) && (n <=? 90)
   || (97 <=? n) && (n <=? 122))%nat.

Definition is_hyphen (c : ascii) : bool := Ascii.eqb c "-".

(** The tail of [GITHUB_ORG]: [(?:[a-z\d]|-(?=[a-z\d])){0,n}$]. Every
    round takes one character, and the two alternatives exclude each other,
    so there is nothing to backtrack over. *)
Fixpoint org_tail (n : nat) (s : string) {struct s} : bool :=
  match s with
  | EmptyString => true
  | String c rest =>
      match n with
      | O => false
      | S n =>
          (is_alnum c
           || is_hyphen c
              && match rest with
                 | String d _ => is_alnum d
                 | EmptyString => false
                 end)
          && org_tail n rest
      end
  end.

(** [REGEX_PATTERNS.GITHUB_ORG.test(s)], for
    [/^[a-z\d](?:[a-z\d]|-(?=[a-z\d])){0,38}$/i]. *)
Definition GITHUB_ORG_test (s : string) : bool :=
  match s with
  | EmptyString => false
  | String c rest => is_alnum c && org_tail 38 rest
  end.

(** [isValidGitHubOrg(orgName)]; [None] is a value that is no string. *)
Definition isValidGitHubOrg (orgName : option string) : bool :=
  match orgName with
  | None => false
  | Some s => if String.eqb s "" then false else GITHUB_ORG_test s
  end.

(** One round of the loop of [getHighestSeverity], on the pair of
    [highest] and [highestValue]. A key that is no severity has no number
    in [SEVERITY_ORDER], and the comparison with it is false. *)
Definition highest_step (acc : string * Z) (entry : string * Z) : string * Z :=
  let '(highest, highestValue) := acc in
  let '(severity, count) := entry in
  match APP_CONSTANTS.SEVERITY_ORDER severity with
  | Some v =>
      if (0 <? count) && (highestValue <? v) then (severity, v)
      else (highest, highestValue)
  | None => (highest, highestValue)
  end.

(** [getHighestSeverity(counts)]: [counts] is [Object.entries(counts)],
    in the order of the object's keys; [None] is a value that is no
    object. *)
Definition getHighestSeverity (counts : option (list (string * Z))) : string :=
  match counts with
  | None => "low"
  | Some entries => (fold_left highest_step entries ("low", 0)).1
  end.

(** [array.sort(compare)]. A comparator gives a number, or NaN ([None]).
    Where the comparator is a consistent ordering of the elements, the
    language fixes the result: the elements in that order, those that
    compare equal as they were ([stable_sort]: insertion from the right is
    one way to compute it; an element [x] goes before the first [y] with
    [compare(x, y) <= 0]). Otherwise the order is left to the engine, which
    rearranges the elements in a way of its own: an [Arrangement]. The
    comparators of this program subtract keys: they are consistent where
    they give a number for every two elements ([comparable]), and there
    [Array_sort] is the stable sort. Where a difference is NaN,
    [Array_sort] is whatever the engine makes of the array; this includes
    the arrays on which the NaN does no harm and the language still fixes
    the order. *)
Fixpoint sort_insert {A : Type} (compare : A -> A -> Z) (x : A) (l : list A)
  : list A :=
  match l with
  | [] => [x]
  | y :: l' =>
      if compare x y <=? 0 then x :: l else y :: sort_insert compare x l'
  end.

Definition stable_sort {A : Type} (compare : A -> A -> Z) (l : list A) : list A :=
  foldr (sort_insert compare) [] l.

(** What an engine makes of an array that its comparator does not
    order: a rearrangement. *)
Record Arrangement (A : Type) := mkArrangement {
  arrange : list A -> list A;
  arrange_perm : forall l, arrange l ≡ₚ l
}.
Arguments arrange {A} _ _.
Arguments arrange_perm {A} _ _.

(** [!Number.isNaN(v)] *)
Definition is_number (v : option Z) : bool :=
  match v with Some _ => true | None => false end.

(** The comparator gives a number for every two elements of the array. *)
Definition comparable {A : Type} (compare : A -> A -> option Z) (l : list A)
  : bool :=
  forallb (fun a => forallb (fun b => is_number (compare a b)) l) l.

Definition Array_sort {A : Type} (engine : Arrangement A)
    (compare : A -> A -> option Z) (l : list A) : list A :=
  if comparable compare l
  then stable_sort (fun a b => default 0 (compare a b)) l
  else arrange engine l.

(** An engine that leaves such an array as it is. *)
Definition as_it_is {A : Type} : Arrangement A :=
  {| arrange := fun l => l; arrange_perm := fun l => Permutation_refl l |}.

(** The names of the properties that every object has from
    [Object.prototype]: [severityOrder[name]] is a function, or for
    [__proto__] the prototype itself. *)
Definition Object_prototype : list string :=
  ["constructor"; "hasOwnProperty"; "isPrototypeOf"; "propertyIsEnumerable";
   "toLocaleString"; "toString"; "valueOf"; "__proto__";
   "__defineGetter__"; "__defineSetter__";
   "__lookupGetter__"; "__lookupSetter__"].

Definition inherited (name : string) : bool :=
  existsb (String.eqb name) Object_prototype.

(** [severityOrder[x.severity] || 0], where [severity] is the property key
    that [x.severity] stands for ([None]: a key that names nothing, as
    that of a missing severity). The result as a number; [None] when it is
    no number: for a key that names an inherited property it is that
    property's value, which is truthy, and a difference with it is NaN. *)
Definition severity_rank (severity : option string) : option Z :=
  match severity with
  | Some s =>
      match APP_CONSTANTS.SEVERITY_ORDER s with
      | Some v => Some v
      | None => if inherited s then None else Some 0
      end
  | None => Some 0
  end.

(** [x - y] on such values; [None] is NaN. *)
Definition minus (x y : option Z) : option Z :=
  match x, y with
  | Some a, Some b => Some (a - b)
  | _, _ => None
  end.

(** [sortReposBySeverity(repos)] on an array. *)
Definition sortReposBySeverity (engine : Arrangement Repo) (repos : list Repo)
  : list Repo :=
  Array_sort engine
    (fun a b => minus (severity_rank (repo_severity b))
                      (severity_rank (repo_severity a)))
    repos.

End AppHelpers.

(** ** Data model *)

(** An alert object whose properties are texts, as the server sends
    them; a missing property is [None]. (For properties of any type, see
    [Dynamic.Alert].) *)
Record Alert := mkAlert {
  id : option string;
  vulnerability : option string;
  package : option string;
  severity : option string;
  patched_in : option string;
  apply_fix_in : option string;
  repo_name : option string
}.

(** The object [_validateAlertData] returns, posted to the service. *)
Record Request := mkRequest {
  req_vulnerability : string;
  req_package : string;
  req_severity : string;
  req_patched_in : string;
  req_apply_fix_in : string;
  req_repo_name : string;
  req_created_at : Z
}.

(** What [this.currentStream.abort] is: missing (as on a stream reader of
    the Fetch API), a function that returns, or a function that throws. *)
Inductive AbortMethod := NoAbort | AbortReturns | AbortThrows.

Record Reader := mkReader {
  reader_id : nat;
  abort : AbortMethod
}.

(** The part of a fetch [Response] the code looks at; [body] is what
    [response.body.getReader()] yields, [None] when [response.body] is
    [null]. *)
Record Response := mkResponse {
  ok : bool;
  status : Z;
  statusText : string;
  body : option Reader
}.

(** A value of the [ai_responses] object in local storage. *)
Record CacheEntry := mkEntry {
  response : string;
  timestamp : Z
}.

(** Everything observable from outside, in program order. *)
Inductive Effect :=
| NetPost (url : string) (data : Request)   (* fetch(url, {method:'POST',...}) *)
| OnData (buffer : string)                  (* onData(buffer) *)
| OnComplete (buffer : string)              (* onComplete(buffer) *)
| OnError (error : Js.Error)                (* onError(error) *)
| Abort (reader : Reader)                   (* this.currentStream.abort() *)
| CacheWrite (alertId : string) (entry : CacheEntry)
                                            (* cache[alertId] = entry; storage.set *)
| CardCallback (error : option Js.Error).   (* callback(error) of the alert card *)

Definition is_NetPost (e : Effect) : bool :=
  match e with NetPost _ _ => true | _ => false end.
Definition is_terminal (e : Effect) : bool :=
  match e with OnComplete _ | OnError _ => true | _ => false end.
Definition is_callback (e : Effect) : bool :=
  match e with OnData _ | OnComplete _ | OnError _ => true | _ => false end.
Definition is_CacheWrite (e : Effect) : bool :=
  match e with CacheWrite _ _ => true | _ => false end.

(** Which of the three callbacks the caller passed as functions
    ([cb && typeof cb === 'function']). The callbacks themselves are
    assumed to return normally. *)
Record Callbacks := mkCallbacks {
  onData : bool;
  onComplete : bool;
  onError : bool
}.

Definition all_callbacks : Callbacks :=
  {| onData := true; onComplete := true; onError := true |}.

Definition call (present : bool) (e : Effect) : list Effect :=
  if present then [e] else [].

(** The [await] at which a [streamFixSuggestion] call is suspended. *)
Inductive Pc :=
| AwaitPost                                   (* await AppHelpers.http.post(...) *)
| AwaitJson (response : Response)             (* await response.json() *)
| AwaitRead (reader : Reader) (buffer : string) (* await reader.read() *)
| Settled (rejection : option Js.Error).      (* returned, or threw [e] *)

Definition in_flight (pc : Pc) : bool :=
  match pc with Settled _ => false | _ => true end.

(** [response.json()] settles: it rejects or the parsed value has no
    truthy [error] ([JsonNoError]), or it has one. *)
Inductive JsonOutcome := JsonNoError | JsonError (error : string).

(** How an awaited promise settles. [ReadChunk c] is
    [{done: false, value}] with [c = decoder.decode(value, {stream: true})]. *)
Inductive Stimulus :=
| PostResolved (response : Response)
| PostRejected (error : Js.Error)
| JsonSettled (j : JsonOutcome)
| ReadChunk (chunk : string)
| ReadDone
| ReadRejected (error : Js.Error).

(** ** AppHelpers.storage over window.localStorage

    Only the [ai_responses] and [selected_repository] keys matter here.
    [JSON.stringify]/[JSON.parse] round-trip the values stored under them,
    so the item is kept as the value itself. [usable = false] is a
    localStorage whose every operation throws; [storage.get]/[set]/[remove]
    catch that. *)

Module LocalStorage.

Record t := mk {
  usable : bool;
  ai_responses : option (gmap string CacheEntry);
  selected_repository : option (option string)  (* the stored repo's full_name *)
}.

(** [AppHelpers.storage.get('ai_responses', {})] *)
Definition get_ai_responses (ls : t) : gmap string CacheEntry :=
  if usable ls then default ∅ (ai_responses ls) else ∅.

(** [AppHelpers.storage.set('ai_responses', cache)] *)
Definition set_ai_responses (ls : t) (cache : gmap string CacheEntry) : t :=
  if usable ls
  then {| usable := true; ai_responses := Some cache;
          selected_repository := selected_repository ls |}
  else ls.

(** [AppHelpers.storage.remove('ai_responses')] *)
Definition remove_ai_responses (ls : t) : t :=
  if usable ls
  then {| usable := true; ai_responses := None;
          selected_repository := selected_repository ls |}
  else ls.

(** [AppHelpers.storage.get('selected_repository')] *)
Definition get_selected_repository (ls : t) : option (option string) :=
  if usable ls then selected_repository ls else None.

(** [cache[key] = entry] on a plain object: assigning to ["__proto__"]
    sets the prototype and creates no property. *)
Definition assign (cache : gmap string CacheEntry) (key : string)
    (entry : CacheEntry) : gmap string CacheEntry :=
  if String.eqb key "__proto__" then cache else <[key := entry]> cache.

End LocalStorage.

(** ** AIService *)

Module AIService.

Record t := mk {
  isStreaming : bool;
  currentStream : option Reader
}.

(** The constructor's state, and the state the [finally] block and
    [cancelStream] leave. *)
Definition idle : t := {| isStreaming := false; currentStream := None |}.

Definition required_fields (a : Alert) : list (string * option string) :=
  [("vulnerability", vulnerability a); ("package", package a);
   ("severity", severity a)].

Definition missingFields (a : Alert) : list string :=
  map fst (List.filter (fun f => negb (Js.truthy f.2)) (required_fields a)).

(** [_validateAlertData(alertData)] at the time [now], on an alert whose
    properties are texts: a property that is truthy is a text that is not
    empty. (For properties of any type, see [Dynamic._validateAlertData].) *)
Definition _validateAlertData (a : Alert) (now : Z) : Js.Error + Request :=
  match missingFields a with
  | [] =>
      inr {| req_vulnerability := AppHelpers.escapeHtml (default "" (vulnerability a));
             req_package := AppHelpers.escapeHtml (default "" (package a));
             req_severity := default "" (severity a);
             req_patched_in := Js.or_default (patched_in a) "N/A";
             req_apply_fix_in := Js.or_default (apply_fix_in a) "Unknown file";
             req_repo_name := Js.or_default (repo_name a) "Unknown repository";
             req_created_at := now |}
  | missing =>
      inl (Js.new_Error ("Missing required fields: " +:+ Js.join ", " missing))
  end.

(** The error [_handleApiError] throws. *)
Definition _handleApiError (r : Response) (j : JsonOutcome) : Js.Error :=
  let errorMessage :=
    match j with
    | JsonError e => if String.eqb e "" then APP_CONSTANTS.AI_SERVICE_ERROR else e
    | JsonNoError => APP_CONSTANTS.AI_SERVICE_ERROR
    end in
  let errorMessage :=
    if status r =? 401 then APP_CONSTANTS.UNAUTHORIZED
    else if status r =? 429 then APP_CONSTANTS.RATE_LIMITED
    else if status r =? 503 then
      "AI service is temporarily unavailable. Please try again later."
    else if status r =? 500 then
      "AI service encountered an internal error. Please try again."
    else errorMessage in
  {| Js.name := "Error"; Js.message := errorMessage;
     Js.status := Some (status r); Js.statusText := Some (statusText r) |}.

(** [buffer.includes('✅ Done') || buffer.includes('Done')] *)
Definition completion_marker (buffer : string) : bool :=
  Js.includes buffer "✅ Done" || Js.includes buffer "Done".

(** The [TypeError] of [response.body.getReader()] on a [null] body (the
    wording of its message is the engine's). *)
Definition null_body_error : Js.Error :=
  {| Js.name := "TypeError"; Js.message := "response.body is null";
     Js.status := None; Js.statusText := None |}.

Definition already_in_progress : Js.Error :=
  Js.new_Error "AI assistance is already in progress".
Definition alert_required : Js.Error :=
  Js.new_Error "Valid alert data is required".

(** [catch (error) { onError(error); throw error } finally {...}] of
    [streamFixSuggestion]. *)
Definition catch_finally (cbs : Callbacks) (e : Js.Error) (pre : list Effect)
  : t * Pc * list Effect :=
  (idle, Settled (Some e), pre ++ call (onError cbs) (OnError e)).

(** The call itself, up to its first [await]. [alertData = None] is a
    falsy or non-object argument. *)
Definition streamFixSuggestion (svc : t) (alertData : option Alert)
    (cbs : Callbacks) (now : Z) : t * Pc * list Effect :=
  if isStreaming svc then (svc, Settled (Some already_in_progress), [])
  else match alertData with
  | None => (svc, Settled (Some alert_required), [])
  | Some a =>
      match _validateAlertData a now with
      | inl e => catch_finally cbs e []
      | inr processedAlert =>
          ({| isStreaming := true; currentStream := currentStream svc |},
           AwaitPost, [NetPost APP_CONSTANTS.STREAM_FIX processedAlert])
      end
  end.

(** [_handleStreamingResponse] up to its first [reader.read()]. *)
Definition _handleStreamingResponse (svc : t) (cbs : Callbacks) (r : Response)
  : t * Pc * list Effect :=
  match body r with
  | None =>
      catch_finally cbs null_body_error (call (onError cbs) (OnError null_body_error))
  | Some reader =>
      ({| isStreaming := isStreaming svc; currentStream := Some reader |},
       AwaitRead reader "", [])
  end.

(** Run a suspended call from its [await] to the next one. [None]: the
    stimulus is not the settlement of the promise awaited at [pc]. *)
Definition resume (svc : t) (cbs : Callbacks) (pc : Pc) (s : Stimulus)
  : option (t * Pc * list Effect) :=
  match pc, s with
  | AwaitPost, PostRejected e => Some (catch_finally cbs e [])
  | AwaitPost, PostResolved r =>
      if ok r then Some (_handleStreamingResponse svc cbs r)
      else Some (svc, AwaitJson r, [])
  | AwaitJson r, JsonSettled j => Some (catch_finally cbs (_handleApiError r j) [])
  | AwaitRead reader buffer, ReadDone =>
      Some (idle, Settled None, call (onComplete cbs) (OnComplete buffer))
  | AwaitRead reader buffer, ReadChunk chunk =>
      let buffer := buffer +:+ chunk in
      if completion_marker buffer
      then Some (idle, Settled None,
                 call (onData cbs) (OnData buffer)
                 ++ call (onComplete cbs) (OnComplete buffer))
      else Some (svc, AwaitRead reader buffer, call (onData cbs) (OnData buffer))
  | AwaitRead reader buffer, ReadRejected e =>
      Some (catch_finally cbs e (call (onError cbs) (OnError e)))
  | _, _ => None
  end.

Definition cancelStream (svc : t) : t * list Effect :=
  (idle,
   match currentStream svc with
   | Some reader =>
       match abort reader with
       | NoAbort => []
       | AbortReturns | AbortThrows => [Abort reader]
       end
   | None => []
   end).

Definition isStreamingInProgress (svc : t) : bool := isStreaming svc.

(** 24 * 60 * 60 * 1000 *)
Definition retention_ms : Z := 24 * 60 * 60 * 1000.

(** [cacheResponse(alertId, response)] at time [now]: the storage
    afterwards and what was written. *)
Definition cacheResponse (ls : LocalStorage.t) (alertId : option string)
    (response : string) (now : Z) : LocalStorage.t * list Effect :=
  match alertId with
  | Some alertId =>
      if String.eqb alertId "" || String.eqb response "" then (ls, [])
      else
        let cache := LocalStorage.get_ai_responses ls in
        let entry := {| response := response; timestamp := now |} in
        (LocalStorage.set_ai_responses ls (LocalStorage.assign cache alertId entry),
         [CacheWrite alertId entry])
  | None => (ls, [])
  end.

(** [getCachedResponse(alertId)] at time [now]; [None] is [null]. *)
Definition getCachedResponse (ls : LocalStorage.t) (alertId : option string)
    (now : Z) : option string :=
  match alertId with
  | Some alertId =>
      if String.eqb alertId "" then None
      else
        match LocalStorage.get_ai_responses ls !! alertId with
        | Some cached =>
            if String.eqb (response cached) "" then None
            else
              let isValid := now - timestamp cached <? retention_ms in
              if isValid then Some (response cached) else None
        | None => None
        end
  | None => None
  end.

Definition clearCache (ls : LocalStorage.t) : LocalStorage.t :=
  LocalStorage.remove_ai_responses ls.

End AIService.

(** ** The service with its suspended calls

    One thread of control: between two [await]s of one call, nothing else
    runs; at an [await], any other call may run. [sessions] holds every call
    of [streamFixSuggestion] made so far, in order, with the callbacks it
    was given and where it stands. *)

Module System.

Record t := mk {
  service : AIService.t;
  sessions : list (Callbacks * Pc);
  effects : list Effect
}.

Definition init : t :=
  {| service := AIService.idle; sessions := []; effects := [] |}.

Inductive Action :=
| Start (alertData : option Alert) (cbs : Callbacks) (now : Z)
    (* aiService.streamFixSuggestion(alertData, ...) *)
| Cancel
    (* aiService.cancelStream() *)
| Settle (session : nat) (s : Stimulus).
    (* the promise awaited by call number [session] settles *)

Definition step (sys : t) (a : Action) : option t :=
  match a with
  | Start alertData cbs now =>
      let '(svc, pc, es) :=
        AIService.streamFixSuggestion (service sys) alertData cbs now in
      Some {| service := svc;
              sessions := sessions sys ++ [(cbs, pc)];
              effects := effects sys ++ es |}
  | Cancel =>
      let '(svc, es) := AIService.cancelStream (service sys) in
      Some {| service := svc;
              sessions := sessions sys;
              effects := effects sys ++ es |}
  | Settle i s =>
      match sessions sys !! i with
      | Some (cbs, pc) =>
          match AIService.resume (service sys) cbs pc s with
          | Some (svc, pc', es) =>
              Some {| service := svc;
                      sessions := <[i := (cbs, pc')]> (sessions sys);
                      effects := effects sys ++ es |}
          | None => None
          end
      | None => None
      end
  end.

Fixpoint run (sys : t) (actions : list Action) : option t :=
  match actions with
  | [] => Some sys
  | a :: rest =>
      match step sys a with
      | Some sys' => run sys' rest
      | None => None
      end
  end.

Definition is_Cancel (a : Action) : bool :=
  match a with Cancel => true | _ => false end.

End System.

(** One call run on its own: the call, then the settlements of the
    promises it awaits, in order. Returns the service, where the call
    stands, what it did, and the settlements it did not consume. *)
Fixpoint feed (svc : AIService.t) (cbs : Callbacks) (pc : Pc)
    (script : list Stimulus) : AIService.t * Pc * list Effect * list Stimulus :=
  match script with
  | [] => (svc, pc, [], [])
  | s :: rest =>
      match AIService.resume svc cbs pc s with
      | Some (svc', pc', es) =>
          let '(svc'', pc'', es', rest') := feed svc' cbs pc' rest in
          (svc'', pc'', es ++ es', rest')
      | None => (svc, pc, [], script)
      end
  end.

Definition session (svc : AIService.t) (alertData : option Alert)
    (cbs : Callbacks) (now : Z) (script : list Stimulus)
  : AIService.t * Pc * list Effect * list Stimulus :=
  let '(svc', pc, es) := AIService.streamFixSuggestion svc alertData cbs now in
  let '(svc'', pc', es', rest) := feed svc' cbs pc script in
  (svc'', pc', es ++ es', rest).

(** ** AIAssistModalComponent

    The modal element and its content element are those of the page
    template, so the [!this.modalContent] guards never fire. Of the display
    only the content of the content element and the state of the
    Create-PR button are kept: CSS classes, the header, notifications and
    the timer that empties a closed modal are left out. *)

Module AIAssistModalComponent.

Inductive Content :=
| TemplateMarkup                      (* as loaded *)
| LoadingIndicator                    (* showLoadingState() *)
| Formatted (raw : string)            (* textContent = formatResponse(raw) *)
| Plain (content : string)            (* setModalContent(content) *)
| ErrorState (errorMessage : string). (* showError(errorMessage) *)

Record t := mk {
  isVisible : bool;
  currentAlert : option Alert;
  isStreaming : bool;
  modalContent : Content;
  createPRDisabled : bool
}.

Definition init : t :=
  {| isVisible := false; currentAlert := None; isStreaming := false;
     modalContent := TemplateMarkup; createPRDisabled := false |}.

(** [showModal] up to the call of [streamAIResponse]. *)
Definition showModal_open (m : t) (alert : Alert) : t :=
  {| isVisible := true; currentAlert := Some alert; isStreaming := true;
     modalContent := LoadingIndicator; createPRDisabled := true |}.

Definition updateStreamingContent (m : t) (data : string) : t :=
  if isVisible m
  then {| isVisible := isVisible m; currentAlert := currentAlert m;
          isStreaming := isStreaming m;
          modalContent := Formatted data;
          createPRDisabled := createPRDisabled m |}
  else m.

Definition handleStreamingComplete (m : t) (ls : LocalStorage.t)
    (finalData : string) (now : Z) : t * LocalStorage.t * list Effect :=
  if isVisible m
  then
    let m' := {| isVisible := true; currentAlert := currentAlert m;
                 isStreaming := false;
                 modalContent := Formatted finalData;
                 createPRDisabled := false |} in
    match currentAlert m with
    | Some a =>
        if Js.truthy (id a)
        then let '(ls', es) := AIService.cacheResponse ls (id a) finalData now in
             (m', ls', es)
        else (m', ls, [])
    | None => (m', ls, [])
    end
  else
    ({| isVisible := false; currentAlert := currentAlert m;
        isStreaming := false;
        modalContent := modalContent m;
        createPRDisabled := createPRDisabled m |}, ls, []).

Definition handleStreamingError (m : t) (error : Js.Error) : t :=
  {| isVisible := isVisible m; currentAlert := currentAlert m;
     isStreaming := false;
     modalContent :=
       ErrorState (if String.eqb (Js.message error) ""
                   then "Failed to get AI assistance" else Js.message error);
     createPRDisabled := createPRDisabled m |}.

(** [closeModal()]: the modal afterwards and whether it called
    [aiService.cancelStream()]. *)
Definition closeModal (m : t) : t * bool :=
  if isVisible m
  then ({| isVisible := false; currentAlert := None; isStreaming := false;
           modalContent := modalContent m;
           createPRDisabled := createPRDisabled m |}, isStreaming m)
  else (m, false).

(** [loadCachedResponse(alert)] at time [now]. *)
Definition loadCachedResponse (m : t) (ls : LocalStorage.t) (alert : Alert)
    (now : Z) : t * bool :=
  if Js.truthy (id alert)
  then match AIService.getCachedResponse ls (id alert) now with
       | Some cachedResponse =>
           ({| isVisible := isVisible m; currentAlert := currentAlert m;
               isStreaming := isStreaming m;
               modalContent := Plain cachedResponse;
               createPRDisabled := false |}, true)
       | None => (m, false)
       end
  else (m, false).

(** The three callbacks [streamAIResponse] passes, applied to what a
    step of the service did, in order. It returns the effects with the
    cache writes of [handleStreamingComplete] in their place. *)
Fixpoint subscriber (m : t) (ls : LocalStorage.t) (now : Z) (es : list Effect)
  : t * LocalStorage.t * list Effect :=
  match es with
  | [] => (m, ls, [])
  | e :: rest =>
      let '(m1, ls1, out) :=
        match e with
        | OnData data => (updateStreamingContent m data, ls, [e])
        | OnComplete finalData =>
            let '(m', ls', ws) := handleStreamingComplete m ls finalData now in
            (m', ls', e :: ws)
        | OnError error => (handleStreamingError m error, ls, [e])
        | _ => (m, ls, [e])
        end in
      let '(m2, ls2, out') := subscriber m1 ls1 now rest in
      (m2, ls2, out ++ out')
  end.

(** The [catch] of [streamAIResponse], once the call has settled. *)
Definition streamAIResponse_catch (m : t) (pc : Pc) : t :=
  match pc with
  | Settled (Some error) => handleStreamingError m error
  | _ => m
  end.

End AIAssistModalComponent.

(** ** DependabotApp

    The application as far as AI assistance goes: the service with its
    calls, the modal, local storage. [awaiting] lists the calls whose end
    [handleAIAssistRequest] awaits before it calls the card's [callback];
    [log] is what happened, the cache writes included. *)

Module DependabotApp.

Module Modal := AIAssistModalComponent.

Record t := mk {
  sys : System.t;
  modal : Modal.t;
  storage : LocalStorage.t;
  awaiting : list nat;
  log : list Effect
}.

Definition init (ls : LocalStorage.t) : t :=
  {| sys := System.init; modal := Modal.init; storage := ls;
     awaiting := []; log := [] |}.

Inductive Action :=
| AssistRequest (alert : option Alert) (now : Z)
    (* the card calls handleAIAssistRequest(alert, callback) *)
| Retry (now : Z)
    (* click on the retry button of the error state *)
| CloseModal
    (* closeModal() *)
| Settle (session : nat) (s : Stimulus) (now : Z).
    (* the promise awaited by call number [session] settles *)

(** [showModal(alert)] up to the first [await] of the call it makes;
    [awaited] tells whether the caller awaits it and then calls the
    card's callback. *)
Definition showModal (app : t) (alert : Alert) (now : Z) (awaited : bool) : t :=
  let m := Modal.showModal_open (modal app) alert in
  let '(svc, pc, es) :=
    AIService.streamFixSuggestion (System.service (sys app)) (Some alert)
      all_callbacks now in
  let '(m, ls, out) := Modal.subscriber m (storage app) now es in
  let m := Modal.streamAIResponse_catch m pc in
  let i := length (System.sessions (sys app)) in
  {| sys := {| System.service := svc;
               System.sessions := System.sessions (sys app) ++ [(all_callbacks, pc)];
               System.effects := System.effects (sys app) ++ es |};
     modal := m;
     storage := ls;
     awaiting := if awaited && in_flight pc then awaiting app ++ [i]
                 else awaiting app;
     log := log app ++ out
            ++ (if awaited && negb (in_flight pc) then [CardCallback None] else []) |}.

Definition handleAIAssistRequest (app : t) (alert : option Alert) (now : Z) : t :=
  match alert with
  | None =>
      {| sys := sys app; modal := modal app; storage := storage app;
         awaiting := awaiting app;
         log := log app ++ [CardCallback (Some (Js.new_Error "No alert provided"))] |}
  | Some alert =>
      (* alert.repo_name = selectedRepo.full_name *)
      let alert :=
        match LocalStorage.get_selected_repository (storage app) with
        | Some full_name =>
            {| id := id alert; vulnerability := vulnerability alert;
               package := package alert; severity := severity alert;
               patched_in := patched_in alert;
               apply_fix_in := apply_fix_in alert; repo_name := full_name |}
        | None => alert
        end in
      let '(m, loaded) :=
        if Js.truthy (id alert)
        then Modal.loadCachedResponse (modal app) (storage app) alert now
        else (modal app, false) in
      let app := {| sys := sys app; modal := m; storage := storage app;
                    awaiting := awaiting app; log := log app |} in
      if loaded
      then
        (* this.components.aiAssistModal.showModal(alert); callback(null); return *)
        let app := showModal app alert now false in
        {| sys := sys app; modal := modal app; storage := storage app;
           awaiting := awaiting app;
           log := log app ++ [CardCallback None] |}
      else
        (* await this.components.aiAssistModal.showModal(alert); callback(null) *)
        showModal app alert now true
  end.

Definition closeModal (app : t) : t :=
  let '(m, cancel) := Modal.closeModal (modal app) in
  if cancel
  then
    let '(svc, es) := AIService.cancelStream (System.service (sys app)) in
    {| sys := {| System.service := svc;
                 System.sessions := System.sessions (sys app);
                 System.effects := System.effects (sys app) ++ es |};
       modal := m; storage := storage app; awaiting := awaiting app;
       log := log app ++ es |}
  else
    {| sys := sys app; modal := m; storage := storage app;
       awaiting := awaiting app; log := log app |}.

Definition settle (app : t) (i : nat) (s : Stimulus) (now : Z) : option t :=
  match System.sessions (sys app) !! i with
  | Some (cbs, pc) =>
      match AIService.resume (System.service (sys app)) cbs pc s with
      | Some (svc, pc', es) =>
          let '(m, ls, out) := Modal.subscriber (modal app) (storage app) now es in
          let m := Modal.streamAIResponse_catch m pc' in
          let returns := bool_decide (i ∈ awaiting app) && negb (in_flight pc') in
          Some {| sys := {| System.service := svc;
                            System.sessions := <[i := (cbs, pc')]> (System.sessions (sys app));
                            System.effects := System.effects (sys app) ++ es |};
                  modal := m;
                  storage := ls;
                  awaiting := awaiting app;
                  log := log app ++ out
                         ++ (if returns then [CardCallback None] else []) |}
      | None => None
      end
  | None => None
  end.

Definition step (app : t) (a : Action) : option t :=
  match a with
  | AssistRequest alert now => Some (handleAIAssistRequest app alert now)
  | Retry now =>
      match Modal.modalContent (modal app), Modal.currentAlert (modal app) with
      | Modal.ErrorState _, Some alert => Some (showModal app alert now false)
      | Modal.ErrorState _, None => Some app
      | _, _ => None   (* there is no retry button to click *)
      end
  | CloseModal => Some (closeModal app)
  | Settle i s now => settle app i s now
  end.

Fixpoint run (app : t) (actions : list Action) : option t :=
  match actions with
  | [] => Some app
  | a :: rest =>
      match step app a with
      | Some app' => run app' rest
      | None => None
      end
  end.

Definition cache_writes (app : t) : list Effect :=
  List.filter is_CacheWrite (log app).

Definition requests (app : t) : list Effect :=
  List.filter is_NetPost (log app).

End DependabotApp.

(** ** GitHubApiService *)

(** A property of an object of the server's JSON that holds texts:
    absent, [null] (or another falsy value that is no string), or a
    string. (For values of any type, see [Dynamic.Property].) *)
Inductive RawField := Absent | Null | Str (s : string).

(** An element of the alerts array that is an object. *)
Record RawAlert := mkRawAlert {
  raw_id : RawField;
  raw_vulnerability : RawField;
  raw_package : RawField;
  raw_severity : RawField;
  raw_patched_in : RawField;
  raw_apply_fix_in : RawField;
  raw_repo_name : RawField
}.

(** [data.summary] when it is an object; an absent count is [None]. *)
Record RawSummary := mkRawSummary {
  raw_repos_found : option Z;
  raw_critical : option Z;
  raw_high : option Z;
  raw_medium : option Z;
  raw_low : option Z
}.

(** How [response.json()] settles on a response that is [ok]: it
    rejects, or it yields a value that is no object ([null], a number, a
    string, a boolean), an object that is no array, with its [repos] (when
    that is an array) and its [summary] (when that is an object), or an
    array, whose elements are objects or not ([None]). *)
Inductive Json :=
| JsonRejects (e : Js.Error)
| JsonPrimitive
| JsonObject (repos : option (list Repo)) (summary : option RawSummary)
| JsonArray (items : list (option RawAlert)).

Module GitHubApiService.

Record t := mk {
  isLoading : bool
}.

(** The constructor's state. *)
Definition idle : t := {| isLoading := false |}.

(** The requests the service sends: [http.get] of the URL built from
    [SEARCH_REPOS], the organization and the query; [http.post] of
    [{repo}] to [LOAD_ALERTS]. *)
Inductive Fetch :=
| GetSearch (organization query : string)
| PostAlerts (repo : string).

(** What [searchRepositories] returns. *)
Record SearchData := mkData {
  repos : list Repo;
  summary : Summary
}.

Inductive Result :=
| Repositories (data : SearchData)
| Alerts (alerts : list Alert).

(** Which of the two methods a call is; [ids] are the identifiers
    [generateId] hands out during the call, in order. *)
Inductive Method :=
| Search
| LoadAlerts (ids : nat -> string).

(** The [await] at which a call is suspended. *)
Inductive Call :=
| AwaitFetch (m : Method)         (* await AppHelpers.http.get/post(...) *)
| AwaitErrorBody (r : Response)   (* await response.json() of _handleApiError *)
| AwaitBody (m : Method)          (* await response.json() *)
| Returned (result : Js.Error + Result).

Definition in_flight (c : Call) : bool :=
  match c with Returned _ => false | _ => true end.

(** How an awaited promise settles. With the parsed body comes [engine]:
    what the engine's sort makes, in the code that runs on from there, of
    an array that the comparator does not order. *)
Inductive Settlement :=
| FetchResolved (r : Response)
| FetchRejected (e : Js.Error)
| ErrorBody (j : JsonOutcome)
| Body (d : Json) (engine : AppHelpers.Arrangement Repo).

(** [raw.p] *)
Definition read (f : RawField) : option string :=
  match f with Str s => Some s | _ => None end.

(** [{p: d, ...raw}.p]: an own property of [raw] replaces the default,
    whatever its value. *)
Definition spread_over (d : option string) (f : RawField) : option string :=
  match f with Absent => d | Null => None | Str s => Some s end.

(** [{p: raw.p || d, ...raw}.p] *)
Definition defaulted (f : RawField) (d : string) : option string :=
  spread_over (Some (Js.or_default (read f) d)) f.

(** [Object.values(SEVERITY_LEVELS).includes(severity)] *)
Definition is_level (severity : option string) : bool :=
  match severity with
  | Some s => existsb (String.eqb s) APP_CONSTANTS.SEVERITY_LEVELS
  | None => false
  end.

(** [_processAlert(alert)]; [None] is a value that is no object, [id]
    what [generateId] returns. *)
Definition _processAlert (alert : option RawAlert) (id : string)
  : Js.Error + Alert :=
  match alert with
  | None => inl (Js.new_Error "Invalid alert data")
  | Some raw =>
      let severity := defaulted (raw_severity raw) "low" in
      inr {| id := spread_over (Some id) (raw_id raw);
             vulnerability :=
               Some (AppHelpers.truncateText
                       (defaulted (raw_vulnerability raw) "Unknown vulnerability")
                       APP_CONSTANTS.MAX_VULNERABILITY_TITLE_LENGTH);
             package := defaulted (raw_package raw) "Unknown package";
             severity := if is_level severity then severity else Some "low";
             patched_in := defaulted (raw_patched_in raw) "N/A";
             apply_fix_in := defaulted (raw_apply_fix_in raw) "Unknown file";
             repo_name := spread_over None (raw_repo_name raw) |}
  end.

(** [alerts.map(alert => this._processAlert(alert))] from index [i] on:
    the first element that is no object throws. *)
Fixpoint process_all (ids : nat -> string) (i : nat)
    (alerts : list (option RawAlert)) : Js.Error + list Alert :=
  match alerts with
  | [] => inr []
  | a :: rest =>
      match _processAlert a (ids i) with
      | inl e => inl e
      | inr processed =>
          match process_all ids (S i) rest with
          | inl e => inl e
          | inr others => inr (processed :: others)
          end
      end
  end.

(** The error [_handleApiError] throws. *)
Definition _handleApiError (r : Response) (j : JsonOutcome) : Js.Error :=
  let errorMessage :=
    match j with
    | JsonError e =>
        if String.eqb e "" then "HTTP " +:+ pretty (status r) +:+ ": " +:+ statusText r
        else e
    | JsonNoError => "HTTP " +:+ pretty (status r) +:+ ": " +:+ statusText r
    end in
  {| Js.name := "Error"; Js.message := errorMessage;
     Js.status := Some (status r); Js.statusText := Some (statusText r) |}.

(** [{repos_found: 0, critical: 0, ..., ...data.summary}] *)
Definition summary_defaults (s : option RawSummary) : Summary :=
  match s with
  | None => APP_CONSTANTS.DEFAULTS_SUMMARY
  | Some s =>
      {| repos_found := default 0 (raw_repos_found s);
         sum_critical := default 0 (raw_critical s);
         sum_high := default 0 (raw_high s);
         sum_medium := default 0 (raw_medium s);
         sum_low := default 0 (raw_low s) |}
  end.

(** [catch (error) { throw new Error(getErrorMessage(error)) }
    finally { this.isLoading = false }] *)
Definition catch_finally (e : Js.Error) : t * Call * list Fetch :=
  (idle, Returned (inl (Js.new_Error (AppHelpers.getErrorMessage (Some e)))), []).

(** [return ...] inside the [try], through the [finally]. *)
Definition return_finally (v : Result) : t * Call * list Fetch :=
  (idle, Returned (inr v), []).

(** [searchRepositories(organization, query)] up to its first [await];
    [None] is [null] or [undefined]. The texts are well formed, so that
    [encodeURIComponent] does not throw. *)
Definition searchRepositories (svc : t) (organization query : option string)
  : t * Call * list Fetch :=
  if isLoading svc
  then (svc, Returned (inl (Js.new_Error "Another request is in progress")), [])
  else if negb (Js.truthy organization) || negb (Js.truthy query)
  then (svc, Returned (inl (Js.new_Error "Organization and query are required")), [])
  else if negb (AppHelpers.isValidGitHubOrg organization)
  then (svc, Returned (inl (Js.new_Error APP_CONSTANTS.INVALID_ORGANIZATION)), [])
  else ({| isLoading := true |}, AwaitFetch Search,
        [GetSearch (default "" organization) (default "" query)]).

(** [loadSecurityAlerts(repositoryFullName)] up to its first [await];
    [None] is a value that is no string. *)
Definition loadSecurityAlerts (svc : t) (repositoryFullName : option string)
    (ids : nat -> string) : t * Call * list Fetch :=
  if isLoading svc
  then (svc, Returned (inl (Js.new_Error "Another request is in progress")), [])
  else if negb (Js.truthy repositoryFullName)
  then (svc, Returned (inl (Js.new_Error "Repository full name is required")), [])
  else if negb (Js.includes (default "" repositoryFullName) "/")
  then (svc, Returned (inl (Js.new_Error
          "Invalid repository name format. Expected: org/repo")), [])
  else ({| isLoading := true |}, AwaitFetch (LoadAlerts ids),
        [PostAlerts (default "" repositoryFullName)]).

(** What a method makes of the parsed body. *)
Definition on_body (m : Method) (d : Json) (engine : AppHelpers.Arrangement Repo)
  : t * Call * list Fetch :=
  match d with
  | JsonRejects e => catch_finally e
  | _ =>
      match m with
      | Search =>
          match d with
          | JsonObject repos summary =>
              return_finally (Repositories
                {| repos := AppHelpers.sortReposBySeverity engine (default [] repos);
                   summary := summary_defaults summary |})
          | JsonArray _ =>
              return_finally (Repositories
                {| repos := AppHelpers.sortReposBySeverity engine [];
                   summary := summary_defaults None |})
          | _ => catch_finally (Js.new_Error "Invalid response format")
          end
      | LoadAlerts ids =>
          match d with
          | JsonArray items =>
              match process_all ids 0 items with
              | inl e => catch_finally e
              | inr alerts => return_finally (Alerts alerts)
              end
          | _ => catch_finally (Js.new_Error "Invalid alerts response format")
          end
      end
  end.

(** Run a suspended call from its [await] to the next one. [None]: the
    settlement is not that of the promise awaited at [c]. *)
Definition resume (svc : t) (c : Call) (s : Settlement)
  : option (t * Call * list Fetch) :=
  match c, s with
  | AwaitFetch m, FetchRejected e => Some (catch_finally e)
  | AwaitFetch m, FetchResolved r =>
      if ok r then Some (svc, AwaitBody m, [])
      else Some (svc, AwaitErrorBody r, [])
  | AwaitErrorBody r, ErrorBody j => Some (catch_finally (_handleApiError r j))
  | AwaitBody m, Body d engine => Some (on_body m d engine)
  | _, _ => None
  end.

Definition isRequestInProgress (svc : t) : bool := isLoading svc.

(** The object [validateSearchParams] returns. *)
Record Validation := mkValidation {
  isValid : bool;
  errors : list string
}.

(** [!x || typeof x !== 'string' || x.trim() === ''] *)
Definition blank (trim : string -> string) (x : option string) : bool :=
  match x with
  | Some s => String.eqb s "" || String.eqb (trim s) ""
  | None => true
  end.

(** [validateSearchParams(organization, query)], given what
    [String.prototype.trim] does. *)
Definition validateSearchParams (trim : string -> string)
    (organization query : option string) : Validation :=
  let errors :=
    (if blank trim organization then [APP_CONSTANTS.INVALID_ORGANIZATION] else [])
    ++ (if blank trim query then [APP_CONSTANTS.INVALID_FILTER] else [])
    ++ (if Js.truthy organization
           && negb (AppHelpers.isValidGitHubOrg (trim <$> organization))
        then ["Organization name contains invalid characters"] else []) in
  {| isValid := match errors with [] => true | _ => false end;
     errors := errors |}.




End GitHubApiService.

(** ** The API service with its suspended calls

    As for the assistance service: every call made so far, in order, with
    where it stands, and the requests sent. *)

Module Api.

Record t := mk {
  service : GitHubApiService.t;
  calls : list GitHubApiService.Call;
  fetches : list GitHubApiService.Fetch
}.

Definition init : t :=
  {| service := GitHubApiService.idle; calls := []; fetches := [] |}.

Inductive Action :=
| SearchRepositories (organization query : option string)
| LoadSecurityAlerts (repositoryFullName : option string) (ids : nat -> string)
| Settle (call : nat) (s : GitHubApiService.Settlement).

Definition started (sys : t)
    (r : GitHubApiService.t * GitHubApiService.Call * list GitHubApiService.Fetch)
  : t :=
  let '(svc, c, fs) := r in
  {| service := svc; calls := calls sys ++ [c]; fetches := fetches sys ++ fs |}.

Definition step (sys : t) (a : Action) : option t :=
  match a with
  | SearchRepositories organization query =>
      Some (started sys
              (GitHubApiService.searchRepositories (service sys) organization query))
  | LoadSecurityAlerts name ids =>
      Some (started sys
              (GitHubApiService.loadSecurityAlerts (service sys) name ids))
  | Settle i s =>
      match calls sys !! i with
      | Some c =>
          match GitHubApiService.resume (service sys) c s with
          | Some (svc, c', fs) =>
              Some {| service := svc;
                      calls := <[i := c']> (calls sys);
                      fetches := fetches sys ++ fs |}
          | None => None
          end
      | None => None
      end
  end.

Fixpoint run (sys : t) (actions : list Action) : option t :=
  match actions with
  | [] => Some sys
  | a :: rest =>
      match step sys a with
      | Some sys' => run sys' rest
      | None => None
      end
  end.

End Api.

(** ** SummaryComponent *)

(** A count as [parseInt(count, 10)] reads it: an integer, or [NaN]. *)
Inductive CountValue := Parsed (n : Z) | NotANumber.

(** The argument of [renderSummary] when it is an object. *)
Record SummaryInput := mkInput {
  in_repos_found : CountValue;
  in_critical : CountValue;
  in_high : CountValue;
  in_medium : CountValue;
  in_low : CountValue
}.

Module SummaryComponent.

Record t := mk {
  currentSummary : Summary
}.

Definition validateCount (count : CountValue) : Z :=
  match count with
  | Parsed parsedCount => if parsedCount <? 0 then 0 else parsedCount
  | NotANumber => 0
  end.

Definition as_input (s : Summary) : SummaryInput :=
  {| in_repos_found := Parsed (repos_found s);
     in_critical := Parsed (sum_critical s);
     in_high := Parsed (sum_high s);
     in_medium := Parsed (sum_medium s);
     in_low := Parsed (sum_low s) |}.

(** [renderSummary(summary, animate)]: the component afterwards and the
    summary handed to [onSummaryUpdated]. [None] is a value that is no
    object. *)
Definition renderSummary (summary : option SummaryInput) : t * Summary :=
  let summary := default (as_input APP_CONSTANTS.DEFAULTS_SUMMARY) summary in
  let validatedSummary :=
    {| repos_found := validateCount (in_repos_found summary);
       sum_critical := validateCount (in_critical summary);
       sum_high := validateCount (in_high summary);
       sum_medium := validateCount (in_medium summary);
       sum_low := validateCount (in_low summary) |} in
  ({| currentSummary := validatedSummary |}, validatedSummary).

(** The constructor, with its [init]. *)
Definition init : t :=
  (renderSummary (Some (as_input APP_CONSTANTS.DEFAULTS_SUMMARY))).1.

Definition reset (c : t) : t := (renderSummary (Some (as_input APP_CONSTANTS.DEFAULTS_SUMMARY))).1.

(** [addCounts(additionalCounts, animate)]; an absent or zero count is
    [None]; [None] for the argument is a value that is no object. The
    counts are integers below 10^21, which [parseInt] reads as they
    are. *)
Definition addCounts (c : t) (additionalCounts : option RawSummary) : t :=
  match additionalCounts with
  | None => c
  | Some a =>
      let cur := currentSummary c in
      (renderSummary (Some
         {| in_repos_found := Parsed (repos_found cur + default 0 (raw_repos_found a));
            in_critical := Parsed (sum_critical cur + default 0 (raw_critical a));
            in_high := Parsed (sum_high cur + default 0 (raw_high a));
            in_medium := Parsed (sum_medium cur + default 0 (raw_medium a));
            in_low := Parsed (sum_low cur + default 0 (raw_low a)) |})).1
  end.

Definition getTotalAlerts (c : t) : Z :=
  let s := currentSummary c in
  sum_critical s + sum_high s + sum_medium s + sum_low s.

Definition getMostSevereLevel (c : t) : string :=
  let s := currentSummary c in
  if 0 <? sum_critical s then "critical"
  else if 0 <? sum_high s then "high"
  else if 0 <? sum_medium s then "medium"
  else if 0 <? sum_low s then "low"
  else "safe".

Definition hasAlerts (c : t) : bool := 0 <? getTotalAlerts c.

Definition hasCriticalAlerts (c : t) : bool := 0 <? sum_critical (currentSummary c).

(** The [statusClass] of [updateOverallStatus(summary)]. *)
Definition statusClass (summary : Summary) : string :=
  if 0 <? sum_critical summary then "status-critical"
  else if 0 <? sum_high summary then "status-warning"
  else if (0 <? sum_medium summary) || (0 <? sum_low summary) then "status-info"
  else "status-safe".

(** [Object.entries(this.currentSummary)] *)
Definition entries (s : Summary) : list (string * Z) :=
  [("repos_found", repos_found s); ("critical", sum_critical s);
   ("high", sum_high s); ("medium", sum_medium s); ("low", sum_low s)].

(** What is done to the component from outside. *)
Inductive Action :=
| RenderSummary (summary : option SummaryInput)
| AddCounts (additionalCounts : option RawSummary)
| Reset.

Definition step (c : t) (a : Action) : t :=
  match a with
  | RenderSummary summary => (renderSummary summary).1
  | AddCounts additionalCounts => addCounts c additionalCounts
  | Reset => reset c
  end.

End SummaryComponent.

(** ** AlertCardComponent: the alerts array *)

Module AlertCardComponent.

(** [alerts] is [this.alerts]; the cards follow it. *)

(** An index in the bounds of the array. *)
Definition in_bounds (alerts : list Alert) (index : Z) : bool :=
  (0 <=? index) && (index <? Z.of_nat (length alerts)).

(** [getAlert(index)] for an integer [index]; [None] is [null]. *)
Definition getAlert (alerts : list Alert) (index : Z) : option Alert :=
  if in_bounds alerts index then alerts !! Z.to_nat index else None.

Definition filterBySeverity (alerts : list Alert) (s : option string) : list Alert :=
  List.filter (fun alert => bool_decide (severity alert = s)) alerts.

(** The comparator of [sortBySeverity(descending)]. *)
Definition by_severity (descending : bool) (a b : Alert) : option Z :=
  let severityA := AppHelpers.severity_rank (severity a) in
  let severityB := AppHelpers.severity_rank (severity b) in
  if descending then AppHelpers.minus severityB severityA
  else AppHelpers.minus severityA severityB.

Definition sortBySeverity (engine : AppHelpers.Arrangement Alert)
    (alerts : list Alert) (descending : bool) : list Alert :=
  AppHelpers.Array_sort engine (by_severity descending) alerts.

Definition updateAlert (alerts : list Alert) (index : Z) (newAlert : Alert) : list Alert :=
  if in_bounds alerts index then <[Z.to_nat index := newAlert]> alerts
  else alerts.

(** [removeAlert(index)]: [this.alerts.splice(index, 1)]. *)
Definition removeAlert (alerts : list Alert) (index : Z) : list Alert :=
  if in_bounds alerts index then delete (Z.to_nat index) alerts else alerts.

(** The values the template of [getCardHTML] puts into the markup: the
    title attribute, the title shown, the severity (in the class of the
    badge and, in capitals, as its text) and the three values of the
    list. *)
Record CardValues := mkCard {
  title : string;
  displayTitle : string;
  badge : string;
  packageName : string;
  patchedIn : string;
  applyFixIn : string
}.

Definition getCardHTML (alert : Alert) : CardValues :=
  let vulnerability :=
    AppHelpers.escapeHtml (Js.or_default (vulnerability alert) "Unknown vulnerability") in
  {| title := vulnerability;
     displayTitle :=
       AppHelpers.truncateText (Some vulnerability)
         APP_CONSTANTS.MAX_VULNERABILITY_TITLE_LENGTH;
     badge := Js.or_default (severity alert) "low";
     packageName := AppHelpers.escapeHtml (Js.or_default (package alert) "Unknown package");
     patchedIn := AppHelpers.escapeHtml (Js.or_default (patched_in alert) "N/A");
     applyFixIn :=
       AppHelpers.escapeHtml (Js.or_default (apply_fix_in alert) "Unknown file") |}.

Definition interpolated (c : CardValues) : list string :=
  [title c; displayTitle c; badge c; packageName c; patchedIn c; applyFixIn c].

End AlertCardComponent.

(** ** The notifications of the application *)

Record Notification := mkNotification {
  n_id : string;
  n_message : string;
  n_type : string;
  n_timestamp : Z
}.

Module Notifications.

(** [this.notifications] *)
Definition t := list Notification.

(** [showNotification(message, type)]; [id] is what [generateId]
    returns, [now] what [Date.now()] returns. *)
Definition showNotification (ns : t) (message type id : string) (now : Z) : t :=
  ns ++ [{| n_id := id; n_message := message; n_type := type; n_timestamp := now |}].

Definition removeNotification (ns : t) (notificationId : string) : t :=
  List.filter (fun n => negb (String.eqb (n_id n) notificationId)) ns.

(** The loop of [cleanup]: [forEach] walks the array it was called on,
    while [removeNotification] puts a new array in its place each time. *)
Definition cleanup (ns : t) : t :=
  fold_left (fun current n => removeNotification current (n_id n)) ns ns.

End Notifications.

(** ** Values of any type

    The records above take the properties of an alert as texts, as the
    server sends them. Its JSON may hold a number, a boolean, an array or
    an object in their place, and the code goes on with that. Here are
    the functions that make an alert and check it before it is sent, on
    such values; on texts they are the functions above. *)

Module Dynamic.

(** A value, by what the code asks of it: whether it is a string
    ([typeof v === 'string']) and, when it is none, whether it is truthy
    (a number that is not zero, [true], an array, an object) or falsy
    ([undefined], [null], [0], [false]). *)
Inductive Value := Text (s : string) | Truthy | Falsy.

(** [!!v] *)
Definition truthy (v : Value) : bool :=
  match v with
  | Text s => negb (String.eqb s "")
  | Truthy => true
  | Falsy => false
  end.

(** [v || d] *)
Definition or_default (v : Value) (d : string) : Value :=
  if truthy v then v else Text d.

(** [AppHelpers.escapeHtml(unsafe)] *)
Definition escapeHtml (unsafe : Value) : string :=
  match unsafe with
  | Text s => AppHelpers.escapeHtml s
  | _ => ""
  end.

(** [AppHelpers.truncateText(text, maxLength)] *)
Definition truncateText (text : Value) (maxLength : nat) : string :=
  match text with
  | Text s => AppHelpers.truncateText (Some s) maxLength
  | _ => ""
  end.

(** An alert object; a missing property reads as [undefined]. *)
Record Alert := mkAlert {
  id : Value;
  vulnerability : Value;
  package : Value;
  severity : Value;
  patched_in : Value;
  apply_fix_in : Value;
  repo_name : Value
}.

(** A property of an object of the server's JSON: absent, or there with
    a value. *)
Inductive Property := Absent | Own (v : Value).

(** An element of the alerts array that is an object. *)
Record RawAlert := mkRawAlert {
  raw_id : Property;
  raw_vulnerability : Property;
  raw_package : Property;
  raw_severity : Property;
  raw_patched_in : Property;
  raw_apply_fix_in : Property;
  raw_repo_name : Property
}.

(** [raw.p] *)
Definition read (p : Property) : Value :=
  match p with Absent => Falsy | Own v => v end.

(** [{p: d, ...raw}.p]: an own property of [raw] replaces the default,
    whatever its value. *)
Definition spread_over (d : Value) (p : Property) : Value :=
  match p with Absent => d | Own v => v end.

(** [{p: raw.p || d, ...raw}.p] *)
Definition defaulted (p : Property) (d : string) : Value :=
  spread_over (or_default (read p) d) p.

(** [Object.values(SEVERITY_LEVELS).includes(severity)] *)
Definition is_level (severity : Value) : bool :=
  match severity with
  | Text s => existsb (String.eqb s) APP_CONSTANTS.SEVERITY_LEVELS
  | _ => false
  end.

(** [_processAlert(alert)]; [None] is a value that is no object, [id]
    what [generateId] returns. *)
Definition _processAlert (alert : option RawAlert) (id : string)
  : Js.Error + Alert :=
  match alert with
  | None => inl (Js.new_Error "Invalid alert data")
  | Some raw =>
      let severity := defaulted (raw_severity raw) "low" in
      inr {| id := spread_over (Text id) (raw_id raw);
             vulnerability :=
               Text (truncateText
                       (defaulted (raw_vulnerability raw) "Unknown vulnerability")
                       APP_CONSTANTS.MAX_VULNERABILITY_TITLE_LENGTH);
             package := defaulted (raw_package raw) "Unknown package";
             severity := if is_level severity then severity else Text "low";
             patched_in := defaulted (raw_patched_in raw) "N/A";
             apply_fix_in := defaulted (raw_apply_fix_in raw) "Unknown file";
             repo_name := spread_over Falsy (raw_repo_name raw) |}
  end.

(** The body of the request for assistance. *)
Record Request := mkRequest {
  req_vulnerability : string;
  req_package : string;
  req_severity : Value;
  req_patched_in : Value;
  req_apply_fix_in : Value;
  req_repo_name : Value;
  req_created_at : Z
}.

(** [requiredFields.filter(field => !alertData[field])] *)
Definition missingFields (a : Alert) : list string :=
  map fst (List.filter (fun f => negb (truthy f.2))
             [("vulnerability", vulnerability a); ("package", package a);
              ("severity", severity a)]).

(** [_validateAlertData(alertData)] at the time [now]. *)
Definition _validateAlertData (a : Alert) (now : Z) : Js.Error + Request :=
  match missingFields a with
  | [] =>
      inr {| req_vulnerability := escapeHtml (vulnerability a);
             req_package := escapeHtml (package a);
             req_severity := severity a;
             req_patched_in := or_default (patched_in a) "N/A";
             req_apply_fix_in := or_default (apply_fix_in a) "Unknown file";
             req_repo_name := or_default (repo_name a) "Unknown repository";
             req_created_at := now |}
  | missing =>
      inl (Js.new_Error ("Missing required fields: " +:+ Js.join ", " missing))
  end.

End Dynamic.

(** * Vocabulary of the statements *)

(** ** Sample data *)

Definition alert_of (k : string) : Alert :=
  {| id := Some k; vulnerability := Some "Prototype Pollution";
     package := Some "lodash"; severity := Some "high";
     patched_in := None; apply_fix_in := None; repo_name := None |}.

Definition reader_0 : Reader := {| reader_id := 0; abort := NoAbort |}.

Definition response_200 : Response :=
  {| ok := true; status := 200; statusText := "OK"; body := Some reader_0 |}.

Definition response_429 : Response :=
  {| ok := false; status := 429; statusText := "Too Many Requests"; body := None |}.

Definition connection_lost : Js.Error :=
  {| Js.name := "TypeError"; Js.message := "network error";
     Js.status := None; Js.statusText := None |}.

(** What [fetch] rejects with when no response comes. *)
Definition failed_fetch : Js.Error :=
  {| Js.name := "TypeError"; Js.message := "Failed to fetch";
     Js.status := None; Js.statusText := None |}.

Definition cb : Callbacks := all_callbacks.

Definition two_chunks : list string :=
  ["Analyzing..."; " Recommend upgrading to 4.17.21"].

(** A call that receives a response, two chunks and the end of the
    stream. *)
Definition two_chunk_session : list (Stimulus * Z) :=
  [(PostResolved response_200, 1100);
   (ReadChunk "Analyzing...", 1200);
   (ReadChunk " Recommend upgrading to 4.17.21", 1300);
   (ReadDone, 1400)].

Definition alert_without_id : Alert :=
  {| id := None; vulnerability := Some "Prototype Pollution";
     package := Some "lodash"; severity := Some "high";
     patched_in := None; apply_fix_in := None; repo_name := None |}.

Definition alert_without_severity : Alert :=
  {| id := Some "a2"; vulnerability := Some "Prototype Pollution";
     package := Some "lodash"; severity := None;
     patched_in := None; apply_fix_in := None; repo_name := None |}.

Definition streaming_service : AIService.t :=
  {| AIService.isStreaming := true; AIService.currentStream := Some reader_0 |}.

(** A reader that has an [abort] method, and a service that holds it. *)
Definition reader_1 : Reader := {| reader_id := 1; abort := AbortReturns |}.

Definition aborting_service : AIService.t :=
  {| AIService.isStreaming := true; AIService.currentStream := Some reader_1 |}.

Definition hour_ms : Z := 60 * 60 * 1000.

Definition storage_with (cache : gmap string CacheEntry) : LocalStorage.t :=
  {| LocalStorage.usable := true;
     LocalStorage.ai_responses := Some cache;
     LocalStorage.selected_repository := None |}.

Definition empty_storage : LocalStorage.t :=
  {| LocalStorage.usable := true; LocalStorage.ai_responses := None;
     LocalStorage.selected_repository := None |}.

Definition cached_text : string := "Analyzing... Recommend upgrading to 4.17.21".

Definition cached_storage : LocalStorage.t :=
  storage_with {[ "a1" := {| response := cached_text; timestamp := 1400 |} ]}.

(** ** Errors *)

(** The message [_handleApiError] starts from: the body's [error] when it
    is truthy, the generic message otherwise. *)
Definition raw_or_default (j : JsonOutcome) : string :=
  match j with
  | JsonError e => Js.or_default (Some e) APP_CONSTANTS.AI_SERVICE_ERROR
  | JsonNoError => APP_CONSTANTS.AI_SERVICE_ERROR
  end.

(** The error [_validateAlertData] throws for [a]. *)
Definition missing_fields_error (a : Alert) : Js.Error :=
  Js.new_Error ("Missing required fields: "
                +:+ Js.join ", " (AIService.missingFields a)).

(** ** The stream *)

(** The values [buffer] takes as the chunks arrive ([buffer += chunk]). *)
Fixpoint buffers (buffer : string) (chunks : list string) : list string :=
  match chunks with
  | [] => []
  | chunk :: chunks => (buffer +:+ chunk) :: buffers (buffer +:+ chunk) chunks
  end.

Definition accumulated (buffer : string) (chunks : list string) : string :=
  fold_left String.append chunks buffer.

(** The [onData] calls for the buffers [bs]. *)
Definition partials (cbs : Callbacks) (bs : list string) : list Effect :=
  flat_map (λ b, call (onData cbs) (OnData b)) bs.

Definition is_OnComplete (e : Effect) : bool :=
  match e with OnComplete _ => true | _ => false end.

(** A callback other than [onComplete]. *)
Definition quiet (e : Effect) : bool := is_callback e && negb (is_OnComplete e).

(** What the callbacks of a call that stands at [pc] can have received
    after its [onData] calls: nothing while it is in flight or when it was
    turned away before the [try] block, the completion, or its error, once
    or twice. *)
Definition terminal_part (pc : Pc) (ts : list Effect) : Prop :=
  match pc with
  | Settled None => ∃ b, ts = [OnComplete b]
  | Settled (Some e) => ts = [] ∨ ts = [OnError e] ∨ ts = [OnError e; OnError e]
  | _ => ts = []
  end.

(** ** Calls in flight *)

Definition live_count (ss : list (Callbacks * Pc)) : nat :=
  length (List.filter (λ s, in_flight s.2) ss).

(** The flag tells whether a call is in flight, and there is at most one. *)
Definition flag_tracks_calls (sys : System.t) : Prop :=
  live_count (System.sessions sys)
  = if AIService.isStreaming (System.service sys) then 1%nat else 0%nat.

(** ** The application *)

(** The promises awaited by call [i] settle as [script] says, at the
    given times. *)
Definition settles (i : nat) (script : list (Stimulus * Z))
  : list DependabotApp.Action :=
  map (λ st, DependabotApp.Settle i st.1 st.2) script.

(** The chunk that a settlement brings. *)
Definition chunk_of (s : Stimulus) : list string :=
  match s with ReadChunk c => [c] | _ => [] end.

(** The chunks that a script brings, in order. *)
Definition chunks_of (script : list (Stimulus * Z)) : list string :=
  flat_map (λ st, chunk_of st.1) script.

(** The text of all the chunks of a script. *)
Definition received (script : list (Stimulus * Z)) : string :=
  accumulated "" (chunks_of script).

(** The time of the last settlement of a script. *)
Definition end_time (script : list (Stimulus * Z)) : Z :=
  default 0 (snd <$> last script).

(** The text a call has received when it stands at [pc]. *)
Definition buffer_of (pc : Pc) : string :=
  match pc with AwaitRead _ buffer => buffer | _ => "" end.

(** The alert after [alert.repo_name = selectedRepo.full_name]. *)
Definition with_repo_name (alert : Alert) (ls : LocalStorage.t) : Alert :=
  match LocalStorage.get_selected_repository ls with
  | Some full_name =>
      {| id := id alert; vulnerability := vulnerability alert;
         package := package alert; severity := severity alert;
         patched_in := patched_in alert; apply_fix_in := apply_fix_in alert;
         repo_name := full_name |}
  | None => alert
  end.

(** ** Helpers *)

(** The characters of a string. *)
Definition chars (s : string) : list ascii := String.list_ascii_of_string s.

(** The characters that [escapeHtml] replaces. *)
Definition is_html_special (c : ascii) : bool :=
  Ascii.eqb c "&" || Ascii.eqb c "<" || Ascii.eqb c ">"
  || Ascii.eqb c "034" || Ascii.eqb c "'".

(** The characters of an organization name. *)
Definition name_char (c : ascii) : bool :=
  AppHelpers.is_alnum c || AppHelpers.is_hyphen c.

(** The entries that count for [getHighestSeverity]: a known severity
    with a positive count. *)
Definition counted (entries : list (string * Z)) (severity : string) (v : Z) : Prop :=
  ∃ count, (severity, count) ∈ entries ∧ 0 < count
           ∧ APP_CONSTANTS.SEVERITY_ORDER severity = Some v.

(** What the loop of [getHighestSeverity] keeps true of the entries it
    has seen. *)
Definition highest_inv (seen : list (string * Z)) (acc : string * Z) : Prop :=
  (∀ k v, counted seen k v → v ≤ acc.2)
  ∧ ((acc.1 = "low" ∧ acc.2 = 0) ∨ counted seen acc.1 acc.2).

(** A severity that names no property inherited from [Object.prototype]:
    its rank is a number. *)
Definition plain (severity : option string) : Prop :=
  ∀ s, severity = Some s → s ∉ AppHelpers.Object_prototype.

(** The rank of a plain severity. *)
Definition rank_of (severity : option string) : Z :=
  default 0 (AppHelpers.severity_rank severity).

Definition repo_rank (r : Repo) : Z := rank_of (repo_severity r).

(** The elements of a list with a given key, in their order. *)
Definition keyed {A : Type} (f : A → Z) (k : Z) (l : list A) : list A :=
  List.filter (λ a, f a =? k) l.

(** ** The API service *)

(** The calls in flight. *)
Definition api_live (cs : list GitHubApiService.Call) : nat :=
  length (List.filter GitHubApiService.in_flight cs).

(** The flag tells whether a call is in flight, and there is at most one. *)
Definition loading_tracks_calls (sys : Api.t) : Prop :=
  api_live (Api.calls sys)
  = if GitHubApiService.isLoading (Api.service sys) then 1%nat else 0%nat.

(** An alert as the cards expect it. *)
Definition well_formed_alert (a : Alert) : Prop :=
  GitHubApiService.is_level (severity a) = true
  ∧ ∃ v, vulnerability a = Some v ∧ (String.length v ≤ 83)%nat.

Definition well_formed_result (r : GitHubApiService.Result) : Prop :=
  match r with
  | GitHubApiService.Repositories data =>
      Forall (λ r, plain (repo_severity r)) (GitHubApiService.repos data) →
      Sorted (λ a b, repo_rank b ≤ repo_rank a) (GitHubApiService.repos data)
  | GitHubApiService.Alerts alerts => Forall well_formed_alert alerts
  end.

(** An error made by [new Error(message)] with a message to show. *)
Definition plain_error (e : Js.Error) : Prop :=
  Js.name e = "Error" ∧ Js.message e ≠ "" ∧ Js.status e = None.

Definition settled_well (c : GitHubApiService.Call) : Prop :=
  match c with
  | GitHubApiService.Returned (inl e) => plain_error e
  | GitHubApiService.Returned (inr r) => well_formed_result r
  | _ => True
  end.

(** A text without the characters that open or close a tag or end an
    attribute value. *)
Definition markup_free (s : string) : Prop :=
  Forall (λ c, c ≠ "<"%char ∧ c ≠ ">"%char ∧ c ≠ "034"%char ∧ c ≠ "'"%char)
    (chars s).

(** The texts among the values of any type. *)
Definition of_text (o : option string) : Dynamic.Value :=
  match o with Some s => Dynamic.Text s | None => Dynamic.Falsy end.

Definition of_alert (a : Alert) : Dynamic.Alert :=
  {| Dynamic.id := of_text (id a);
     Dynamic.vulnerability := of_text (vulnerability a);
     Dynamic.package := of_text (package a);
     Dynamic.severity := of_text (severity a);
     Dynamic.patched_in := of_text (patched_in a);
     Dynamic.apply_fix_in := of_text (apply_fix_in a);
     Dynamic.repo_name := of_text (repo_name a) |}.

Definition of_request (r : Request) : Dynamic.Request :=
  {| Dynamic.req_vulnerability := req_vulnerability r;
     Dynamic.req_package := req_package r;
     Dynamic.req_severity := Dynamic.Text (req_severity r);
     Dynamic.req_patched_in := Dynamic.Text (req_patched_in r);
     Dynamic.req_apply_fix_in := Dynamic.Text (req_apply_fix_in r);
     Dynamic.req_repo_name := Dynamic.Text (req_repo_name r);
     Dynamic.req_created_at := req_created_at r |}.

Definition of_field (f : RawField) : Dynamic.Property :=
  match f with
  | Absent => Dynamic.Absent
  | Null => Dynamic.Own Dynamic.Falsy
  | Str s => Dynamic.Own (Dynamic.Text s)
  end.

Definition of_raw (raw : RawAlert) : Dynamic.RawAlert :=
  {| Dynamic.raw_id := of_field (raw_id raw);
     Dynamic.raw_vulnerability := of_field (raw_vulnerability raw);
     Dynamic.raw_package := of_field (raw_package raw);
     Dynamic.raw_severity := of_field (raw_severity raw);
     Dynamic.raw_patched_in := of_field (raw_patched_in raw);
     Dynamic.raw_apply_fix_in := of_field (raw_apply_fix_in raw);
     Dynamic.raw_repo_name := of_field (raw_repo_name raw) |}.

(** A property whose value [_processAlert] leaves as a text that is not
    empty: absent, or such a text itself. *)
Definition absent_or_text (p : Dynamic.Property) : Prop :=
  p = Dynamic.Absent ∨ ∃ s, p = Dynamic.Own (Dynamic.Text s) ∧ s ≠ "".

(** A property that [_processAlert] leaves truthy: absent, or truthy
    itself. *)
Definition absent_or_truthy (p : Dynamic.Property) : Prop :=
  p = Dynamic.Absent ∨ ∃ v, p = Dynamic.Own v ∧ Dynamic.truthy v = true.



(** ** The summary *)

Definition nonneg_summary (s : Summary) : Prop :=
  0 ≤ repos_found s ∧ 0 ≤ sum_critical s ∧ 0 ≤ sum_high s
  ∧ 0 ≤ sum_medium s ∧ 0 ≤ sum_low s.

(** The component after a series of calls from outside. *)
Definition summary_after (actions : list SummaryComponent.Action)
  : SummaryComponent.t :=
  fold_left SummaryComponent.step actions SummaryComponent.init.

(** ** The alerts of the cards *)

(** The key that [sortBySeverity] sorts by. *)
Definition severity_key (descending : bool) (a : Alert) : Z :=
  if descending then - rank_of (severity a) else rank_of (severity a).

(** ** Notifications *)

Definition shown_ids (ns : list Notification) : list string := map n_id ns.

(** ** The card's callback *)

Definition is_CardCallback (e : Effect) : bool :=
  match e with CardCallback _ => true | _ => false end.

Definition is_AssistRequest (a : DependabotApp.Action) : bool :=
  match a with DependabotApp.AssistRequest _ _ => true | _ => false end.

(** The calls of the card's callback so far. *)
Definition card_callbacks (app : DependabotApp.t) : list Effect :=
  List.filter is_CardCallback (DependabotApp.log app).

(** Whether call [i] is still in flight. *)
Definition still_running (ss : list (Callbacks * Pc)) (i : nat) : bool :=
  match ss !! i with
  | Some s => in_flight s.2
  | None => false
  end.

(** The requests whose call [handleAIAssistRequest] is still awaiting. *)
Definition pending_of (ss : list (Callbacks * Pc)) (aw : list nat) : nat :=
  length (List.filter (still_running ss) aw).

Definition pending (app : DependabotApp.t) : nat :=
  pending_of (System.sessions (DependabotApp.sys app)) (DependabotApp.awaiting app).

(** The awaited calls are calls that were made, each listed once. *)
Definition awaiting_ok (app : DependabotApp.t) : Prop :=
  NoDup (DependabotApp.awaiting app)
  ∧ ∀ i, i ∈ DependabotApp.awaiting app →
         (i < length (System.sessions (DependabotApp.sys app)))%nat.

(** What the card's callback is called with. *)
Definition card_answer (e : Effect) : Prop :=
  e = CardCallback None
  ∨ e = CardCallback (Some (Js.new_Error "No alert provided")).

(** The bookkeeping that one step keeps: the awaited calls are in order,
    the answers are of the two kinds, and answers and pending requests
    together grow by one with every request. *)
Definition accounted (n : nat) (app : DependabotApp.t) : Prop :=
  awaiting_ok app
  ∧ Forall card_answer (card_callbacks app)
  ∧ (length (card_callbacks app) + pending app = n)%nat.

(** ** Requests *)

(** A request that the API service may send. *)
Definition valid_fetch (f : GitHubApiService.Fetch) : Prop :=
  match f with
  | GitHubApiService.GetSearch organization query =>
      AppHelpers.isValidGitHubOrg (Some organization) = true ∧ query ≠ ""
  | GitHubApiService.PostAlerts repo => Js.includes repo "/" = true
  end.

(** ** Sample data of the API service *)

Definition sample_ids (i : nat) : string := "id_" +:+ pretty i.

Definition raw_alert_sample : RawAlert :=
  {| raw_id := Absent;
     raw_vulnerability := Str "Prototype Pollution in lodash";
     raw_package := Str "lodash";
     raw_severity := Str "high";
     raw_patched_in := Str "4.17.21";
     raw_apply_fix_in := Absent;
     raw_repo_name := Absent |}.

Definition repo_docs : Repo :=
  {| full_name := Some "github/docs"; repo_severity := Some "low";
     counts := None |}.

Definition repo_dash : Repo :=
  {| full_name := Some "github/dash"; repo_severity := Some "critical";
     counts := Some {| critical := Some 2; high := None; medium := None;
                       low := None |} |}.

(** An alert whose package came as a number. *)
Definition raw_alert_numbered : Dynamic.RawAlert :=
  {| Dynamic.raw_id := Dynamic.Absent;
     Dynamic.raw_vulnerability := Dynamic.Own (Dynamic.Text "Prototype Pollution");
     Dynamic.raw_package := Dynamic.Own Dynamic.Truthy;
     Dynamic.raw_severity := Dynamic.Own (Dynamic.Text "high");
     Dynamic.raw_patched_in := Dynamic.Absent;
     Dynamic.raw_apply_fix_in := Dynamic.Absent;
     Dynamic.raw_repo_name := Dynamic.Absent |}.

Definition alert_numbered : Dynamic.Alert :=
  {| Dynamic.id := Dynamic.Text "alert-0";
     Dynamic.vulnerability := Dynamic.Text "Prototype Pollution";
     Dynamic.package := Dynamic.Truthy;
     Dynamic.severity := Dynamic.Text "high";
     Dynamic.patched_in := Dynamic.Text "N/A";
     Dynamic.apply_fix_in := Dynamic.Text "Unknown file";
     Dynamic.repo_name := Dynamic.Falsy |}.

(** A search, a load of alerts that comes while the search is under way,
    the end of the search, and a load of alerts after it. *)
Definition api_day : list Api.Action :=
  [Api.SearchRepositories (Some "github") (Some "dash");
   Api.LoadSecurityAlerts (Some "github/dash") sample_ids;
   Api.Settle 0 (GitHubApiService.FetchResolved response_200);
   Api.Settle 0 (GitHubApiService.Body
                   (JsonObject (Some [repo_docs; repo_dash]) None)
                   AppHelpers.as_it_is);
   Api.LoadSecurityAlerts (Some "github/dash") sample_ids;
   Api.Settle 2 (GitHubApiService.FetchResolved response_200);
   Api.Settle 2 (GitHubApiService.Body (JsonArray [Some raw_alert_sample])
                   AppHelpers.as_it_is)].

(** A request for assistance, and a search, whose fetch fails. *)
Definition failed_assistance : list DependabotApp.Action :=
  [DependabotApp.AssistRequest (Some (alert_of "a1")) 1000;
   DependabotApp.Settle 0 (PostRejected failed_fetch) 1100].

Definition failed_search : list Api.Action :=
  [Api.SearchRepositories (Some "github") (Some "dash");
   Api.Settle 0 (GitHubApiService.FetchRejected failed_fetch)].

(** A request for the alert a1 whose modal is closed during the stream, a
    request for the alert a2, and the end of the first stream. *)
Definition reopened_before_the_end : list DependabotApp.Action :=
  [DependabotApp.AssistRequest (Some (alert_of "a1")) 1000;
   DependabotApp.Settle 0 (PostResolved response_200) 1100;
   DependabotApp.Settle 0 (ReadChunk "Upgrade lodash.") 1200;
   DependabotApp.CloseModal;
   DependabotApp.AssistRequest (Some (alert_of "a2")) 1300].

(** Two requests for assistance, the second while the first is under
    way, and the end of the first. *)
Definition assistance_day : list DependabotApp.Action :=
  [DependabotApp.AssistRequest (Some (alert_of "a1")) 1000;
   DependabotApp.AssistRequest None 1050;
   DependabotApp.Settle 0 (PostResolved response_200) 1100;
   DependabotApp.Settle 0 ReadDone 1400].

(** A second call while the first waits for its response. *)
Definition two_calls : list System.Action :=
  [System.Start (Some (alert_of "a1")) cb 0;
   System.Start (Some (alert_of "a2")) cb 1;
   System.Settle 0 (PostResolved response_200)].

(** * Properties *)


(** Case analysis on the tests a step of a call makes. *)
Ltac split_branches H :=
  repeat match type of H with
         | context [if ?b then _ else _] => destruct b
         | context [match body ?r with _ => _ end] => destruct (body r)
         end.

(** ** Strings *)

Section Strings.

Lemma starts_with_spec (needle s : string) :
  Js.starts_with needle s = true ↔ ∃ post, s = needle +:+ post.
Proof.
  revert s. induction needle as [|a needle IH]; intros s; simpl.
  - split; [intros _; exists s; reflexivity | reflexivity].
  - destruct s as [|b s].
    + split; [discriminate | intros (post & [=])].
    + rewrite andb_true_iff, Ascii.eqb_eq, IH. split.
      * intros (-> & post & ->). exists post. reflexivity.
      * intros (post & [= -> ->]). eauto.
Qed.

(** [includes] finds exactly the substrings. *)
Lemma includes_spec (s needle : string) :
  Js.includes s needle = true ↔ ∃ pre post, s = pre +:+ needle +:+ post.
Proof.
  induction s as [|b s IH]; simpl; rewrite orb_true_iff, starts_with_spec.
  - split.
    + intros [(post & H)|[=]]. exists "", post. exact H.
    + intros (pre & post & H). left.
      destruct pre; simpl in H; [eauto | discriminate].
  - rewrite IH. split.
    + intros [(post & H)|(pre & post & ->)].
      * exists "", post. exact H.
      * exists (String b pre), post. reflexivity.
    + intros (pre & post & H). destruct pre as [|c pre]; simpl in H.
      * left. eauto.
      * injection H as -> ->. right. eauto.
Qed.

Lemma starts_with_includes (x y s : string) :
  Js.starts_with (x +:+ y) s = true → Js.includes s y = true.
Proof.
  revert s. induction x as [|a x IH]; intros s H.
  - change (Js.starts_with y s = true) in H.
    destruct s; simpl; rewrite H; reflexivity.
  - destruct s as [|b s]; simpl in H; [discriminate|].
    apply andb_true_iff in H as [_ H]. apply IH in H.
    simpl. rewrite H. apply orb_true_r.
Qed.

Lemma includes_suffix (x y s : string) :
  Js.includes s (x +:+ y) = true → Js.includes s y = true.
Proof.
  induction s as [|b s IH]; simpl; intros H.
  - apply orb_true_iff in H as [H|H]; [|discriminate].
    apply (starts_with_includes x y ""), H.
  - apply orb_true_iff in H as [H|H].
    + apply (starts_with_includes x y (String b s)), H.
    + rewrite (IH H). apply orb_true_r.
Qed.

(** The first test of the completion check is subsumed by the second. *)
Lemma completion_marker_Done (buffer : string) :
  AIService.completion_marker buffer = Js.includes buffer "Done".
Proof.
  unfold AIService.completion_marker.
  destruct (Js.includes buffer "✅ Done") eqn:E; [|reflexivity].
  simpl. symmetry. exact (includes_suffix "✅ " "Done" buffer E).
Qed.

Lemma truthy_Some (o : option string) :
  Js.truthy o = true ↔ ∃ s, o = Some s ∧ s ≠ "".
Proof.
  destruct o as [s|]; simpl.
  - rewrite negb_true_iff, String.eqb_neq. split.
    + intros H. exists s. auto.
    + intros (s' & [= <-] & H). exact H.
  - split; [discriminate | intros (s & [=] & _)].
Qed.

End Strings.

(** ** Transport-failure classification *)

Section Classification.

(** C4. A fetch that fails (no response at all: the promise of [http.post]
    rejects with the engine's [TypeError]) is not classified by the
    assistance service. The [catch] of [streamFixSuggestion] hands the
    error as it is to [onError] and rethrows it, whatever the error, and
    the modal shows the engine's message. [getErrorMessage] makes the
    network message of the same error, and the API service, which applies
    it in its own [catch], rejects with that message. *)
Theorem failed_fetch_is_not_classified :
  (∀ svc cbs e,
     AIService.resume svc cbs AwaitPost (PostRejected e)
     = Some (AIService.idle, Settled (Some e), call (onError cbs) (OnError e)))
  ∧ (∃ svc es,
       session AIService.idle (Some (alert_of "a1")) all_callbacks 0
         [PostRejected failed_fetch]
       = (svc, Settled (Some failed_fetch), es, [])
       ∧ List.filter is_callback es = [OnError failed_fetch])
  ∧ Js.message failed_fetch ≠ APP_CONSTANTS.NETWORK_ERROR
  ∧ AppHelpers.getErrorMessage (Some failed_fetch) = APP_CONSTANTS.NETWORK_ERROR
  ∧ (∃ app,
       DependabotApp.run (DependabotApp.init empty_storage) failed_assistance
       = Some app
       ∧ AIAssistModalComponent.modalContent (DependabotApp.modal app)
         = AIAssistModalComponent.ErrorState "Failed to fetch")
  ∧ ∃ sys,
      Api.run Api.init failed_search = Some sys
      ∧ Api.calls sys !! 0%nat
        = Some (GitHubApiService.Returned
                  (inl (Js.new_Error APP_CONSTANTS.NETWORK_ERROR))).
Proof.
  split; [reflexivity|].
  split; [eexists _, _; vm_compute; split; reflexivity|].
  split; [discriminate|].
  split; [reflexivity|].
  split; eexists; vm_compute; split; reflexivity.
Qed.

End Classification.

(** ** The response cache *)

Section Cache.

Lemma getCachedResponse_Some (ls : LocalStorage.t) (alertId : option string)
    (now : Z) (text : string) :
  AIService.getCachedResponse ls alertId now = Some text ↔
  ∃ k cached,
    alertId = Some k ∧ k ≠ ""
    ∧ LocalStorage.get_ai_responses ls !! k = Some cached
    ∧ response cached = text ∧ text ≠ ""
    ∧ now - timestamp cached < AIService.retention_ms.
Proof.
  unfold AIService.getCachedResponse. split.
  - destruct alertId as [k|]; [|discriminate].
    destruct (String.eqb k "") eqn:Ek; [discriminate|].
    destruct (LocalStorage.get_ai_responses ls !! k) as [cached|] eqn:El;
      [|discriminate].
    destruct (String.eqb (response cached) "") eqn:Er; [discriminate|].
    destruct (now - timestamp cached <? AIService.retention_ms) eqn:Ev;
      [|discriminate].
    intros [= <-]. exists k, cached.
    apply String.eqb_neq in Ek, Er. apply Z.ltb_lt in Ev. auto 10.
  - intros (k & cached & -> & Hk & Hl & <- & Ht & Hv).
    apply String.eqb_neq in Hk, Ht. apply Z.ltb_lt in Hv.
    rewrite Hk, Hl, Ht, Hv. reflexivity.
Qed.

(** What [cacheResponse] wrote is what [getCachedResponse] reads, for
    less than 24 hours. *)
Lemma cached_text_is_read_back (ls : LocalStorage.t) (k text : string)
    (now later : Z) :
  LocalStorage.usable ls = true →
  k ≠ "" → k ≠ "__proto__" → text ≠ "" →
  later - now < 24 * hour_ms →
  AIService.getCachedResponse
    (AIService.cacheResponse ls (Some k) text now).1 (Some k) later = Some text.
Proof.
  intros Hu Hk Hp Ht Hl. apply getCachedResponse_Some.
  exists k, {| response := text; timestamp := now |}.
  apply String.eqb_neq in Hp. pose proof Hk as Hk'. pose proof Ht as Ht'.
  apply String.eqb_neq in Hk', Ht'.
  unfold AIService.cacheResponse. rewrite Hk', Ht'. simpl.
  unfold LocalStorage.set_ai_responses, LocalStorage.get_ai_responses,
    LocalStorage.assign.
  rewrite Hu, Hp. simpl. rewrite lookup_insert_eq.
  repeat split; auto.
Qed.

(** C6, as amended. [getCachedResponse] returns a text exactly when the
    id is non-empty and the stored object has, under that id, an entry
    with that text, the text non-empty, whose age is strictly below 24
    hours; an entry stored 25 hours ago reads as absent. Reading does not
    change the storage (the function has no storage result). *)
Theorem getCachedResponse_fresh (ls : LocalStorage.t) (alertId : option string)
    (now : Z) :
  (∀ text,
     AIService.getCachedResponse ls alertId now = Some text ↔
     ∃ k cached,
       alertId = Some k ∧ k ≠ ""
       ∧ LocalStorage.get_ai_responses ls !! k = Some cached
       ∧ response cached = text ∧ text ≠ ""
       ∧ now - timestamp cached < 24 * hour_ms)
  ∧ (∀ k cached,
       alertId = Some k
       → LocalStorage.get_ai_responses ls !! k = Some cached
       → timestamp cached = now - 25 * hour_ms
       → AIService.getCachedResponse ls alertId now = None).
Proof.
  split.
  - intros text. apply getCachedResponse_Some.
  - intros k cached -> Hl Ht.
    destruct (AIService.getCachedResponse ls (Some k) now) as [text|] eqn:E;
      [|reflexivity].
    apply getCachedResponse_Some in E
      as (k' & cached' & [= <-] & _ & Hl' & _ & _ & Hv).
    rewrite Hl in Hl'. injection Hl' as <-.
    unfold AIService.retention_ms, hour_ms in *. lia.
Qed.

(** C6 as stated fails on the boundary: an entry whose age is exactly 24
    hours does not exceed the window, and is not returned. *)
Lemma getCachedResponse_at_24h :
  ¬ (∀ (ls : LocalStorage.t) (k : string) (now : Z) (text : string),
       AIService.getCachedResponse ls (Some k) now = Some text ↔
       ∃ cached,
         LocalStorage.get_ai_responses ls !! k = Some cached
         ∧ response cached = text
         ∧ now - timestamp cached <= 24 * hour_ms).
Proof.
  intros H.
  pose (entry := {| response := "Upgrade lodash to 4.17.21"; timestamp := 0 |}).
  specialize (H (storage_with {[ "a1" := entry ]}) "a1" (24 * hour_ms)
                "Upgrade lodash to 4.17.21").
  destruct H as [_ H].
  assert (AIService.getCachedResponse (storage_with {[ "a1" := entry ]})
            (Some "a1") (24 * hour_ms) = None) as E by (vm_compute; reflexivity).
  rewrite E in H. discriminate H.
  exists entry. split; [reflexivity|]. split; [reflexivity|].
  vm_compute. discriminate.
Qed.

End Cache.

(** ** One call of streamFixSuggestion *)

Section Call.

Implicit Types (svc : AIService.t) (cbs : Callbacks) (a : Alert).

Lemma missingFields_nil a :
  AIService.missingFields a = [] ↔
  Js.truthy (vulnerability a) = true ∧ Js.truthy (package a) = true
  ∧ Js.truthy (severity a) = true.
Proof.
  unfold AIService.missingFields, AIService.required_fields.
  destruct (Js.truthy (vulnerability a)) eqn:E1,
           (Js.truthy (package a)) eqn:E2,
           (Js.truthy (severity a)) eqn:E3;
    cbn; rewrite ?E1, ?E2, ?E3; cbn; intuition congruence.
Qed.

Lemma validate_missing a now :
  AIService.missingFields a ≠ [] →
  AIService._validateAlertData a now = inl (missing_fields_error a).
Proof.
  unfold AIService._validateAlertData, missing_fields_error.
  destruct (AIService.missingFields a); [congruence | reflexivity].
Qed.

Lemma validate_ok a now :
  AIService.missingFields a = [] →
  ∃ req, AIService._validateAlertData a now = inr req.
Proof.
  unfold AIService._validateAlertData. intros ->. eexists. reflexivity.
Qed.

Lemma no_NetPost_call (present : bool) (e : Effect) :
  is_NetPost e = false → List.filter is_NetPost (call present e) = [].
Proof.
  intros H. destruct present; simpl; [|reflexivity]. rewrite H. reflexivity.
Qed.

(** C8. An alert that lacks a truthy [vulnerability], [package] or
    [severity] never reaches the network: the call issues no request and
    is over at once (it awaits nothing). On a service that is not already
    streaming it is rejected with the missing-fields error, which is also
    handed to [onError], and the service is left idle. *)
Theorem missing_fields_never_reach_network svc a cbs now :
  Js.truthy (vulnerability a) = false ∨ Js.truthy (package a) = false
  ∨ Js.truthy (severity a) = false →
  let '(svc', pc, es) := AIService.streamFixSuggestion svc (Some a) cbs now in
  List.filter is_NetPost es = []
  ∧ in_flight pc = false
  ∧ (AIService.isStreaming svc = false →
     pc = Settled (Some (missing_fields_error a))
     ∧ es = call (onError cbs) (OnError (missing_fields_error a))
     ∧ svc' = AIService.idle).
Proof.
  intros H.
  assert (AIService.missingFields a ≠ []) as Hm.
  { rewrite missingFields_nil. intros (H1 & H2 & H3).
    destruct H as [H|[H|H]]; congruence. }
  unfold AIService.streamFixSuggestion.
  destruct (AIService.isStreaming svc).
  - split; [reflexivity|]. split; [reflexivity|]. discriminate.
  - rewrite (validate_missing a now Hm). unfold AIService.catch_finally. simpl.
    split; [apply no_NetPost_call; reflexivity|].
    split; [reflexivity|]. intros _. auto.
Qed.

(** A request goes out only after validation has succeeded. *)
Lemma NetPost_only_if_valid svc alertData cbs now e :
  e ∈ (AIService.streamFixSuggestion svc alertData cbs now).2 →
  is_NetPost e = true →
  ∃ a, alertData = Some a ∧ AIService.missingFields a = []
       ∧ AIService.isStreaming svc = false.
Proof.
  unfold AIService.streamFixSuggestion.
  destruct (AIService.isStreaming svc); simpl; [intros H; inversion H|].
  destruct alertData as [a|]; simpl; [|intros H; inversion H].
  destruct (AIService.missingFields a) as [|f fs] eqn:Em.
  - intros _ _. exists a. auto.
  - rewrite validate_missing by (rewrite Em; discriminate).
    unfold AIService.catch_finally; simpl.
    destruct (onError cbs); simpl; intros H; inversion H; subst;
      try discriminate.
    match goal with H : _ ∈ [] |- _ => inversion H end.
Qed.

(** Every step that ends a call goes through the [finally] block. *)
Lemma resume_settled svc cbs pc s svc' rejection es :
  AIService.resume svc cbs pc s = Some (svc', Settled rejection, es) →
  svc' = AIService.idle.
Proof.
  unfold AIService.resume, AIService._handleStreamingResponse,
    AIService.catch_finally.
  destruct pc, s; try discriminate; intros H;
    split_branches H;
    congruence.
Qed.

Lemma feed_settled svc cbs pc script :
  in_flight pc = true →
  let '(svc', pc', _, _) := feed svc cbs pc script in
  in_flight pc' = false → svc' = AIService.idle.
Proof.
  revert svc pc. induction script as [|s script IH]; intros svc pc Hpc; simpl.
  - congruence.
  - destruct (AIService.resume svc cbs pc s) as [[[svc1 pc1] es1]|] eqn:E;
      [|congruence].
    destruct (in_flight pc1) eqn:Hpc1.
    + specialize (IH svc1 pc1 Hpc1).
      destruct (feed svc1 cbs pc1 script) as [[[svc2 pc2] es2] rest]. exact IH.
    + destruct pc1; try discriminate.
      apply resume_settled in E as ->.
      destruct script; simpl; auto.
Qed.

Lemma start_not_rejected_when_idle a cbs now :
  (AIService.streamFixSuggestion AIService.idle (Some a) cbs now).1.2
  ≠ Settled (Some AIService.already_in_progress).
Proof.
  unfold AIService.streamFixSuggestion. simpl.
  unfold AIService._validateAlertData.
  destruct (AIService.missingFields a); simpl; discriminate.
Qed.

(** A falsy or non-object argument is turned away before the [try]
    block: nothing is reported and the service is left as it was. *)
Lemma null_alert_leaves_service svc cbs now :
  AIService.isStreaming svc = false →
  AIService.streamFixSuggestion svc None cbs now
  = (svc, Settled (Some AIService.alert_required), []).
Proof. unfold AIService.streamFixSuggestion. intros ->. reflexivity. Qed.

(** C10. However a call that passed the single-flight guard ends (end of
    stream, completion marker, HTTP error, failed fetch, failed read,
    missing fields), the service is idle afterwards: [isStreaming] is
    false and [currentStream] is null, and the guard lets the next call
    through. *)
Theorem service_idle_after_call svc a cbs now script :
  AIService.isStreaming svc = false →
  let '(svc', pc, _, _) := session svc (Some a) cbs now script in
  in_flight pc = false →
  AIService.isStreaming svc' = false
  ∧ AIService.currentStream svc' = None
  ∧ ∀ a2 cbs2 now2,
      (AIService.streamFixSuggestion svc' (Some a2) cbs2 now2).1.2
      ≠ Settled (Some AIService.already_in_progress).
Proof.
  intros Hs. unfold session.
  destruct (AIService.streamFixSuggestion svc (Some a) cbs now)
    as [[svc1 pc1] es1] eqn:E.
  assert (svc1 = AIService.idle ∧ in_flight pc1 = false
          ∨ in_flight pc1 = true) as Hstart.
  { unfold AIService.streamFixSuggestion in E. rewrite Hs in E.
    destruct (AIService._validateAlertData a now); inversion E; subst; auto. }
  destruct Hstart as [[-> Hpc1]|Hpc1].
  - destruct pc1; try discriminate.
    destruct script; simpl; intros _;
      (split; [reflexivity|]; split; [reflexivity|];
       intros; apply start_not_rejected_when_idle).
  - pose proof (feed_settled svc1 cbs pc1 script Hpc1) as H.
    destruct (feed svc1 cbs pc1 script) as [[[svc2 pc2] es2] rest].
    intros Hpc2. rewrite (H Hpc2).
    split; [reflexivity|]; split; [reflexivity|].
    intros; apply start_not_rejected_when_idle.
Qed.

End Call.

(** ** The reading loop *)

Section ReadingLoop.

Implicit Types (svc : AIService.t) (cbs : Callbacks) (reader : Reader).

Lemma feed_chunks chunks : ∀ svc cbs reader buffer rest,
  Forall (λ b, Js.includes b "Done" = false) (buffers buffer chunks) →
  feed svc cbs (AwaitRead reader buffer) (map ReadChunk chunks ++ rest) =
  let '(svc', pc', es, rest') :=
    feed svc cbs (AwaitRead reader (accumulated buffer chunks)) rest in
  (svc', pc', partials cbs (buffers buffer chunks) ++ es, rest').
Proof.
  induction chunks as [|c chunks IH]; intros svc cbs reader buffer rest H.
  - simpl. destruct (feed _ _ _ rest) as [[[? ?] ?] ?]. reflexivity.
  - apply Forall_cons in H as [Hc H]. simpl.
    rewrite completion_marker_Done, Hc. rewrite (IH _ _ _ _ _ H).
    destruct (feed _ _ _ rest) as [[[? ?] ?] ?].
    rewrite <- app_assoc. reflexivity.
Qed.

Lemma feed_settled_stops svc cbs rejection script :
  feed svc cbs (Settled rejection) script = (svc, Settled rejection, [], script).
Proof. destruct script; reflexivity. Qed.

(** C5. While no buffer so far contains the marker, the call stays
    suspended on the next read. It completes exactly when the next read
    reports end of stream, or delivers a chunk that brings the marker
    ["Done"] into the buffer; it then hands the text accumulated so far to
    [onComplete] and consumes nothing further. *)
Theorem completion_detection svc cbs reader (chunks : list string) :
  Forall (λ b, Js.includes b "Done" = false) (buffers "" chunks) →
  let text := accumulated "" chunks in
  let seen := partials cbs (buffers "" chunks) in
  feed svc cbs (AwaitRead reader "") (map ReadChunk chunks)
    = (svc, AwaitRead reader text, seen, [])
  ∧ (∀ rest,
       feed svc cbs (AwaitRead reader "") (map ReadChunk chunks ++ ReadDone :: rest)
       = (AIService.idle, Settled None,
          seen ++ call (onComplete cbs) (OnComplete text), rest))
  ∧ (∀ c rest,
       Js.includes (text +:+ c) "Done" = true →
       feed svc cbs (AwaitRead reader "")
         (map ReadChunk chunks ++ ReadChunk c :: rest)
       = (AIService.idle, Settled None,
          seen ++ call (onData cbs) (OnData (text +:+ c))
               ++ call (onComplete cbs) (OnComplete (text +:+ c)), rest))
  ∧ (∀ s svc' pc' es,
       AIService.resume svc cbs (AwaitRead reader text) s = Some (svc', pc', es) →
       pc' = Settled None ↔
       s = ReadDone ∨ ∃ c, s = ReadChunk c ∧ Js.includes (text +:+ c) "Done" = true).
Proof.
  intros H text seen. repeat split.
  - rewrite <- (app_nil_r (map ReadChunk chunks)).
    rewrite (feed_chunks _ _ _ _ _ _ H). simpl. rewrite app_nil_r. reflexivity.
  - intros rest. rewrite (feed_chunks _ _ _ _ _ _ H). simpl.
    rewrite feed_settled_stops, app_nil_r. reflexivity.
  - intros c rest Hc. rewrite (feed_chunks _ _ _ _ _ _ H). simpl.
    fold text. rewrite completion_marker_Done, Hc.
    rewrite feed_settled_stops, app_nil_r. reflexivity.
  - destruct s; simpl in H0; try discriminate.
    + rewrite completion_marker_Done in H0.
      destruct (Js.includes (text +:+ chunk) "Done") eqn:E.
      * intros _. right. eauto.
      * injection H0 as <- <- <-. discriminate.
    + auto.
    + injection H0 as <- <- <-. discriminate.
  - destruct s; simpl in H0; try discriminate.
    + rewrite completion_marker_Done in H0.
      intros [[=]|(c & [= <-] & Hc)]. rewrite Hc in H0. congruence.
    + intros _. congruence.
    + intros [[=]|(c & [=] & _)].
Qed.

(** The callbacks of a call receive [onData]s, then nothing else but the
    completion or the error, and never an [onData] after those. Only the
    error may come twice. *)
Lemma resume_shape svc pc s svc' pc' es :
  AIService.resume svc all_callbacks pc s = Some (svc', pc', es) →
  ∃ bs ts, es = map OnData bs ++ ts ∧ terminal_part pc' ts
           ∧ (in_flight pc' = false → ts ≠ []).
Proof.
  unfold AIService.resume, AIService._handleStreamingResponse,
    AIService.catch_finally.
  destruct pc, s; try discriminate; intros H;
    split_branches H;
    injection H as <- <- <-; simpl;
    first [ by (exists [], []; simpl; auto)
          | by (eexists [], [_]; simpl; eauto 6)
          | by (eexists [], [_; _]; simpl; eauto 6)
          | by (eexists [_], []; simpl; eauto 6)
          | by (eexists [_], [_]; simpl; eauto 6) ].
Qed.

Lemma feed_shape (script : list Stimulus) : ∀ svc pc,
  in_flight pc = true →
  let '(_, pc', es, _) := feed svc all_callbacks pc script in
  ∃ bs ts, es = map OnData bs ++ ts ∧ terminal_part pc' ts.
Proof.
  induction script as [|s script IH]; intros svc pc Hpc; simpl.
  - exists [], []. split; [reflexivity|]. destruct pc; try discriminate; reflexivity.
  - destruct (AIService.resume svc all_callbacks pc s) as [[[svc1 pc1] es1]|] eqn:E.
    2:{ exists [], []. split; [reflexivity|].
        destruct pc; try discriminate; reflexivity. }
    destruct (resume_shape _ _ _ _ _ _ E) as (bs1 & ts1 & -> & Ht1 & Hne).
    destruct (in_flight pc1) eqn:Hpc1.
    + specialize (IH svc1 pc1 Hpc1).
      destruct (feed svc1 all_callbacks pc1 script) as [[[svc2 pc2] es2] rest].
      destruct IH as (bs2 & ts2 & -> & Ht2).
      assert (ts1 = []) as -> by (destruct pc1; try discriminate; exact Ht1).
      exists (bs1 ++ bs2), ts2. rewrite map_app, app_nil_r, app_assoc. auto.
    + destruct pc1 as [| | |rej]; try discriminate.
      rewrite feed_settled_stops.
      exists bs1, ts1. rewrite app_nil_r. auto.
Qed.

Lemma callbacks_shape svc alertData now script :
  let '(_, pc, es, _) := session svc alertData all_callbacks now script in
  ∃ bs ts, List.filter is_callback es = map OnData bs ++ ts ∧ terminal_part pc ts.
Proof.
  unfold session.
  destruct (AIService.streamFixSuggestion svc alertData all_callbacks now)
    as [[svc1 pc1] es1] eqn:E.
  assert (List.filter is_callback es1 = [] ∧ in_flight pc1 = true
          ∨ ∃ e, pc1 = Settled (Some e)
                 ∧ (es1 = [] ∨ es1 = [OnError e])) as Hstart.
  { unfold AIService.streamFixSuggestion, AIService.catch_finally in E.
    destruct (AIService.isStreaming svc); [injection E as <- <- <-; eauto|].
    destruct alertData as [a|]; [|injection E as <- <- <-; eauto].
    destruct (AIService._validateAlertData a now);
      injection E as <- <- <-; simpl; eauto. }
  destruct Hstart as [[Hes Hpc]|(e & -> & Hes)].
  - pose proof (feed_shape script svc1 pc1 Hpc) as H.
    destruct (feed svc1 all_callbacks pc1 script) as [[[svc2 pc2] es2] rest].
    destruct H as (bs & ts & -> & Ht).
    exists bs, ts. split; [|exact Ht].
    rewrite List.filter_app, Hes. simpl.
    rewrite List.filter_app.
    assert (List.filter is_callback (map OnData bs) = map OnData bs) as ->
      by (clear; induction bs; simpl; congruence).
    f_equal.
    destruct pc2 as [| | |[e|]]; simpl in Ht;
      [subst; reflexivity.. | destruct Ht as [->|[->| ->]]; reflexivity
      | destruct Ht as [b ->]; reflexivity].
  - rewrite feed_settled_stops. exists []. rewrite app_nil_r.
    destruct Hes as [->| ->]; eexists; simpl; eauto.
Qed.

(** C2 fails when a read rejects: the [catch] of
    [_handleStreamingResponse] calls [onError] and rethrows, and the
    [catch] of [streamFixSuggestion] calls [onError] again. *)
Theorem read_failure_reports_twice :
  (∀ svc reader buffer e,
     AIService.resume svc all_callbacks (AwaitRead reader buffer) (ReadRejected e)
     = Some (AIService.idle, Settled (Some e), [OnError e; OnError e]))
  ∧ ∃ svc es,
      session AIService.idle (Some (alert_of "a1")) all_callbacks 0
        [PostResolved response_200; ReadChunk "Analyzing...";
         ReadRejected connection_lost]
      = (svc, Settled (Some connection_lost), es, [])
      ∧ List.filter is_callback es
        = [OnData "Analyzing..."; OnError connection_lost; OnError connection_lost]
      ∧ length (List.filter is_terminal es) = 2%nat.
Proof.
  split; [reflexivity|]. eexists _, _. vm_compute. repeat split; reflexivity.
Qed.

End ReadingLoop.

(** ** Single flight *)

Section SingleFlight.

Import System.

Lemma live_count_app ss ss' :
  live_count (ss ++ ss') = (live_count ss + live_count ss')%nat.
Proof. unfold live_count. rewrite List.filter_app, length_app. reflexivity. Qed.

Lemma live_count_insert ss : ∀ i s s',
  ss !! i = Some s →
  (live_count (<[i := s']> ss) + (if in_flight s.2 then 1 else 0)
   = live_count ss + (if in_flight s'.2 then 1 else 0))%nat.
Proof.
  unfold live_count.
  induction ss as [|x ss IH]; intros [|i] s s' H; simpl in *; try discriminate.
  - injection H as ->. destruct (in_flight s.2), (in_flight s'.2); simpl; lia.
  - specialize (IH i s s' H).
    destruct (in_flight x.2); simpl; lia.
Qed.

Lemma resume_in_flight svc cbs pc s r :
  AIService.resume svc cbs pc s = Some r → in_flight pc = true.
Proof. destruct pc; [reflexivity..|destruct s; discriminate]. Qed.

Lemma resume_keeps_flag svc cbs pc s svc' pc' es :
  AIService.resume svc cbs pc s = Some (svc', pc', es) →
  in_flight pc' = true →
  AIService.isStreaming svc' = AIService.isStreaming svc.
Proof.
  unfold AIService.resume, AIService._handleStreamingResponse,
    AIService.catch_finally.
  destruct pc, s; try discriminate; intros H;
    split_branches H;
    injection H as <- <- <-; simpl; congruence.
Qed.

Lemma step_flag_tracks_calls sys a sys' :
  is_Cancel a = false →
  flag_tracks_calls sys → step sys a = Some sys' → flag_tracks_calls sys'.
Proof.
  unfold flag_tracks_calls. intros Ha Inv H.
  destruct a as [alertData cbs now| |i s]; [| discriminate |]; simpl in H.
  - unfold AIService.streamFixSuggestion in H.
    destruct (AIService.isStreaming (service sys)) eqn:Es.
    { injection H as <-. simpl. rewrite live_count_app, Inv, Es. reflexivity. }
    destruct alertData as [a|].
    2:{ injection H as <-. simpl. rewrite live_count_app, Inv, Es. reflexivity. }
    destruct (AIService._validateAlertData a now);
      injection H as <-; simpl; rewrite live_count_app, Inv; reflexivity.
  - destruct (sessions sys !! i) as [[cbs pc]|] eqn:El; [|discriminate].
    destruct (AIService.resume (service sys) cbs pc s)
      as [[[svc pc'] es]|] eqn:Er; [|discriminate].
    injection H as <-. simpl.
    pose proof (live_count_insert _ _ _ (cbs, pc') El) as Hc. simpl in Hc.
    rewrite (resume_in_flight _ _ _ _ _ Er) in Hc.
    destruct (in_flight pc') eqn:Epc'.
    + rewrite (resume_keeps_flag _ _ _ _ _ _ _ Er Epc'). lia.
    + destruct pc'; try discriminate.
      apply resume_settled in Er as ->. simpl.
      destruct (AIService.isStreaming (service sys)); lia.
Qed.

(** As long as [cancelStream] is not called, the guard does its work:
    there is never more than one call in flight, and while there is one,
    a further call is rejected at once and issues no request. *)
Lemma single_flight_without_cancel (actions : list Action) : ∀ sys sys',
  forallb (λ a, negb (is_Cancel a)) actions = true →
  flag_tracks_calls sys →
  run sys actions = Some sys' →
  (live_count (sessions sys') ≤ 1)%nat
  ∧ ∀ alertData cbs now,
      live_count (sessions sys') = 1%nat →
      AIService.streamFixSuggestion (service sys') alertData cbs now
      = (service sys', Settled (Some AIService.already_in_progress), []).
Proof.
  induction actions as [|a actions IH]; intros sys sys' Hc Inv H; simpl in *.
  - injection H as <-. unfold flag_tracks_calls in Inv. split.
    + rewrite Inv. destruct (AIService.isStreaming _); lia.
    + intros alertData cbs now H1. unfold AIService.streamFixSuggestion.
      rewrite H1 in Inv.
      destruct (AIService.isStreaming (service sys)); [reflexivity|discriminate].
  - apply andb_true_iff in Hc as [Ha Hc]. apply negb_true_iff in Ha.
    destruct (step sys a) as [sys1|] eqn:E; [|discriminate].
    exact (IH sys1 sys' Hc (step_flag_tracks_calls _ _ _ Ha Inv E) H).
Qed.

(** C7 fails once [cancelStream] is in play. The first call is cancelled
    while its request is pending; it is not stopped. A second call starts.
    The first call then runs to its end, and its [finally] block clears
    [isStreaming] under the second call, which is still waiting for its
    response. A third call passes the guard and issues a third request:
    two calls that nobody cancelled are in flight together. *)
Theorem stale_finally_reopens_guard :
  ∃ before after,
    run init [Start (Some (alert_of "a1")) cb 0;
              Cancel;
              Start (Some (alert_of "a2")) cb 1;
              Settle 0 (PostResolved response_200);
              Settle 0 ReadDone] = Some before
    ∧ sessions before = [(cb, Settled None); (cb, AwaitPost)]
    ∧ AIService.isStreaming (service before) = false
    ∧ step before (Start (Some (alert_of "a3")) cb 2) = Some after
    ∧ sessions after = [(cb, Settled None); (cb, AwaitPost); (cb, AwaitPost)]
    ∧ length (List.filter is_NetPost (effects after)) = 3%nat.
Proof.
  eexists _, _. vm_compute. repeat split; reflexivity.
Qed.

End SingleFlight.

(** ** Cancellation *)

Section Cancellation.

Import System.

(** C3, as amended. [cancelStream] is idempotent. Whatever the state of
    the service, it leaves it idle and calls no subscriber callback: no
    cancellation event exists. What it does to the outside is fixed by the
    reader registered in [currentStream]: one [abort] on that reader when
    it has such a method, and nothing when it has none or when no reader
    is registered. A second call in a row does nothing and changes
    nothing, and so does a call on an idle service. *)
Theorem cancelStream_idempotent (svc : AIService.t) :
  let '(svc1, es1) := AIService.cancelStream svc in
  let '(svc2, es2) := AIService.cancelStream svc1 in
  svc1 = AIService.idle
  ∧ List.filter is_callback es1 = []
  ∧ (∀ reader, AIService.currentStream svc = Some reader →
               abort reader ≠ NoAbort → es1 = [Abort reader])
  ∧ (∀ reader, AIService.currentStream svc = Some reader →
               abort reader = NoAbort → es1 = [])
  ∧ (AIService.currentStream svc = None → es1 = [])
  ∧ svc2 = svc1 ∧ es2 = []
  ∧ (svc = AIService.idle → svc1 = svc ∧ es1 = []).
Proof.
  unfold AIService.cancelStream. simpl.
  split; [reflexivity|].
  split; [destruct (AIService.currentStream svc) as [r|];
          [destruct (abort r)|]; reflexivity|].
  split.
  { intros reader -> H. destruct (abort reader); [contradiction|reflexivity..]. }
  split; [intros reader -> ->; reflexivity|].
  split; [intros ->; reflexivity|].
  split; [reflexivity|]. split; [reflexivity|].
  intros ->. auto.
Qed.

(** C3 as stated fails: cancelling a call that is streaming emits no
    event, and neither does cancelling again. *)
Lemma cancel_emits_no_event :
  ∃ active cancelled again,
    run init [Start (Some (alert_of "a1")) cb 0;
              Settle 0 (PostResolved response_200);
              Settle 0 (ReadChunk "Analyzing...")] = Some active
    ∧ AIService.isStreaming (service active) = true
    ∧ step active Cancel = Some cancelled
    ∧ effects cancelled = effects active
    ∧ step cancelled Cancel = Some again
    ∧ effects again = effects active.
Proof.
  eexists _, _, _. vm_compute. repeat split; reflexivity.
Qed.

End Cancellation.

(** ** Assistance requests, the modal and the cache *)

Section Assistance.

Import DependabotApp.

Implicit Types (app : DependabotApp.t) (alert : Alert).

Lemma with_repo_name_id alert ls : id (with_repo_name alert ls) = id alert.
Proof. unfold with_repo_name. destruct LocalStorage.get_selected_repository; reflexivity. Qed.

Lemma with_repo_name_missing alert ls :
  AIService.missingFields (with_repo_name alert ls) = AIService.missingFields alert.
Proof. unfold with_repo_name. destruct LocalStorage.get_selected_repository; reflexivity. Qed.

(** Whenever the cache holds a live entry for a well-formed alert and
    the service is free, [handleAIAssistRequest] loads the entry into the
    modal and then calls [showModal], which replaces it by the loading
    indicator and posts a new request. *)
Lemma cache_hit_posts_anyway app alert now text :
  AIService.isStreaming (System.service (sys app)) = false →
  AIService.missingFields alert = [] →
  AIService.getCachedResponse (storage app) (id alert) now = Some text →
  let app' := handleAIAssistRequest app (Some alert) now in
  ∃ req,
    log app' = log app ++ [NetPost APP_CONSTANTS.STREAM_FIX req; CardCallback None]
    ∧ Modal.modalContent (modal app') = Modal.LoadingIndicator
    ∧ System.sessions (sys app')
      = System.sessions (sys app) ++ [(all_callbacks, AwaitPost)].
Proof.
  intros Hs Hm Hc.
  assert (Js.truthy (id alert) = true) as Ht.
  { apply getCachedResponse_Some in Hc as (k & c & -> & Hk & _).
    apply truthy_Some. eauto. }
  unfold handleAIAssistRequest. fold (with_repo_name alert (storage app)).
  rewrite with_repo_name_id, Ht.
  unfold Modal.loadCachedResponse. rewrite with_repo_name_id, Ht, Hc.
  rewrite <- (with_repo_name_missing alert (storage app)) in Hm.
  destruct (validate_ok _ now Hm) as [req Hreq]. exists req.
  unfold showModal, AIService.streamFixSuggestion. simpl.
  rewrite Hs, Hreq. simpl. rewrite <- app_assoc. auto.
Qed.


Lemma lookup_insert_session (ss : list (Callbacks * Pc)) i s s' :
  ss !! i = Some s → <[i := s']> ss !! i = Some s'.
Proof. intros H. apply list_lookup_insert_eq. eapply lookup_lt_Some, H. Qed.

Lemma resume_callbacks svc cbs pc s svc' pc' es :
  AIService.resume svc cbs pc s = Some (svc', pc', es) →
  forallb is_callback es = true
  ∧ (pc' ≠ Settled None → forallb quiet es = true).
Proof.
  unfold AIService.resume, AIService._handleStreamingResponse,
    AIService.catch_finally, call.
  destruct pc, s; try discriminate; intros H;
    split_branches H;
    injection H as <- <- <-; split; try reflexivity; congruence.
Qed.

Lemma start_callbacks svc alertData cbs now :
  forallb (λ e, is_NetPost e || quiet e)
    (AIService.streamFixSuggestion svc alertData cbs now).2 = true.
Proof.
  unfold AIService.streamFixSuggestion, AIService.catch_finally, call.
  destruct (AIService.isStreaming svc); [reflexivity|].
  destruct alertData as [a|]; [|reflexivity].
  destruct (AIService._validateAlertData a now); [|reflexivity].
  destruct (onError cbs); reflexivity.
Qed.

(** Only [onComplete] writes to the cache. *)
Lemma subscriber_quiet (es : list Effect) : ∀ m ls now,
  forallb (λ e, is_NetPost e || quiet e) es = true →
  let '(m', ls', out) := Modal.subscriber m ls now es in
  ls' = ls ∧ out = es ∧ Modal.isVisible m' = Modal.isVisible m.
Proof.
  induction es as [|e es IH]; intros m ls now H; simpl; [auto|].
  simpl in H. apply andb_true_iff in H as [He H].
  destruct e; try discriminate; simpl.
  - specialize (IH m ls now H).
    destruct (Modal.subscriber m ls now es) as [[m2 ls2] out2].
    destruct IH as (-> & -> & ->). auto.
  - specialize (IH (Modal.updateStreamingContent m buffer) ls now H).
    destruct (Modal.subscriber _ ls now es) as [[m2 ls2] out2].
    destruct IH as (-> & -> & ->). repeat split.
    unfold Modal.updateStreamingContent.
    destruct (Modal.isVisible m) eqn:E; simpl; congruence.
  - specialize (IH (Modal.handleStreamingError m error) ls now H).
    destruct (Modal.subscriber _ ls now es) as [[m2 ls2] out2].
    destruct IH as (-> & -> & ->). auto.
Qed.

(** A closed modal writes nothing, whatever arrives. *)
Lemma subscriber_closed (es : list Effect) : ∀ m ls now,
  Modal.isVisible m = false →
  forallb is_callback es = true →
  let '(m', ls', out) := Modal.subscriber m ls now es in
  ls' = ls ∧ out = es ∧ Modal.isVisible m' = false.
Proof.
  induction es as [|e es IH]; intros m ls now Hv H; simpl; [auto|].
  simpl in H. apply andb_true_iff in H as [He H].
  destruct e; try discriminate; simpl.
  - unfold Modal.updateStreamingContent. rewrite Hv.
    specialize (IH m ls now Hv H).
    destruct (Modal.subscriber m ls now es) as [[m2 ls2] out2].
    destruct IH as (-> & -> & ->). auto.
  - unfold Modal.handleStreamingComplete. rewrite Hv.
    match goal with
    | |- context [Modal.subscriber ?m1 ls now es] =>
        specialize (IH m1 ls now eq_refl H);
        destruct (Modal.subscriber m1 ls now es) as [[m2 ls2] out2]
    end.
    destruct IH as (-> & -> & ->). auto.
  - specialize (IH (Modal.handleStreamingError m error) ls now Hv H).
    destruct (Modal.subscriber _ ls now es) as [[m2 ls2] out2].
    destruct IH as (-> & -> & ->). auto.
Qed.

Lemma catch_visible m pc :
  Modal.isVisible (Modal.streamAIResponse_catch m pc) = Modal.isVisible m.
Proof. destruct pc as [| | |[e|]]; reflexivity. Qed.

Lemma filter_CacheWrite_callbacks (es : list Effect) :
  forallb (λ e, is_NetPost e || is_callback e) es = true →
  List.filter is_CacheWrite es = [].
Proof.
  induction es as [|e es IH]; [reflexivity|]. simpl.
  intros H. apply andb_true_iff in H as [He H].
  destruct e; try discriminate; simpl; auto.
Qed.

Lemma forallb_weaken {A} (P Q : A → bool) (l : list A) :
  (∀ x, P x = true → Q x = true) → forallb P l = true → forallb Q l = true.
Proof.
  intros HPQ. induction l as [|x l IH]; simpl; [auto|].
  intros H. apply andb_true_iff in H as [Hx H].
  rewrite (HPQ x Hx), (IH H). reflexivity.
Qed.

Lemma cache_writes_app app app' new :
  log app' = log app ++ new →
  cache_writes app' = cache_writes app ++ List.filter is_CacheWrite new.
Proof. unfold cache_writes. intros ->. apply List.filter_app. Qed.


Lemma filter_CacheWrite_card (es : list Effect) (b : bool) :
  List.filter is_CacheWrite (es ++ (if b then [CardCallback None] else []))
  = List.filter is_CacheWrite es.
Proof. rewrite List.filter_app. destruct b; simpl; apply app_nil_r. Qed.

Lemma settle_inv app i s t app' :
  settle app i s t = Some app' →
  ∃ cbs pc pc' new,
    System.sessions (sys app) !! i = Some (cbs, pc)
    ∧ in_flight pc = true
    ∧ System.sessions (sys app') !! i = Some (cbs, pc')
    ∧ log app' = log app ++ new
    ∧ (pc' ≠ Settled None ∨ Modal.isVisible (modal app) = false →
       List.filter is_CacheWrite new = [] ∧ storage app' = storage app)
    ∧ (Modal.isVisible (modal app) = false →
       Modal.isVisible (modal app') = false).
Proof.
  unfold settle.
  destruct (System.sessions (sys app) !! i) as [[cbs pc]|] eqn:El; [|discriminate].
  destruct (AIService.resume _ cbs pc s) as [[[svc pc'] es]|] eqn:Er; [|discriminate].
  pose proof (resume_in_flight _ _ _ _ _ Er) as Hpc.
  destruct (resume_callbacks _ _ _ _ _ _ _ Er) as [Hcb Hq].
  destruct (Modal.subscriber (modal app) (storage app) t es) as [[m ls] out] eqn:Es.
  intros [= <-]. eexists cbs, pc, pc', _. simpl.
  split; [reflexivity|]. split; [exact Hpc|].
  split; [eapply lookup_insert_session, El|].
  split; [reflexivity|]. split.
  - rewrite filter_CacheWrite_card. intros [Hne|Hv].
    + pose proof (subscriber_quiet es (modal app) (storage app) t) as H.
      rewrite Es in H. destruct H as (-> & -> & _).
      { eapply forallb_weaken, (Hq Hne). intros x ->. apply orb_true_r. }
      split; [|reflexivity]. apply filter_CacheWrite_callbacks.
      eapply forallb_weaken, Hcb. intros x ->. apply orb_true_r.
    + pose proof (subscriber_closed es (modal app) (storage app) t Hv Hcb) as H.
      rewrite Es in H. destruct H as (-> & -> & _).
      split; [|reflexivity]. apply filter_CacheWrite_callbacks.
      eapply forallb_weaken, Hcb. intros x ->. apply orb_true_r.
  - intros Hv. rewrite catch_visible.
    pose proof (subscriber_closed es (modal app) (storage app) t Hv Hcb) as H.
    rewrite Es in H. apply H.
Qed.

Lemma showModal_inv app alert now awaited :
  ∃ pc new,
    System.sessions (sys (showModal app alert now awaited))
    = System.sessions (sys app) ++ [(all_callbacks, pc)]
    ∧ log (showModal app alert now awaited) = log app ++ new
    ∧ List.filter is_CacheWrite new = []
    ∧ storage (showModal app alert now awaited) = storage app.
Proof.
  unfold showModal.
  pose proof (start_callbacks (System.service (sys app)) (Some alert)
                all_callbacks now) as Hcb.
  destruct (AIService.streamFixSuggestion _ _ _ _) as [[svc pc] es].
  simpl in Hcb.
  pose proof (subscriber_quiet es (Modal.showModal_open (modal app) alert)
                (storage app) now Hcb) as H.
  destruct (Modal.subscriber _ _ _ es) as [[m ls] out].
  destruct H as (-> & -> & _).
  eexists pc, _. simpl. split; [reflexivity|]. split; [reflexivity|].
  split; [|reflexivity].
  rewrite filter_CacheWrite_card. apply filter_CacheWrite_callbacks.
  eapply forallb_weaken, Hcb. intros x H.
  apply orb_true_iff in H as [->|H]; [reflexivity|].
  apply andb_true_iff in H as [-> _]. apply orb_true_r.
Qed.

Lemma handleAIAssistRequest_inv app alert now :
  ∃ pc new,
    System.sessions (sys (handleAIAssistRequest app (Some alert) now))
    = System.sessions (sys app) ++ [(all_callbacks, pc)]
    ∧ log (handleAIAssistRequest app (Some alert) now) = log app ++ new
    ∧ List.filter is_CacheWrite new = []
    ∧ storage (handleAIAssistRequest app (Some alert) now) = storage app.
Proof.
  unfold handleAIAssistRequest. fold (with_repo_name alert (storage app)).
  set (a := with_repo_name alert (storage app)).
  destruct (if Js.truthy (id a)
            then Modal.loadCachedResponse (modal app) (storage app) a now
            else (modal app, false)) as [m loaded].
  destruct loaded.
  - destruct (showModal_inv
                {| sys := sys app; modal := m; storage := storage app;
                   awaiting := awaiting app; log := log app |} a now false)
      as (pc & new & Hs & Hl & Hw & Hst).
    exists pc, (new ++ [CardCallback None]). simpl in *.
    rewrite Hs, Hl, Hst, <- app_assoc, List.filter_app, Hw. auto.
  - apply (showModal_inv
             {| sys := sys app; modal := m; storage := storage app;
                awaiting := awaiting app; log := log app |} a now true).
Qed.

Lemma closeModal_inv app :
  Modal.isVisible (modal (closeModal app)) = false
  ∧ cache_writes (closeModal app) = cache_writes app
  ∧ storage (closeModal app) = storage app.
Proof.
  unfold closeModal, Modal.closeModal, AIService.cancelStream.
  destruct (Modal.isVisible (modal app)) eqn:Ev; simpl.
  - destruct (Modal.isStreaming (modal app)); simpl; [|auto].
    split; [reflexivity|]. split; [|reflexivity].
    unfold cache_writes. simpl. rewrite List.filter_app.
    destruct (AIService.currentStream _) as [r|]; [destruct (abort r)|];
      simpl; apply app_nil_r.
  - rewrite Ev. auto.
Qed.


Lemma cacheResponse_writes ls k text t :
  let ws := (AIService.cacheResponse ls k text t).2 in
  List.filter is_terminal ws = [] ∧ List.filter is_CacheWrite ws = ws.
Proof.
  unfold AIService.cacheResponse. destruct k as [k|]; [|auto].
  destruct (String.eqb k "" || String.eqb text ""); auto.
Qed.

Lemma handleStreamingComplete_open m ls a text t :
  Modal.isVisible m = true → Modal.currentAlert m = Some a →
  Modal.handleStreamingComplete m ls text t
  = ({| Modal.isVisible := true; Modal.currentAlert := Some a;
        Modal.isStreaming := false; Modal.modalContent := Modal.Formatted text;
        Modal.createPRDisabled := false |},
     (AIService.cacheResponse ls (id a) text t).1,
     (AIService.cacheResponse ls (id a) text t).2).
Proof.
  intros Hv Ha. unfold Modal.handleStreamingComplete. rewrite Hv, Ha.
  destruct (Js.truthy (id a)) eqn:E.
  - destruct (AIService.cacheResponse _ _ _ _); reflexivity.
  - unfold AIService.cacheResponse.
    destruct (id a) as [k|]; [|reflexivity].
    simpl in E. apply negb_false_iff in E. rewrite E. reflexivity.
Qed.

Lemma settle_open app i a pc s t app' :
  System.sessions (sys app) !! i = Some (all_callbacks, pc) →
  Modal.isVisible (modal app) = true →
  Modal.currentAlert (modal app) = Some a →
  settle app i s t = Some app' →
  ∃ pc' new,
    System.sessions (sys app') !! i = Some (all_callbacks, pc')
    ∧ log app' = log app ++ new
    ∧ Modal.isVisible (modal app') = true
    ∧ Modal.currentAlert (modal app') = Some a
    ∧ match pc' with
      | Settled None =>
          let text := accumulated (buffer_of pc) (chunk_of s) in
          List.filter is_terminal new = [OnComplete text]
          ∧ List.filter is_CacheWrite new
            = (AIService.cacheResponse (storage app) (id a) text t).2
          ∧ storage app'
            = (AIService.cacheResponse (storage app) (id a) text t).1
      | Settled (Some _) => True
      | _ =>
          buffer_of pc' = accumulated (buffer_of pc) (chunk_of s)
          ∧ List.filter is_terminal new = []
          ∧ List.filter is_CacheWrite new = []
          ∧ storage app' = storage app
      end.
Proof.
  intros Hl Hv Ha. unfold settle. rewrite Hl.
  pose proof (λ text, handleStreamingComplete_open (modal app) (storage app)
                        a text t Hv Ha) as Hc.
  pose proof (λ text, cacheResponse_writes (storage app) (id a) text t) as Hw.
  destruct pc as [|r0|reader buffer|o], s as [r|e|j|chunk| |e]; simpl; try discriminate.
  - destruct (ok r) eqn:Eok.
    + unfold AIService._handleStreamingResponse.
      destruct (body r) as [reader|]; simpl.
      * intros [= <-]. eexists _, _. simpl.
        split; [eapply lookup_insert_session, Hl|]. split; [reflexivity|].
        rewrite andb_false_r. repeat split; auto.
      * intros [= <-]. eexists _, _. simpl.
        split; [eapply lookup_insert_session, Hl|]. split; [reflexivity|]. repeat split; auto.
    + simpl. intros [= <-]. eexists _, _. simpl.
      split; [eapply lookup_insert_session, Hl|]. split; [reflexivity|].
      rewrite andb_false_r. repeat split; auto.
  - intros [= <-]. eexists _, _. simpl.
    split; [eapply lookup_insert_session, Hl|]. split; [reflexivity|]. repeat split; auto.
  - intros [= <-]. eexists _, _. simpl.
    split; [eapply lookup_insert_session, Hl|]. split; [reflexivity|]. repeat split; auto.
  - destruct (AIService.completion_marker (buffer +:+ chunk)) eqn:Em; simpl.
    + unfold Modal.updateStreamingContent. rewrite Hv.
      rewrite (handleStreamingComplete_open _ _ a) by (simpl; auto). simpl.
      specialize (Hw (buffer +:+ chunk)). simpl in Hw. destruct Hw as [Hw1 Hw2].
      intros [= <-]. eexists _, _. simpl.
      split; [eapply lookup_insert_session, Hl|]. split; [reflexivity|].
      split; [reflexivity|]. split; [reflexivity|].
      rewrite app_nil_r. cbn [List.filter is_terminal is_CacheWrite].
      rewrite !List.filter_app, Hw1, Hw2.
      destruct (bool_decide _); simpl; rewrite ?app_nil_r; auto.
    + unfold Modal.updateStreamingContent. rewrite Hv. simpl.
      intros [= <-]. eexists _, _. simpl.
      split; [eapply lookup_insert_session, Hl|]. split; [reflexivity|].
      rewrite andb_false_r. repeat split; auto.
  - rewrite Hc. simpl.
    specialize (Hw buffer). simpl in Hw. destruct Hw as [Hw1 Hw2].
    intros [= <-]. eexists _, _. simpl.
    split; [eapply lookup_insert_session, Hl|]. split; [reflexivity|].
    split; [reflexivity|]. split; [reflexivity|].
    rewrite app_nil_r. cbn [List.filter is_terminal is_CacheWrite].
    rewrite !List.filter_app, Hw1, Hw2.
    destruct (bool_decide _); simpl; rewrite ?app_nil_r; auto.
  - intros [= <-]. eexists _, _. simpl.
    split; [eapply lookup_insert_session, Hl|]. split; [reflexivity|]. repeat split; auto.
Qed.

Lemma settled_stops app i cbs o s t :
  System.sessions (sys app) !! i = Some (cbs, Settled o) →
  settle app i s t = None.
Proof. intros H. unfold settle. rewrite H. destruct s; reflexivity. Qed.

Lemma end_time_cons st st' (script : list (Stimulus * Z)) :
  end_time (st :: st' :: script) = end_time (st' :: script).
Proof. reflexivity. Qed.

Lemma accumulated_app (buffer : string) (l1 l2 : list string) :
  accumulated buffer (l1 ++ l2) = accumulated (accumulated buffer l1) l2.
Proof. apply fold_left_app. Qed.

(** A call that runs to its end while the modal stays open on the alert
    [a]. *)
Lemma session_completes i a (script : list (Stimulus * Z)) :
  ∀ app app' pc cbs,
    System.sessions (sys app) !! i = Some (all_callbacks, pc) →
    in_flight pc = true →
    Modal.isVisible (modal app) = true →
    Modal.currentAlert (modal app) = Some a →
    run app (settles i script) = Some app' →
    System.sessions (sys app') !! i = Some (cbs, Settled None) →
    let text := accumulated (buffer_of pc) (chunks_of script) in
    ∃ new,
      log app' = log app ++ new
      ∧ List.filter is_terminal new = [OnComplete text]
      ∧ List.filter is_CacheWrite new
        = (AIService.cacheResponse (storage app) (id a) text (end_time script)).2
      ∧ storage app'
        = (AIService.cacheResponse (storage app) (id a) text (end_time script)).1.
Proof.
  induction script as [|[s t] script IH]; intros app app' pc cbs Hl Hpc Hv Ha Hr Hf.
  - injection Hr as <-. rewrite Hl in Hf. injection Hf as _ ->. discriminate Hpc.
  - cbn [settles map run step fst snd] in Hr.
    destruct (settle app i s t) as [app1|] eqn:Es; [|discriminate Hr].
    destruct (settle_open app i a pc s t app1 Hl Hv Ha Es)
      as (pc1 & new1 & Hl1 & Hlog1 & Hv1 & Ha1 & H1).
    destruct script as [|[s2 t2] script].
    + injection Hr as <-. rewrite Hl1 in Hf. injection Hf as _ ->.
      destruct H1 as (Ht & Hw & Hs). exists new1.
      unfold chunks_of. cbn [flat_map fst]. rewrite app_nil_r. auto.
    + assert (in_flight pc1 = true) as Hpc1.
      { destruct pc1 as [| | |o]; try reflexivity.
        cbn [settles map run step fst snd] in Hr.
        rewrite (settled_stops app1 i _ o s2 t2 Hl1) in Hr. discriminate Hr. }
      assert (buffer_of pc1 = accumulated (buffer_of pc) (chunk_of s)
              ∧ List.filter is_terminal new1 = []
              ∧ List.filter is_CacheWrite new1 = []
              ∧ storage app1 = storage app) as (Hb & Ht1 & Hw1 & Hs1).
      { destruct pc1 as [| | |o]; try exact H1. discriminate Hpc1. }
      destruct (IH app1 app' pc1 cbs Hl1 Hpc1 Hv1 Ha1 Hr Hf)
        as (new2 & Hlog2 & Ht2 & Hw2 & Hs2).
      exists (new1 ++ new2).
      rewrite end_time_cons.
      change (chunks_of ((s, t) :: (s2, t2) :: script))
        with (chunk_of s ++ chunks_of ((s2, t2) :: script)).
      rewrite accumulated_app, <- Hb, <- Hs1.
      rewrite Hlog2, Hlog1, <- app_assoc, !List.filter_app, Ht1, Hw1.
      auto.
Qed.

Lemma showModal_opens app alert now awaited :
  let app1 := showModal app alert now awaited in
  ∃ pc0 new1,
    System.sessions (sys app1) = System.sessions (sys app) ++ [(all_callbacks, pc0)]
    ∧ log app1 = log app ++ new1
    ∧ storage app1 = storage app
    ∧ Modal.isVisible (modal app1) = true
    ∧ Modal.currentAlert (modal app1) = Some alert
    ∧ pc0 ≠ Settled None
    ∧ (in_flight pc0 = true →
       pc0 = AwaitPost
       ∧ List.filter is_terminal new1 = [] ∧ List.filter is_CacheWrite new1 = []).
Proof.
  unfold showModal, AIService.streamFixSuggestion, AIService.catch_finally.
  destruct (AIService.isStreaming _).
  { simpl. eexists _, _. repeat split; try reflexivity; discriminate. }
  destruct (AIService._validateAlertData alert now) as [e|req]; simpl.
  - eexists _, _. repeat split; try reflexivity; discriminate.
  - rewrite ?andb_false_r, ?andb_true_r. eexists _, _.
    repeat split; try reflexivity; try discriminate.
Qed.

Lemma assist_request_opens app alert now :
  let app1 := handleAIAssistRequest app (Some alert) now in
  ∃ pc0 new1 a,
    System.sessions (sys app1) = System.sessions (sys app) ++ [(all_callbacks, pc0)]
    ∧ log app1 = log app ++ new1
    ∧ storage app1 = storage app
    ∧ Modal.isVisible (modal app1) = true
    ∧ Modal.currentAlert (modal app1) = Some a ∧ id a = id alert
    ∧ pc0 ≠ Settled None
    ∧ (in_flight pc0 = true →
       pc0 = AwaitPost
       ∧ List.filter is_terminal new1 = [] ∧ List.filter is_CacheWrite new1 = []).
Proof.
  unfold handleAIAssistRequest. fold (with_repo_name alert (storage app)).
  set (a := with_repo_name alert (storage app)).
  destruct (if Js.truthy (id a)
            then Modal.loadCachedResponse (modal app) (storage app) a now
            else (modal app, false)) as [m loaded].
  destruct loaded.
  - destruct (showModal_opens
                {| sys := sys app; modal := m; storage := storage app;
                   awaiting := awaiting app; log := log app |} a now false)
      as (pc0 & new1 & Hs & Hl & Hst & Hv & Ha & Hne & Hn).
    exists pc0, (new1 ++ [CardCallback None]), a. simpl in *.
    split; [exact Hs|]. split; [rewrite Hl, <- app_assoc; reflexivity|].
    split; [exact Hst|]. split; [exact Hv|]. split; [exact Ha|].
    split; [apply with_repo_name_id|]. split; [exact Hne|].
    intros Hp. destruct (Hn Hp) as (-> & Ht & Hw).
    rewrite !List.filter_app, Ht, Hw. auto.
  - destruct (showModal_opens
                {| sys := sys app; modal := m; storage := storage app;
                   awaiting := awaiting app; log := log app |} a now true)
      as (pc0 & new1 & Hs & Hl & Hst & Hv & Ha & Hne & Hn).
    exists pc0, new1, a. simpl in *.
    split; [exact Hs|]. split; [exact Hl|].
    split; [exact Hst|]. split; [exact Hv|]. split; [exact Ha|].
    split; [apply with_repo_name_id|]. split; [exact Hne|]. exact Hn.
Qed.

Lemma step_writes_only_on_completion app act app' :
  step app act = Some app' →
  cache_writes app' ≠ cache_writes app →
  ∃ i s t cbs,
    act = Settle i s t
    ∧ System.sessions (sys app') !! i = Some (cbs, Settled None).
Proof.
  intros Hs Hw. destruct act as [alert now|now| |i s t]; simpl in Hs.
  - exfalso. apply Hw. injection Hs as <-.
    destruct alert as [alert|].
    + destruct (handleAIAssistRequest_inv app alert now)
        as (pc & new & _ & Hl & Hn & _).
      rewrite (cache_writes_app _ _ _ Hl), Hn. apply app_nil_r.
    + unfold cache_writes. simpl. rewrite List.filter_app. apply app_nil_r.
  - exfalso. apply Hw.
    destruct (Modal.modalContent (modal app)); try discriminate Hs.
    destruct (Modal.currentAlert (modal app)) as [alert|];
      injection Hs as <-; [|reflexivity].
    destruct (showModal_inv app alert now false) as (pc & new & _ & Hl & Hn & _).
    rewrite (cache_writes_app _ _ _ Hl), Hn. apply app_nil_r.
  - exfalso. apply Hw. injection Hs as <-. apply closeModal_inv.
  - destruct (settle_inv _ _ _ _ _ Hs)
      as (cbs & pc & pc' & new & _ & _ & Hl' & Hlog & Hn & _).
    exists i, s, t, cbs. split; [reflexivity|].
    assert (pc' = Settled None ∨ pc' ≠ Settled None) as [->|Hne]
      by (destruct pc' as [| | |[?|]]; auto; right; discriminate).
    + exact Hl'.
    + exfalso. apply Hw. rewrite (cache_writes_app _ _ _ Hlog).
      destruct (Hn (or_introl Hne)) as [-> _]. apply app_nil_r.
Qed.

(** C9, as amended. Take a call started by [handleAIAssistRequest] that
    runs to its end with nothing else asked of the application in between,
    and completes. [onComplete] is its only terminal event and carries the
    text of all the chunks received. The cache is written exactly once,
    with that text, under the id of the alert, when the text is not empty
    and the alert has an id; otherwise it is not written. In any run of
    the application, whatever is asked of it in between, the cache is
    written only by a step that completes a call: a call that fails writes
    nothing. *)
Theorem completed_text_cached_once :
  (∀ app alert t0 (script : list (Stimulus * Z)) app' cbs,
     let i := length (System.sessions (sys app)) in
     let text := received script in
     run app (AssistRequest (Some alert) t0 :: settles i script) = Some app' →
     System.sessions (sys app') !! i = Some (cbs, Settled None) →
     ∃ new,
       log app' = log app ++ new
       ∧ List.filter is_terminal new = [OnComplete text]
       ∧ List.filter is_CacheWrite new
         = match id alert with
           | Some k =>
               if String.eqb k "" || String.eqb text "" then []
               else [CacheWrite k {| response := text;
                                     timestamp := end_time script |}]
           | None => []
           end
       ∧ storage app'
         = (AIService.cacheResponse (storage app) (id alert) text
              (end_time script)).1)
  ∧ (∀ app act app',
       step app act = Some app' →
       cache_writes app' ≠ cache_writes app →
       ∃ i s t cbs,
         act = Settle i s t
         ∧ System.sessions (sys app') !! i = Some (cbs, Settled None)).
Proof.
  split; [|exact step_writes_only_on_completion].
  intros app alert t0 script app' cbs i text Hr Hf.
  cbn [run step] in Hr.
  destruct (assist_request_opens app alert t0)
    as (pc0 & new1 & a & Hss & Hl1 & Hst1 & Hv & Ha & Hid & Hne & Hn).
  set (app1 := handleAIAssistRequest app (Some alert) t0) in *.
  assert (System.sessions (sys app1) !! i = Some (all_callbacks, pc0)) as Hi.
  { rewrite Hss. apply list_lookup_middle. reflexivity. }
  assert (in_flight pc0 = true) as Hpc0.
  { destruct pc0 as [| | |o]; try reflexivity.
    destruct script as [|[s t] script]; cbn [settles map run step fst snd] in Hr.
    - injection Hr as <-. rewrite Hi in Hf. injection Hf as _ ->. contradiction.
    - rewrite (settled_stops app1 i _ o s t Hi) in Hr. discriminate Hr. }
  destruct (Hn Hpc0) as (-> & Ht1 & Hw1).
  destruct (session_completes i a script app1 app' AwaitPost cbs Hi Hpc0 Hv Ha Hr Hf)
    as (new2 & Hl2 & Ht2 & Hw2 & Hs2).
  cbn [buffer_of] in *. fold (received script) in *. fold text in Ht2, Hw2, Hs2.
  rewrite Hid, Hst1 in *.
  exists (new1 ++ new2).
  rewrite Hl2, Hl1, <- app_assoc, !List.filter_app, Ht1, Hw1, Ht2, Hw2, Hs2.
  repeat split; try reflexivity.
  unfold AIService.cacheResponse. destruct (id alert) as [k|]; [|reflexivity].
  destruct (String.eqb k "" || String.eqb text ""); reflexivity.
Qed.

(** C9 as stated fails for a stream that ends before any chunk, and for
    an alert without id: the call completes, and nothing is written
    ([cacheResponse] refuses an empty response, and
    [handleStreamingComplete] caches under the id of the alert). *)
Lemma completion_without_text_or_id_is_not_cached :
  (∃ app,
     run (init empty_storage)
       [AssistRequest (Some (alert_of "a1")) 1000;
        Settle 0 (PostResolved response_200) 1100;
        Settle 0 ReadDone 1200] = Some app
     ∧ System.sessions (sys app) = [(all_callbacks, Settled None)]
     ∧ List.filter is_terminal (log app) = [OnComplete ""]
     ∧ cache_writes app = [])
  ∧ ∃ app,
      run (init empty_storage)
        [AssistRequest (Some alert_without_id) 1000;
         Settle 0 (PostResolved response_200) 1100;
         Settle 0 (ReadChunk "Upgrade lodash.") 1200;
         Settle 0 ReadDone 1300] = Some app
      ∧ System.sessions (sys app) = [(all_callbacks, Settled None)]
      ∧ List.filter is_terminal (log app) = [OnComplete "Upgrade lodash."]
      ∧ cache_writes app = [].
Proof.
  split; eexists; vm_compute; repeat split; reflexivity.
Qed.

(** C1 fails: with a live cache entry for the alert,
    [handleAIAssistRequest] puts the cached text into the modal and then
    calls [showModal], which replaces it by the loading indicator and
    posts a new request to the suggestion service. *)
Theorem cache_hit_still_posts :
  AIService.getCachedResponse cached_storage (Some "a1") 5000 = Some cached_text
  ∧ ∃ app,
      run (init cached_storage) [AssistRequest (Some (alert_of "a1")) 5000]
      = Some app
      ∧ length (requests app) = 1%nat
      ∧ System.sessions (sys app) = [(all_callbacks, AwaitPost)]
      ∧ AIService.isStreaming (System.service (sys app)) = true
      ∧ Modal.modalContent (modal app) = Modal.LoadingIndicator.
Proof.
  split; [vm_compute; reflexivity|].
  eexists. vm_compute. repeat split; reflexivity.
Qed.

(** The scenarios of a 429 answer and of a modal closed in mid-stream. *)
Example rate_limited_scenario :
  ∃ app,
    run (init empty_storage)
      [AssistRequest (Some (alert_of "a1")) 1000;
       Settle 0 (PostResolved response_429) 1100;
       Settle 0 (JsonSettled JsonNoError) 1150] = Some app
    ∧ List.filter is_terminal (log app)
      = [OnError (AIService._handleApiError response_429 JsonNoError)]
    ∧ cache_writes app = []
    ∧ AIService.isStreaming (System.service (sys app)) = false
    ∧ Modal.modalContent (modal app) = Modal.ErrorState APP_CONSTANTS.RATE_LIMITED.
Proof.
  eexists. vm_compute. repeat split; reflexivity.
Qed.

Example closed_in_mid_stream_scenario :
  ∃ app,
    run (init empty_storage)
      [AssistRequest (Some (alert_of "a1")) 1000;
       Settle 0 (PostResolved response_200) 1100;
       Settle 0 (ReadChunk "Analyzing...") 1200;
       CloseModal;
       Settle 0 (ReadChunk " Recommend upgrading to 4.17.21") 1300;
       Settle 0 ReadDone 1400] = Some app
    ∧ List.filter is_callback (log app)
      = [OnData "Analyzing..."; OnData cached_text; OnComplete cached_text]
    ∧ cache_writes app = []
    ∧ Modal.modalContent (modal app) = Modal.Formatted "Analyzing...".
Proof.
  eexists. vm_compute. repeat split; reflexivity.
Qed.

End Assistance.

(** ** The theorems at concrete inputs *)

Section Instances.

(** Two chunks without the marker, then the end of the stream. *)
Lemma completion_detection_witness :
  Forall (λ b, Js.includes b "Done" = false) (buffers "" two_chunks)
  ∧ feed streaming_service all_callbacks (AwaitRead reader_0 "")
      (map ReadChunk two_chunks ++ [ReadDone])
    = (AIService.idle, Settled None,
       [OnData "Analyzing..."; OnData cached_text; OnComplete cached_text], []).
Proof.
  assert (Forall (λ b, Js.includes b "Done" = false) (buffers "" two_chunks)) as H
    by (repeat constructor).
  split; [exact H|].
  exact (proj1 (proj2 (completion_detection streaming_service all_callbacks
                         reader_0 two_chunks H)) []).
Defined.

(** An entry stored 25 hours ago is not returned. *)
Lemma getCachedResponse_fresh_witness :
  LocalStorage.get_ai_responses cached_storage !! "a1"
  = Some {| response := cached_text; timestamp := 1400 |}
  ∧ AIService.getCachedResponse cached_storage (Some "a1") (1400 + 25 * hour_ms)
    = None.
Proof.
  assert (LocalStorage.get_ai_responses cached_storage !! "a1"
          = Some {| response := cached_text; timestamp := 1400 |}) as H
    by (vm_compute; reflexivity).
  split; [exact H|].
  refine (proj2 (getCachedResponse_fresh cached_storage (Some "a1")
                   (1400 + 25 * hour_ms)) "a1" _ eq_refl H _).
  vm_compute. reflexivity.
Defined.

(** An alert without severity, on an idle service. *)
Lemma missing_fields_never_reach_network_witness :
  Js.truthy (severity alert_without_severity) = false
  ∧ AIService.streamFixSuggestion AIService.idle (Some alert_without_severity)
      all_callbacks 0
    = (AIService.idle,
       Settled (Some (Js.new_Error "Missing required fields: severity")),
       [OnError (Js.new_Error "Missing required fields: severity")]).
Proof.
  split; [reflexivity|].
  pose proof (missing_fields_never_reach_network AIService.idle
                alert_without_severity all_callbacks 0
                (or_intror (or_intror eq_refl))) as H.
  destruct (AIService.streamFixSuggestion AIService.idle
              (Some alert_without_severity) all_callbacks 0) as [[svc pc] es].
  destruct H as (_ & _ & H). destruct (H eq_refl) as (-> & -> & ->).
  reflexivity.
Defined.

(** A call answered by a 429 leaves the service idle. *)
Lemma service_idle_after_call_witness :
  AIService.isStreaming AIService.idle = false
  ∧ ∃ svc es,
      session AIService.idle (Some (alert_of "a1")) all_callbacks 0
        [PostResolved response_429; JsonSettled JsonNoError]
      = (svc, Settled (Some (AIService._handleApiError response_429 JsonNoError)),
         es, [])
      ∧ AIService.isStreaming svc = false
      ∧ AIService.currentStream svc = None.
Proof.
  split; [reflexivity|].
  pose proof (service_idle_after_call AIService.idle (alert_of "a1")
                all_callbacks 0
                [PostResolved response_429; JsonSettled JsonNoError] eq_refl) as H.
  destruct (session AIService.idle (Some (alert_of "a1")) all_callbacks 0
              [PostResolved response_429; JsonSettled JsonNoError])
    as [[[svc pc] es] rest] eqn:E.
  vm_compute in E. injection E as <- <- <- <-.
  destruct (H eq_refl) as (H1 & H2 & _).
  eexists _, _. split; [reflexivity|]. split; [exact H1 | exact H2].
Defined.

(** Cancelling with a reader that has an [abort] method, with one that
    has none, and on an idle service. *)
Lemma cancelStream_idempotent_witness :
  AIService.cancelStream aborting_service = (AIService.idle, [Abort reader_1])
  ∧ AIService.cancelStream streaming_service = (AIService.idle, [])
  ∧ AIService.cancelStream AIService.idle = (AIService.idle, []).
Proof.
  pose proof (cancelStream_idempotent aborting_service) as H.
  destruct (AIService.cancelStream aborting_service) as [svc1 es1] eqn:E1.
  destruct (AIService.cancelStream svc1) as [svc2 es2] eqn:E2.
  destruct H as (-> & _ & Ha & _ & _ & -> & -> & _).
  split; [|split; [reflexivity|exact E2]].
  rewrite (Ha reader_1 eq_refl ltac:(discriminate)). reflexivity.
Defined.

(** The scenario of the two chunks: one completion, one cache write. *)
Lemma completed_text_cached_once_witness :
  ∃ app' new,
    DependabotApp.run (DependabotApp.init empty_storage)
      (DependabotApp.AssistRequest (Some (alert_of "a1")) 1000
       :: settles 0 two_chunk_session) = Some app'
    ∧ DependabotApp.log app' = new
    ∧ List.filter is_terminal new = [OnComplete cached_text]
    ∧ List.filter is_CacheWrite new
      = [CacheWrite "a1" {| response := cached_text; timestamp := 1400 |}]
    ∧ AIService.getCachedResponse (DependabotApp.storage app') (Some "a1") 2000
      = Some cached_text.
Proof.
  destruct (DependabotApp.run (DependabotApp.init empty_storage)
              (DependabotApp.AssistRequest (Some (alert_of "a1")) 1000
               :: settles 0 two_chunk_session)) as [app'|] eqn:E;
    [|vm_compute in E; discriminate E].
  assert (System.sessions (DependabotApp.sys app') !! 0%nat
          = Some (all_callbacks, Settled None)) as Hf
    by (vm_compute in E; injection E as <-; reflexivity).
  destruct (proj1 completed_text_cached_once (DependabotApp.init empty_storage)
              (alert_of "a1") 1000 two_chunk_session app' all_callbacks E Hf)
    as (new & Hl & Ht & Hw & Hs).
  exists app', new. split; [reflexivity|]. split; [exact Hl|].
  split; [exact Ht|]. split; [exact Hw|]. rewrite Hs. reflexivity.
Defined.

End Instances.

(** * The helpers *)

Section EscapeHtml.

Lemma string_app_cons (c : ascii) (s1 s2 : string) :
  String c s1 +:+ s2 = String c (s1 +:+ s2).
Proof. reflexivity. Qed.

Lemma string_app_nil_l (s : string) : "" +:+ s = s.
Proof. reflexivity. Qed.

Lemma chars_app (s1 s2 : string) : chars (s1 +:+ s2) = chars s1 ++ chars s2.
Proof.
  induction s1 as [|c s1 IH]; [reflexivity|].
  rewrite string_app_cons. simpl. rewrite <- IH. reflexivity.
Qed.

Lemma string_app_assoc (s1 s2 s3 : string) :
  (s1 +:+ s2) +:+ s3 = s1 +:+ (s2 +:+ s3).
Proof.
  induction s1 as [|c s1 IH]; [reflexivity|].
  rewrite !string_app_cons, IH. reflexivity.
Qed.

Lemma string_app_nil_r (s : string) : s +:+ "" = s.
Proof.
  induction s as [|c s IH]; [reflexivity|].
  rewrite string_app_cons, IH. reflexivity.
Qed.

Lemma replace_all_app c rep (s1 s2 : string) :
  AppHelpers.replace_all c rep (s1 +:+ s2)
  = AppHelpers.replace_all c rep s1 +:+ AppHelpers.replace_all c rep s2.
Proof.
  induction s1 as [|x s1 IH]; simpl; [reflexivity|].
  rewrite IH, string_app_assoc. reflexivity.
Qed.

(** The cases of [escape_char]. *)
Lemma escape_char_cases (c : ascii) :
  (c = "&"%char ∧ AppHelpers.escape_char c = "&amp;")
  ∨ (c = "<"%char ∧ AppHelpers.escape_char c = "&lt;")
  ∨ (c = ">"%char ∧ AppHelpers.escape_char c = "&gt;")
  ∨ (c = "034"%char ∧ AppHelpers.escape_char c = "&quot;")
  ∨ (c = "'"%char ∧ AppHelpers.escape_char c = "&#039;")
  ∨ (is_html_special c = false ∧ AppHelpers.escape_char c = String c "").
Proof.
  unfold AppHelpers.escape_char, is_html_special.
  destruct (Ascii.eqb c "&") eqn:E1; [apply Ascii.eqb_eq in E1; auto|].
  destruct (Ascii.eqb c "<") eqn:E2; [apply Ascii.eqb_eq in E2; auto|].
  destruct (Ascii.eqb c ">") eqn:E3; [apply Ascii.eqb_eq in E3; auto 6|].
  destruct (Ascii.eqb c "034") eqn:E4; [apply Ascii.eqb_eq in E4; auto 7|].
  destruct (Ascii.eqb c "'") eqn:E5; [apply Ascii.eqb_eq in E5; auto 8|].
  auto 10.
Qed.

Lemma passes_char (c : ascii) :
  AppHelpers.replace_all "'" "&#039;"
    (AppHelpers.replace_all "034" "&quot;"
       (AppHelpers.replace_all ">" "&gt;"
          (AppHelpers.replace_all "<" "&lt;"
             (if Ascii.eqb c "&" then "&amp;" else String c ""))))
  = AppHelpers.escape_char c.
Proof.
  unfold AppHelpers.escape_char.
  destruct (Ascii.eqb c "&") eqn:E1; [reflexivity|]. simpl.
  destruct (Ascii.eqb c "<") eqn:E2; [reflexivity|]. simpl.
  destruct (Ascii.eqb c ">") eqn:E3; [reflexivity|]. simpl.
  destruct (Ascii.eqb c "034") eqn:E4; [reflexivity|]. simpl.
  destruct (Ascii.eqb c "'") eqn:E5; reflexivity.
Qed.

(** X1. The five passes of [escapeHtml] amount to one pass that replaces
    each character by its entity: the ampersands that the later passes
    bring in are not escaped again, because the ampersand pass runs
    first. *)
Theorem escapeHtml_passes_one_pass (unsafe : string) :
  AppHelpers.escapeHtml_passes unsafe = AppHelpers.escapeHtml unsafe.
Proof.
  unfold AppHelpers.escapeHtml_passes.
  induction unsafe as [|c rest IH]; [reflexivity|].
  cbn [AppHelpers.replace_all AppHelpers.escapeHtml].
  rewrite !replace_all_app, IH, passes_char. reflexivity.
Qed.

Lemma escapeHtml_app (s1 s2 : string) :
  AppHelpers.escapeHtml (s1 +:+ s2)
  = AppHelpers.escapeHtml s1 +:+ AppHelpers.escapeHtml s2.
Proof.
  induction s1 as [|c s1 IH]; simpl; [reflexivity|].
  rewrite IH, string_app_assoc. reflexivity.
Qed.

Lemma escapeHtml_markup_free (unsafe : string) :
  markup_free (AppHelpers.escapeHtml unsafe).
Proof.
  unfold markup_free.
  induction unsafe as [|c rest IH]; simpl; [constructor|].
  rewrite chars_app. apply Forall_app. split; [|exact IH].
  destruct (escape_char_cases c)
    as [[_ ->]|[[_ ->]|[[_ ->]|[[_ ->]|[[_ ->]|[Hc ->]]]]]];
    try (repeat constructor; discriminate).
  constructor; [|constructor].
  unfold is_html_special in Hc.
  rewrite !orb_false_iff in Hc. destruct Hc as ((((_ & H1) & H2) & H3) & H4).
  apply Ascii.eqb_neq in H1, H2, H3, H4. auto.
Qed.

(** X2. The escaped text holds none of the characters that open a tag,
    close it or end an attribute value. *)
Theorem escapeHtml_no_markup (unsafe : string) :
  Forall (λ c, c ≠ "<"%char ∧ c ≠ ">"%char ∧ c ≠ "034"%char ∧ c ≠ "'"%char)
    (chars (AppHelpers.escapeHtml unsafe)).
Proof. apply escapeHtml_markup_free. Qed.

Lemma escapeHtml_inj (s1 s2 : string) :
  AppHelpers.escapeHtml s1 = AppHelpers.escapeHtml s2 → s1 = s2.
Proof.
  revert s2. induction s1 as [|a s1 IH]; intros [|b s2] H;
    cbn [AppHelpers.escapeHtml] in H.
  - reflexivity.
  - exfalso.
    destruct (escape_char_cases b)
      as [[_ E]|[[_ E]|[[_ E]|[[_ E]|[[_ E]|[_ E]]]]]];
      rewrite E in H; discriminate H.
  - exfalso.
    destruct (escape_char_cases a)
      as [[_ E]|[[_ E]|[[_ E]|[[_ E]|[[_ E]|[_ E]]]]]];
      rewrite E in H; discriminate H.
  - destruct (escape_char_cases a)
      as [[-> Ea]|[[-> Ea]|[[-> Ea]|[[-> Ea]|[[-> Ea]|[Ha Ea]]]]]];
    destruct (escape_char_cases b)
      as [[-> Eb]|[[-> Eb]|[[-> Eb]|[[-> Eb]|[[-> Eb]|[Hb Eb]]]]]];
    rewrite ?Ea, ?Eb in H; rewrite ?string_app_cons, ?string_app_nil_l in H;
    try discriminate H;
    try (injection H as H; rewrite (IH s2 H); reflexivity);
    try (injection H as <- _; discriminate Hb);
    try (injection H as -> _; discriminate Ha).
    injection H as -> H. rewrite (IH s2 H). reflexivity.
Qed.

(** X3. Escaping loses nothing: two texts with the same escaped form are the
    same text. *)
Theorem escapeHtml_injective (s1 s2 : string) :
  AppHelpers.escapeHtml s1 = AppHelpers.escapeHtml s2 → s1 = s2.
Proof. apply escapeHtml_inj. Qed.


Lemma escapeHtml_plain (s : string) :
  Forall (λ c, is_html_special c = false) (chars s) → AppHelpers.escapeHtml s = s.
Proof.
  induction s as [|c s IH]; intros H; [reflexivity|].
  simpl in H. apply Forall_cons in H as [Hc H].
  cbn [AppHelpers.escapeHtml]. rewrite (IH H).
  destruct (escape_char_cases c)
    as [[-> _]|[[-> _]|[[-> _]|[[-> _]|[[-> _]|[_ ->]]]]]];
    try discriminate Hc.
  reflexivity.
Qed.

Lemma string_length_app (s1 s2 : string) :
  String.length (s1 +:+ s2) = (String.length s1 + String.length s2)%nat.
Proof.
  induction s1 as [|c s1 IH]; [reflexivity|].
  rewrite string_app_cons. simpl. rewrite IH. reflexivity.
Qed.

Lemma escapeHtml_length (s : string) :
  (String.length s ≤ String.length (AppHelpers.escapeHtml s))%nat.
Proof.
  induction s as [|c s IH]; [reflexivity|].
  cbn [AppHelpers.escapeHtml]. rewrite string_length_app.
  destruct (escape_char_cases c)
    as [[_ ->]|[[_ ->]|[[_ ->]|[[_ ->]|[[_ ->]|[_ ->]]]]]]; simpl; lia.
Qed.

Lemma escapeHtml_fixed (s : string) :
  AppHelpers.escapeHtml s = s → Forall (λ c, is_html_special c = false) (chars s).
Proof.
  induction s as [|c s IH]; intros H; [constructor|].
  cbn [AppHelpers.escapeHtml] in H.
  destruct (escape_char_cases c)
    as [[-> E]|[[-> E]|[[-> E]|[[-> E]|[[-> E]|[Hc E]]]]]];
    rewrite E in H; rewrite ?string_app_cons, ?string_app_nil_l in H;
    try discriminate H.
  - exfalso. injection H as H.
    pose proof (escapeHtml_length s) as Hl.
    rewrite <- H in Hl at 1. simpl in Hl. lia.
  - injection H as H. simpl. constructor; auto.
Qed.

(** X4. Escaping twice is the same as escaping once only for a text without
    any of the five characters: everywhere else the ampersands of the
    entities are escaped again. *)
Theorem escapeHtml_twice (s : string) :
  AppHelpers.escapeHtml (AppHelpers.escapeHtml s) = AppHelpers.escapeHtml s
  ↔ Forall (λ c, is_html_special c = false) (chars s).
Proof.
  split.
  - intros H. apply escapeHtml_inj in H. apply escapeHtml_fixed, H.
  - intros H. rewrite (escapeHtml_plain s H). apply escapeHtml_plain, H.
Qed.

End EscapeHtml.

Section TruncateText.

Lemma substring_length (n : nat) (s : string) :
  (n ≤ String.length s)%nat → String.length (String.substring 0 n s) = n.
Proof.
  revert s. induction n as [|n IH]; intros [|c s] H; simpl in *; try lia;
    try reflexivity.
  rewrite IH by lia. reflexivity.
Qed.

Lemma substring_app (s1 s2 : string) :
  String.substring 0 (String.length s1) (s1 +:+ s2) = s1.
Proof.
  induction s1 as [|c s1 IH].
  - destruct s2; reflexivity.
  - rewrite string_app_cons. simpl. rewrite IH. reflexivity.
Qed.

Lemma truncateText_length (text : option string) (maxLength : nat) :
  (String.length (AppHelpers.truncateText text maxLength) ≤ maxLength + 3)%nat.
Proof.
  destruct text as [text|]; simpl; [|lia].
  destruct (String.length text <=? maxLength)%nat eqn:E.
  - apply Nat.leb_le in E. lia.
  - apply Nat.leb_gt in E.
    rewrite string_length_app, substring_length by lia. simpl. lia.
Qed.

(** X5. A truncated text has at most [maxLength + 3] characters; a text that
    fits is left alone, a longer one keeps its first [maxLength]
    characters before the dots; and truncating again changes nothing. *)
Theorem truncateText_bounded (text : string) (maxLength : nat) :
  let t := AppHelpers.truncateText (Some text) maxLength in
  (String.length t ≤ maxLength + 3)%nat
  ∧ ((String.length text ≤ maxLength)%nat → t = text)
  ∧ ((maxLength < String.length text)%nat →
     t = String.substring 0 maxLength text +:+ "..."
     ∧ String.length t = (maxLength + 3)%nat)
  ∧ AppHelpers.truncateText (Some t) maxLength = t.
Proof.
  unfold AppHelpers.truncateText.
  destruct (String.length text <=? maxLength)%nat eqn:E.
  - apply Nat.leb_le in E. cbn zeta. rewrite (proj2 (Nat.leb_le _ _) E).
    repeat split; try lia; auto.
  - apply Nat.leb_gt in E. cbn zeta.
    assert (String.length (String.substring 0 maxLength text +:+ "...")
            = (maxLength + 3)%nat) as Hl.
    { rewrite string_length_app, substring_length by lia. reflexivity. }
    rewrite Hl.
    assert ((maxLength + 3 <=? maxLength)%nat = false) as ->
      by (apply Nat.leb_gt; lia).
    repeat split; try lia; auto.
    pose proof (substring_app (String.substring 0 maxLength text) "...") as H.
    rewrite substring_length in H by lia. rewrite H. reflexivity.
Qed.

End TruncateText.

Section OrgName.

Lemma is_hyphen_eq (c : ascii) : AppHelpers.is_hyphen c = true ↔ c = "-"%char.
Proof. apply Ascii.eqb_eq. Qed.

Lemma alnum_not_hyphen (c : ascii) :
  AppHelpers.is_alnum c = true → AppHelpers.is_hyphen c = false.
Proof.
  intros H. destruct (AppHelpers.is_hyphen c) eqn:E; [|reflexivity].
  apply is_hyphen_eq in E as ->. discriminate H.
Qed.

Lemma includes_cons (c : ascii) (s needle : string) :
  Js.includes (String c s) needle
  = Js.starts_with needle (String c s) || Js.includes s needle.
Proof. reflexivity. Qed.

Lemma hyphen_neq (c : ascii) :
  c ≠ "-"%char ↔ AppHelpers.is_hyphen c = false.
Proof.
  rewrite <- is_hyphen_eq. destruct (AppHelpers.is_hyphen c); split; congruence.
Qed.

Lemma some_hyphen_neq (c : ascii) :
  Some c ≠ Some "-"%char ↔ AppHelpers.is_hyphen c = false.
Proof.
  rewrite <- hyphen_neq. split; [intros H -> | intros H [= ->]]; auto.
Qed.

Lemma starts_with_two_hyphens (c : ascii) (rest : string) :
  Js.starts_with "--" (String c rest)
  = AppHelpers.is_hyphen c
    && match rest with
       | String d _ => AppHelpers.is_hyphen d
       | EmptyString => false
       end.
Proof.
  unfold AppHelpers.is_hyphen.
  destruct rest as [|d rest]; cbn [Js.starts_with].
  - rewrite !andb_false_r. reflexivity.
  - rewrite andb_true_r. f_equal; apply Ascii.eqb_sym.
Qed.

Lemma org_tail_rule (s : string) : ∀ n,
  AppHelpers.org_tail n s = true ↔
  (String.length s ≤ n)%nat
  ∧ Forall (λ c, name_char c = true) (chars s)
  ∧ last (chars s) ≠ Some "-"%char
  ∧ Js.includes s "--" = false.
Proof.
  induction s as [|c rest IH]; intros n.
  - simpl. split; [intros _|reflexivity].
    repeat split; [lia | constructor | discriminate].
  - destruct n as [|n].
    { simpl. split; [discriminate | intros (H & _); lia]. }
    cbn [AppHelpers.org_tail]. rewrite andb_true_iff, IH.
    rewrite includes_cons, starts_with_two_hyphens, orb_false_iff.
    cbn [String.length]. unfold name_char.
    destruct rest as [|d rest].
    + change (chars (String c "")) with [c]. change (chars "") with (@nil ascii).
      change (last [c]) with (Some c). rewrite some_hyphen_neq, Forall_cons.
      destruct (AppHelpers.is_alnum c) eqn:Ea;
        [rewrite (alnum_not_hyphen c Ea)|];
        destruct (AppHelpers.is_hyphen c); simpl;
        intuition (try discriminate; try lia; auto).
    + change (chars (String c (String d rest))) with (c :: d :: chars rest).
      change (chars (String d rest)) with (d :: chars rest).
      change (last (c :: d :: chars rest)) with (last (d :: chars rest)).
      rewrite !Forall_cons.
      destruct (AppHelpers.is_alnum c) eqn:Eac;
        [rewrite (alnum_not_hyphen c Eac)|];
        (destruct (AppHelpers.is_alnum d) eqn:Ead;
         [rewrite (alnum_not_hyphen d Ead)|]);
        destruct (AppHelpers.is_hyphen c), (AppHelpers.is_hyphen d); simpl;
        intuition (try discriminate; try lia; auto).
Qed.

(** X6. The organisation names the pattern accepts are those of GitHub's
    rule: 1 to 39 characters, each a letter, a digit or a hyphen, no hyphen
    at either end, no two hyphens in a row. *)
Theorem isValidGitHubOrg_rule (s : string) :
  AppHelpers.isValidGitHubOrg (Some s) = true ↔
  (1 ≤ String.length s ≤ 39)%nat
  ∧ Forall (λ c, name_char c = true) (chars s)
  ∧ head (chars s) ≠ Some "-"%char
  ∧ last (chars s) ≠ Some "-"%char
  ∧ Js.includes s "--" = false.
Proof.
  unfold AppHelpers.isValidGitHubOrg.
  destruct s as [|c rest].
  - simpl. split; [discriminate | intros ((H & _) & _); lia].
  - change (String.eqb (String c rest) "") with false.
    cbn [AppHelpers.GITHUB_ORG_test]. rewrite andb_true_iff, org_tail_rule.
    rewrite includes_cons, starts_with_two_hyphens, orb_false_iff.
    change (chars (String c rest)) with (c :: chars rest).
    cbn [String.length head]. rewrite some_hyphen_neq, Forall_cons.
    unfold name_char.
    destruct rest as [|d rest].
    + change (chars "") with (@nil ascii).
      change (last [c]) with (Some c). rewrite some_hyphen_neq.
      destruct (AppHelpers.is_alnum c) eqn:Ea;
        [rewrite (alnum_not_hyphen c Ea)|];
        destruct (AppHelpers.is_hyphen c); simpl;
        intuition (try discriminate; try lia; auto).
    + change (chars (String d rest)) with (d :: chars rest).
      change (last (c :: d :: chars rest)) with (last (d :: chars rest)).
      destruct (AppHelpers.is_alnum c) eqn:Ea;
        [rewrite (alnum_not_hyphen c Ea)|];
        destruct (AppHelpers.is_hyphen c), (AppHelpers.is_hyphen d); simpl;
        intuition (try discriminate; try lia; auto).
Qed.

End OrgName.

Section ErrorMessages.

(** X28. The messages of the two error helpers. The error that the
    assistance service's [_handleApiError] throws carries the status of
    the response; 401, 429, 500 and 503 each select their own fixed
    message, and every other status the [error] of the body or, without
    one, the generic message. [getErrorMessage] gives the network message
    for a missing error, for a [TypeError] and for a message that holds
    "Failed to fetch"; for any other error the fixed message of the
    statuses 401 and 429, and otherwise the error's own message, or the
    network message when that is empty. The five fixed messages are
    pairwise distinct. *)
Theorem transport_classification (r : Response) (j : JsonOutcome) :
  let e := AIService._handleApiError r j in
  Js.status e = Some (status r)
  ∧ (status r = 401 → Js.message e = APP_CONSTANTS.UNAUTHORIZED)
  ∧ (status r = 429 → Js.message e = APP_CONSTANTS.RATE_LIMITED)
  ∧ (status r = 500 →
     Js.message e = "AI service encountered an internal error. Please try again.")
  ∧ (status r = 503 →
     Js.message e = "AI service is temporarily unavailable. Please try again later.")
  ∧ (status r ∉ [401; 429; 500; 503] → Js.message e = raw_or_default j)
  ∧ AppHelpers.getErrorMessage None = APP_CONSTANTS.NETWORK_ERROR
  ∧ (∀ err, Js.name err = "TypeError"
            ∨ Js.includes (Js.message err) "Failed to fetch" = true →
       AppHelpers.getErrorMessage (Some err) = APP_CONSTANTS.NETWORK_ERROR)
  ∧ (∀ err, Js.name err ≠ "TypeError" →
            Js.includes (Js.message err) "Failed to fetch" = false →
       (Js.status err = Some 401 →
        AppHelpers.getErrorMessage (Some err) = APP_CONSTANTS.UNAUTHORIZED)
       ∧ (Js.status err = Some 429 →
          AppHelpers.getErrorMessage (Some err) = APP_CONSTANTS.RATE_LIMITED)
       ∧ (Js.status err ≠ Some 401 → Js.status err ≠ Some 429 →
          AppHelpers.getErrorMessage (Some err)
          = if String.eqb (Js.message err) "" then APP_CONSTANTS.NETWORK_ERROR
            else Js.message err))
  ∧ NoDup [APP_CONSTANTS.NETWORK_ERROR; APP_CONSTANTS.UNAUTHORIZED;
           APP_CONSTANTS.RATE_LIMITED;
           "AI service encountered an internal error. Please try again.";
           "AI service is temporarily unavailable. Please try again later."].
Proof.
  unfold AIService._handleApiError; simpl.
  split; [reflexivity|].
  split; [intros ->; reflexivity|].
  split; [intros ->; reflexivity|].
  split; [intros ->; reflexivity|].
  split; [intros ->; reflexivity|].
  split.
  { intros H. rewrite !not_elem_of_cons in H.
    destruct H as (H1 & H2 & H3 & H4 & _).
    apply Z.eqb_neq in H1, H2, H3, H4. rewrite H1, H2, H4, H3.
    destruct j; reflexivity. }
  split; [reflexivity|].
  split.
  { intros err H. unfold AppHelpers.getErrorMessage.
    destruct H as [-> | ->]; [reflexivity|]. rewrite orb_true_r. reflexivity. }
  split.
  { intros err Hn Hm. unfold AppHelpers.getErrorMessage.
    apply String.eqb_neq in Hn. rewrite Hn, Hm. simpl.
    split; [intros ->; reflexivity|].
    split; [intros ->; reflexivity|].
    intros H1 H2. rewrite !bool_decide_eq_false_2 by assumption. reflexivity. }
  apply (bool_decide_unpack _). vm_compute. exact I.
Qed.

End ErrorMessages.

Section Severity.

Lemma SEVERITY_ORDER_range (k : string) (v : Z) :
  APP_CONSTANTS.SEVERITY_ORDER k = Some v → 1 ≤ v ≤ 4.
Proof.
  unfold APP_CONSTANTS.SEVERITY_ORDER.
  repeat (destruct (String.eqb k _); [intros [= <-]; lia|]). discriminate.
Qed.

Lemma SEVERITY_ORDER_inj (k1 k2 : string) (v : Z) :
  APP_CONSTANTS.SEVERITY_ORDER k1 = Some v →
  APP_CONSTANTS.SEVERITY_ORDER k2 = Some v → k1 = k2.
Proof.
  unfold APP_CONSTANTS.SEVERITY_ORDER.
  destruct (String.eqb k1 "critical") eqn:E1; [apply String.eqb_eq in E1|];
  (destruct (String.eqb k1 "high") eqn:E2; [apply String.eqb_eq in E2|]);
  (destruct (String.eqb k1 "medium") eqn:E3; [apply String.eqb_eq in E3|]);
  (destruct (String.eqb k1 "low") eqn:E4; [apply String.eqb_eq in E4|]);
  (destruct (String.eqb k2 "critical") eqn:F1; [apply String.eqb_eq in F1|]);
  (destruct (String.eqb k2 "high") eqn:F2; [apply String.eqb_eq in F2|]);
  (destruct (String.eqb k2 "medium") eqn:F3; [apply String.eqb_eq in F3|]);
  (destruct (String.eqb k2 "low") eqn:F4; [apply String.eqb_eq in F4|]);
  intros [= <-] [=]; congruence.
Qed.

Lemma counted_snoc seen k c k' v :
  counted (seen ++ [(k, c)]) k' v ↔
  counted seen k' v
  ∨ (k' = k ∧ 0 < c ∧ APP_CONSTANTS.SEVERITY_ORDER k = Some v).
Proof.
  unfold counted. split.
  - intros (c' & Hin & Hc & Hv). apply elem_of_app in Hin as [Hin|Hin].
    + left. eauto.
    + apply list_elem_of_singleton in Hin. injection Hin as -> ->. auto.
  - intros [(c' & Hin & Hc & Hv)|(-> & Hc & Hv)].
    + exists c'. rewrite elem_of_app. auto.
    + exists c. rewrite elem_of_app, list_elem_of_singleton. auto.
Qed.

Lemma highest_step_inv seen acc k c :
  highest_inv seen acc →
  highest_inv (seen ++ [(k, c)]) (AppHelpers.highest_step acc (k, c)).
Proof.
  destruct acc as [h hv]. intros [Hmax Hh]. unfold AppHelpers.highest_step. simpl in *.
  destruct (APP_CONSTANTS.SEVERITY_ORDER k) as [v|] eqn:Ek.
  - destruct (0 <? c) eqn:Ec; simpl.
    + apply Z.ltb_lt in Ec. destruct (hv <? v) eqn:Ev.
      * apply Z.ltb_lt in Ev. split; simpl.
        -- intros k' v' [H|(-> & _ & H)]%counted_snoc.
           ++ specialize (Hmax _ _ H). lia.
           ++ rewrite Ek in H. injection H as ->. lia.
        -- right. apply counted_snoc. auto.
      * apply Z.ltb_ge in Ev. split; simpl.
        -- intros k' v' [H|(-> & _ & H)]%counted_snoc; [eauto|].
           rewrite Ek in H. injection H as ->. lia.
        -- destruct Hh as [Hh|Hh]; [auto|]. right. apply counted_snoc. auto.
    + apply Z.ltb_ge in Ec. split; simpl.
      * intros k' v' [H|(-> & Hc & _)]%counted_snoc; [eauto|lia].
      * destruct Hh as [Hh|Hh]; [auto|]. right. apply counted_snoc. auto.
  - split; simpl.
    + intros k' v' [H|(-> & _ & H)]%counted_snoc; [eauto|congruence].
    + destruct Hh as [Hh|Hh]; [auto|]. right. apply counted_snoc. auto.
Qed.

Lemma highest_fold_inv (entries : list (string * Z)) : ∀ seen acc,
  highest_inv seen acc →
  highest_inv (seen ++ entries) (fold_left AppHelpers.highest_step entries acc).
Proof.
  induction entries as [|[k c] entries IH]; intros seen acc H; simpl.
  - rewrite app_nil_r. exact H.
  - rewrite (cons_middle _ seen), app_assoc. apply IH, highest_step_inv, H.
Qed.

Lemma getHighestSeverity_fold (entries : list (string * Z)) :
  AppHelpers.getHighestSeverity (Some entries)
  = (fold_left AppHelpers.highest_step entries ("low", 0)).1.
Proof. reflexivity. Qed.

Lemma getHighestSeverity_spec (entries : list (string * Z)) :
  let r := AppHelpers.getHighestSeverity (Some entries) in
  (∃ vr, APP_CONSTANTS.SEVERITY_ORDER r = Some vr
         ∧ ∀ k v, counted entries k v → v ≤ vr)
  ∧ (r = "low" ∨ ∃ v, counted entries r v).
Proof.
  cbn zeta. rewrite getHighestSeverity_fold.
  assert (highest_inv [] ("low", 0)) as H0.
  { split; simpl; [|auto]. intros k v (c & Hin & _). inversion Hin. }
  pose proof (highest_fold_inv entries [] _ H0) as [Hmax Hh]. simpl in Hmax, Hh.
  destruct (fold_left AppHelpers.highest_step entries ("low", 0)) as [h hv]. simpl in *.
  destruct Hh as [[-> ->]|Hh].
  - split; [|auto]. exists 1. split; [reflexivity|].
    intros k v H. specialize (Hmax _ _ H). lia.
  - split; [|eauto]. exists hv. split; [|exact Hmax].
    destruct Hh as (c & _ & _ & H). exact H.
Qed.

(** X7. The result is the worst severity that has a positive count, or
    ["low"] when there is none; it does not depend on the order of the
    object's keys. *)
Theorem getHighestSeverity_worst (entries : list (string * Z)) :
  let r := AppHelpers.getHighestSeverity (Some entries) in
  (∃ vr, APP_CONSTANTS.SEVERITY_ORDER r = Some vr
         ∧ ∀ k v, counted entries k v → v ≤ vr)
  ∧ (r = "low" ∨ ∃ v, counted entries r v)
  ∧ ∀ entries', entries' ≡ₚ entries →
      AppHelpers.getHighestSeverity (Some entries') = r.
Proof.
  destruct (getHighestSeverity_spec entries) as [(vr & Hr & Hmax) Hh].
  cbn zeta. split; [eauto|]. split; [exact Hh|].
  intros entries' Hp.
  destruct (getHighestSeverity_spec entries') as [(vr' & Hr' & Hmax') Hh'].
  cbn zeta in *.
  assert (∀ k v, counted entries' k v ↔ counted entries k v) as Hc.
  { intros k v. unfold counted. split; intros (c & Hin & H); exists c;
      (split; [|exact H]); [rewrite <- Hp | rewrite Hp]; exact Hin. }
  set (r := AppHelpers.getHighestSeverity (Some entries)) in *.
  set (r' := AppHelpers.getHighestSeverity (Some entries')) in *.
  assert (vr' ≤ vr) as H1.
  { destruct Hh' as [E|(v & H)].
    - rewrite E in Hr'. injection Hr' as <-.
      apply SEVERITY_ORDER_range in Hr. lia.
    - pose proof H as (c & _ & _ & Hv). rewrite Hr' in Hv. injection Hv as <-.
      apply (Hmax r'), Hc, H. }
  assert (vr ≤ vr') as H2.
  { destruct Hh as [E|(v & H)].
    - rewrite E in Hr. injection Hr as <-.
      apply SEVERITY_ORDER_range in Hr'. lia.
    - pose proof H as (c & _ & _ & Hv). rewrite Hr in Hv. injection Hv as <-.
      apply (Hmax' r), Hc, H. }
  assert (vr = vr') as <- by lia.
  exact (SEVERITY_ORDER_inj _ _ _ Hr' Hr).
Qed.

End Severity.

Section Sorting.

Context {A : Type} (compare : A → A → Z) (f : A → Z).
Hypothesis compare_key : ∀ a b, compare a b ≤ 0 ↔ f a ≤ f b.

Lemma sort_insert_perm (x : A) (l : list A) :
  AppHelpers.sort_insert compare x l ≡ₚ x :: l.
Proof.
  induction l as [|y l IH]; simpl; [reflexivity|].
  destruct (compare x y <=? 0); [reflexivity|].
  rewrite IH. apply Permutation_swap.
Qed.

Lemma stable_sort_perm (l : list A) : AppHelpers.stable_sort compare l ≡ₚ l.
Proof.
  induction l as [|x l IH]; simpl; [reflexivity|].
  unfold AppHelpers.stable_sort in *. simpl. rewrite sort_insert_perm, IH.
  reflexivity.
Qed.

Lemma sort_insert_sorted (x : A) (l : list A) :
  Sorted (λ a b, f a ≤ f b) l →
  Sorted (λ a b, f a ≤ f b) (AppHelpers.sort_insert compare x l).
Proof.
  induction l as [|y l IH]; intros Hs; simpl.
  - repeat constructor.
  - destruct (compare x y <=? 0) eqn:E.
    + apply Z.leb_le, compare_key in E. constructor; [exact Hs|].
      constructor. exact E.
    + apply Z.leb_gt in E.
      assert (f y ≤ f x) as Hyx.
      { destruct (Z.le_gt_cases (f x) (f y)) as [H|H]; [|lia].
        apply compare_key in H. lia. }
      inversion Hs as [|? ? Hl Hhd]; subst.
      constructor; [apply IH, Hl|].
      destruct l as [|z l]; simpl.
      * constructor. exact Hyx.
      * destruct (compare x z <=? 0); constructor; [exact Hyx|].
        inversion Hhd; subst. assumption.
Qed.

Lemma stable_sort_sorted (l : list A) :
  Sorted (λ a b, f a ≤ f b) (AppHelpers.stable_sort compare l).
Proof.
  induction l as [|x l IH]; [constructor|].
  apply sort_insert_sorted, IH.
Qed.

Lemma sort_insert_keyed (k : Z) (x : A) (l : list A) :
  keyed f k (AppHelpers.sort_insert compare x l) = keyed f k (x :: l).
Proof.
  induction l as [|y l IH]; [reflexivity|].
  cbn [AppHelpers.sort_insert].
  destruct (compare x y <=? 0) eqn:E; [reflexivity|].
  apply Z.leb_gt in E.
  assert (f x ≠ f y) as Hxy.
  { intros H. assert (f x ≤ f y) as H' by lia. apply compare_key in H'. lia. }
  unfold keyed in *. cbn [List.filter] in *. rewrite IH.
  destruct (f y =? k) eqn:Ey, (f x =? k) eqn:Ex; try reflexivity.
  apply Z.eqb_eq in Ey, Ex. lia.
Qed.

Lemma stable_sort_keyed (k : Z) (l : list A) :
  keyed f k (AppHelpers.stable_sort compare l) = keyed f k l.
Proof.
  induction l as [|x l IH]; [reflexivity|].
  unfold AppHelpers.stable_sort in *. simpl. rewrite sort_insert_keyed.
  unfold keyed in *. simpl. rewrite IH. reflexivity.
Qed.

Lemma keyed_nil (l : list A) : (∀ k, keyed f k l = []) → l = [].
Proof.
  destruct l as [|x l]; [reflexivity|]. intros H. specialize (H (f x)).
  unfold keyed in H. simpl in H. rewrite Z.eqb_refl in H. discriminate H.
Qed.

Lemma sorted_head_min (x : A) (l : list A) :
  Sorted (λ a b, f a ≤ f b) (x :: l) → ∀ y, y ∈ l → f x ≤ f y.
Proof.
  intros Hs. apply Sorted_StronglySorted in Hs.
  - inversion Hs as [|? ? _ Hall]; subst. intros y Hy.
    rewrite List.Forall_forall in Hall. apply Hall, list_elem_of_In, Hy.
  - intros a b c ? ?. lia.
Qed.

Lemma keyed_elem (k : Z) (y : A) (l : list A) :
  y ∈ keyed f k l → y ∈ l ∧ f y = k.
Proof.
  unfold keyed. rewrite list_elem_of_In, List.filter_In, Z.eqb_eq,
    <- list_elem_of_In. auto.
Qed.

(** A list is fixed by the order of its keys and by the order within
    each key. *)
Lemma sorted_stable_unique (l1 : list A) : ∀ l2,
  Sorted (λ a b, f a ≤ f b) l1 → Sorted (λ a b, f a ≤ f b) l2 →
  (∀ k, keyed f k l1 = keyed f k l2) → l1 = l2.
Proof.
  induction l1 as [|x l1 IH]; intros l2 H1 H2 Hk.
  - symmetry. apply keyed_nil. intros k. rewrite <- Hk. reflexivity.
  - destruct l2 as [|y l2].
    { apply keyed_nil. intros k. rewrite Hk. reflexivity. }
    assert (f x = f y) as Hxy.
    { apply Z.le_antisymm.
      - pose proof (Hk (f y)) as E. unfold keyed in E. simpl in E.
        rewrite Z.eqb_refl in E.
        destruct (f x =? f y) eqn:Ex; [apply Z.eqb_eq in Ex; lia|].
        assert (y ∈ keyed f (f y) l1) as Hy by (unfold keyed; rewrite E; left).
        apply keyed_elem in Hy as [Hy _].
        apply (sorted_head_min _ _ H1), Hy.
      - pose proof (Hk (f x)) as E. unfold keyed in E. simpl in E.
        rewrite Z.eqb_refl in E.
        destruct (f y =? f x) eqn:Ey; [apply Z.eqb_eq in Ey; lia|].
        assert (x ∈ keyed f (f x) l2) as Hx by (unfold keyed; rewrite <- E; left).
        apply keyed_elem in Hx as [Hx _].
        apply (sorted_head_min _ _ H2), Hx. }
    assert (x = y) as <-.
    { pose proof (Hk (f x)) as E. unfold keyed in E. simpl in E.
      rewrite <- Hxy, Z.eqb_refl in E. congruence. }
    f_equal. apply IH.
    + inversion H1; assumption.
    + inversion H2; assumption.
    + intros k. specialize (Hk k). unfold keyed in *. simpl in Hk.
      destruct (f x =? k); congruence.
Qed.

(** The stable sort by a key: the result is a rearrangement of the
    input, in the order of the keys, with equal keys left in their order,
    and it is the only such list. *)
Lemma stable_sort_stable (l : list A) :
  AppHelpers.stable_sort compare l ≡ₚ l
  ∧ Sorted (λ a b, f a ≤ f b) (AppHelpers.stable_sort compare l)
  ∧ (∀ k, keyed f k (AppHelpers.stable_sort compare l) = keyed f k l)
  ∧ ∀ l', Sorted (λ a b, f a ≤ f b) l' → (∀ k, keyed f k l' = keyed f k l) →
          l' = AppHelpers.stable_sort compare l.
Proof.
  split; [apply stable_sort_perm|]. split; [apply stable_sort_sorted|].
  split; [intros k; apply stable_sort_keyed|].
  intros l' Hs Hk. apply sorted_stable_unique; [exact Hs|apply stable_sort_sorted|].
  intros k. rewrite Hk, stable_sort_keyed. reflexivity.
Qed.

End Sorting.

Section ArraySort.

Context {A : Type} (engine : AppHelpers.Arrangement A).
Context (compare : A → A → option Z) (f : A → Z).
Hypothesis compare_key : ∀ a b v, compare a b = Some v → (v ≤ 0 ↔ f a ≤ f b).

Lemma sort_insert_ext (c1 c2 : A → A → Z) (x : A) (l : list A) :
  (∀ y, y ∈ l → (c1 x y <=? 0) = (c2 x y <=? 0)) →
  AppHelpers.sort_insert c1 x l = AppHelpers.sort_insert c2 x l.
Proof.
  induction l as [|y l IH]; intros H; [reflexivity|].
  cbn [AppHelpers.sort_insert]. rewrite (H y) by left.
  rewrite IH; [reflexivity|]. intros z Hz. apply H. right. exact Hz.
Qed.

Lemma stable_sort_ext (c1 c2 : A → A → Z) (l : list A) :
  (∀ a b, a ∈ l → b ∈ l → (c1 a b <=? 0) = (c2 a b <=? 0)) →
  AppHelpers.stable_sort c1 l = AppHelpers.stable_sort c2 l.
Proof.
  induction l as [|x l IH]; intros H; [reflexivity|].
  unfold AppHelpers.stable_sort in *. cbn [foldr].
  rewrite IH by (intros a b Ha Hb; apply H; right; assumption).
  apply sort_insert_ext. intros y Hy. apply H; [left|right].
  pose proof (stable_sort_perm c2 l) as Hp.
  unfold AppHelpers.stable_sort in Hp. rewrite <- Hp. exact Hy.
Qed.

Lemma comparable_spec (l : list A) :
  AppHelpers.comparable compare l = true
  ↔ ∀ a b, a ∈ l → b ∈ l → ∃ v, compare a b = Some v.
Proof.
  unfold AppHelpers.comparable. rewrite List.forallb_forall. split.
  - intros H a b Ha Hb. apply list_elem_of_In in Ha, Hb.
    specialize (H a Ha). rewrite List.forallb_forall in H.
    specialize (H b Hb). destruct (compare a b) as [v|]; [eauto|discriminate H].
  - intros H a Ha. apply List.forallb_forall. intros b Hb.
    apply list_elem_of_In in Ha, Hb. destruct (H a b Ha Hb) as [v ->].
    reflexivity.
Qed.

Lemma Array_sort_perm (l : list A) : AppHelpers.Array_sort engine compare l ≡ₚ l.
Proof.
  unfold AppHelpers.Array_sort. destruct (AppHelpers.comparable compare l).
  - apply stable_sort_perm.
  - apply AppHelpers.arrange_perm.
Qed.

Lemma Array_sort_by_key (l : list A) :
  AppHelpers.comparable compare l = true →
  AppHelpers.Array_sort engine compare l
  = AppHelpers.stable_sort (λ a b, f a - f b) l.
Proof.
  intros Hc. unfold AppHelpers.Array_sort. rewrite Hc.
  apply stable_sort_ext. intros a b Ha Hb.
  destruct (proj1 (comparable_spec l) Hc a b Ha Hb) as [v Hv].
  rewrite Hv. simpl. pose proof (compare_key a b v Hv) as Hk.
  destruct (v <=? 0) eqn:E1, (f a - f b <=? 0) eqn:E2; try reflexivity;
    try apply Z.leb_le in E1; try apply Z.leb_le in E2;
    try apply Z.leb_gt in E1; try apply Z.leb_gt in E2; lia.
Qed.

(** [Array.prototype.sort] with a comparator that orders the elements by
    a key. *)
Lemma Array_sort_stable (l : list A) :
  AppHelpers.comparable compare l = true →
  Sorted (λ a b, f a ≤ f b) (AppHelpers.Array_sort engine compare l)
  ∧ (∀ k, keyed f k (AppHelpers.Array_sort engine compare l) = keyed f k l)
  ∧ ∀ l', Sorted (λ a b, f a ≤ f b) l' → (∀ k, keyed f k l' = keyed f k l) →
          l' = AppHelpers.Array_sort engine compare l.
Proof.
  intros Hc. rewrite (Array_sort_by_key l Hc).
  destruct (stable_sort_stable (λ a b, f a - f b) f
              ltac:(intros a b; lia) l) as (_ & Hs & Hk & Hu).
  auto.
Qed.

End ArraySort.

Section SortRepos.

Lemma keyed_neg {A} (f : A → Z) (k : Z) (l : list A) :
  keyed (λ a, - f a) (- k) l = List.filter (λ a, f a =? k) l.
Proof.
  unfold keyed. apply List.filter_ext. intros a.
  destruct (f a =? k) eqn:E.
  - apply Z.eqb_eq in E. apply Z.eqb_eq. lia.
  - apply Z.eqb_neq in E. apply Z.eqb_neq. lia.
Qed.

Lemma Sorted_neg {A} (f : A → Z) (l : list A) :
  Sorted (λ a b, - f a ≤ - f b) l ↔ Sorted (λ a b, f b ≤ f a) l.
Proof.
  induction l as [|x l IH]; [split; constructor|].
  split; intros H; inversion H as [|? ? Hl Hhd]; subst;
    (constructor; [apply IH, Hl|]);
    (destruct Hhd; constructor; lia).
Qed.

Lemma inherited_spec (s : string) :
  AppHelpers.inherited s = false ↔ s ∉ AppHelpers.Object_prototype.
Proof.
  unfold AppHelpers.inherited. split.
  - intros H Hin. apply list_elem_of_In in Hin.
    assert (existsb (String.eqb s) AppHelpers.Object_prototype = true) as E.
    { apply List.existsb_exists. exists s. split; [exact Hin|apply String.eqb_refl]. }
    congruence.
  - intros H. destruct (existsb _ _) eqn:E; [|reflexivity].
    apply List.existsb_exists in E as (x & Hin & Hx).
    apply String.eqb_eq in Hx as <-. apply list_elem_of_In in Hin. contradiction.
Qed.

(** The rank of a plain severity is a number. *)
Lemma plain_rank (severity : option string) :
  plain severity → AppHelpers.severity_rank severity = Some (rank_of severity).
Proof.
  intros H. unfold rank_of, AppHelpers.severity_rank.
  destruct severity as [s|]; [|reflexivity].
  destruct (APP_CONSTANTS.SEVERITY_ORDER s); [reflexivity|].
  rewrite (proj2 (inherited_spec s) (H s eq_refl)). reflexivity.
Qed.

(** The rank of a severity that names an inherited property is none. *)
Lemma inherited_rank (s : string) :
  s ∈ AppHelpers.Object_prototype → AppHelpers.severity_rank (Some s) = None.
Proof.
  intros H. apply list_elem_of_In in H. simpl in H.
  repeat (destruct H as [<-|H]; [reflexivity|]). destruct H.
Qed.

Lemma repos_comparable (repos : list Repo) :
  Forall (λ r, plain (repo_severity r)) repos →
  AppHelpers.comparable
    (λ a b, AppHelpers.minus (AppHelpers.severity_rank (repo_severity b))
                             (AppHelpers.severity_rank (repo_severity a)))
    repos = true.
Proof.
  intros H. apply comparable_spec. intros a b Ha Hb.
  rewrite List.Forall_forall in H.
  rewrite (plain_rank _ (H a (proj1 (list_elem_of_In _ _) Ha))),
          (plain_rank _ (H b (proj1 (list_elem_of_In _ _) Hb))).
  eauto.
Qed.

Lemma repos_compare_key (a b : Repo) (v : Z) :
  AppHelpers.minus (AppHelpers.severity_rank (repo_severity b))
                   (AppHelpers.severity_rank (repo_severity a)) = Some v →
  v ≤ 0 ↔ - repo_rank a ≤ - repo_rank b.
Proof.
  unfold repo_rank, rank_of.
  destruct (AppHelpers.severity_rank (repo_severity b)),
           (AppHelpers.severity_rank (repo_severity a)); simpl;
    intros [= <-] || intros [=]. lia.
Qed.

(** X8. [sortReposBySeverity] keeps all the repositories, whatever the
    engine does with an array that the comparator does not order. Where
    no severity names a property inherited from [Object.prototype] (for
    such a name [severityOrder[name]] is no number and the comparator gives
    NaN), it puts the repositories in the order of their severity, worst
    first, with those of unknown severity last; repositories of equal
    severity stay in the order they came in; and no other arrangement has
    these properties. *)
Theorem sortReposBySeverity_stable
    (engine : AppHelpers.Arrangement Repo) (repos : list Repo) :
  let sorted := AppHelpers.sortReposBySeverity engine repos in
  sorted ≡ₚ repos
  ∧ (Forall (λ r, plain (repo_severity r)) repos →
     Sorted (λ a b, repo_rank b ≤ repo_rank a) sorted
     ∧ (∀ k, List.filter (λ r, repo_rank r =? k) sorted
             = List.filter (λ r, repo_rank r =? k) repos)
     ∧ ∀ l, Sorted (λ a b, repo_rank b ≤ repo_rank a) l →
            (∀ k, List.filter (λ r, repo_rank r =? k) l
                  = List.filter (λ r, repo_rank r =? k) repos) →
            l = sorted).
Proof.
  cbn zeta. split; [apply Array_sort_perm|]. intros Hplain.
  destruct (Array_sort_stable engine _ (λ r, - repo_rank r) repos_compare_key
              repos (repos_comparable repos Hplain)) as (Hs & Hk & Hu).
  fold (AppHelpers.sortReposBySeverity engine repos) in Hs, Hk, Hu.
  split; [apply Sorted_neg, Hs|]. split.
  - intros k. rewrite <- !keyed_neg. apply Hk.
  - intros l Hl Hkl. apply Hu; [apply Sorted_neg, Hl|].
    intros k. replace k with (- - k) by lia. rewrite !keyed_neg. apply Hkl.
Qed.

End SortRepos.

(** * The API service *)

Section ApiSingleFlight.

Lemma api_live_app cs1 cs2 : api_live (cs1 ++ cs2) = (api_live cs1 + api_live cs2)%nat.
Proof. unfold api_live. rewrite List.filter_app, length_app. reflexivity. Qed.

Lemma api_live_insert cs i c c' :
  cs !! i = Some c →
  (api_live (<[i := c']> cs) + (if GitHubApiService.in_flight c then 1 else 0)
   = api_live cs + (if GitHubApiService.in_flight c' then 1 else 0))%nat.
Proof.
  revert i. induction cs as [|x cs IH]; intros [|i] H; try discriminate H.
  - injection H as ->. unfold api_live. simpl.
    destruct (GitHubApiService.in_flight c), (GitHubApiService.in_flight c');
      simpl; lia.
  - simpl in H. specialize (IH _ H). unfold api_live in *. simpl.
    destruct (GitHubApiService.in_flight x); simpl; lia.
Qed.

Lemma started_tracks sys r :
  loading_tracks_calls sys →
  (GitHubApiService.isLoading (Api.service sys) = true →
   r.1.1 = Api.service sys ∧ GitHubApiService.in_flight r.1.2 = false) →
  (GitHubApiService.isLoading (Api.service sys) = false →
   (r.1.1 = Api.service sys ∧ GitHubApiService.in_flight r.1.2 = false)
   ∨ (GitHubApiService.isLoading r.1.1 = true
      ∧ GitHubApiService.in_flight r.1.2 = true)) →
  loading_tracks_calls (Api.started sys r).
Proof.
  destruct r as [[svc c] fs]. unfold loading_tracks_calls. simpl.
  intros H Hbusy Hidle. rewrite api_live_app. unfold api_live at 2. simpl.
  destruct (GitHubApiService.isLoading (Api.service sys)) eqn:E.
  - destruct (Hbusy eq_refl) as [-> ->]. rewrite E. simpl. lia.
  - destruct (Hidle eq_refl) as [[-> ->]|[-> ->]]; [rewrite E|]; simpl; lia.
Qed.

Lemma step_loading_tracks_calls sys a sys' :
  loading_tracks_calls sys → Api.step sys a = Some sys' →
  loading_tracks_calls sys'.
Proof.
  intros H Hs. destruct a as [o q|name ids|i s]; simpl in Hs.
  - injection Hs as <-. apply started_tracks; [exact H| |];
      unfold GitHubApiService.searchRepositories; intros ->; simpl; [auto|].
    destruct (negb (Js.truthy o) || negb (Js.truthy q)); [auto|].
    destruct (negb (AppHelpers.isValidGitHubOrg o)); simpl; auto.
  - injection Hs as <-. apply started_tracks; [exact H| |];
      unfold GitHubApiService.loadSecurityAlerts; intros ->; simpl; [auto|].
    destruct (negb (Js.truthy name)); [auto|].
    destruct (negb (Js.includes (default "" name) "/")); simpl; auto.
  - destruct (Api.calls sys !! i) as [c|] eqn:Ei; [|discriminate].
    destruct (GitHubApiService.resume (Api.service sys) c s)
      as [[[svc c'] fs]|] eqn:Er; [|discriminate].
    injection Hs as <-. unfold loading_tracks_calls in *. simpl.
    pose proof (api_live_insert _ _ _ c' Ei) as Hl.
    assert (GitHubApiService.in_flight c = true) as Hc.
    { destruct c; try reflexivity. destruct s; discriminate Er. }
    rewrite Hc in Hl.
    assert (api_live (Api.calls sys) ≥ 1)%nat as Hge.
    { clear -Ei Hc. revert i Ei. induction (Api.calls sys) as [|x l IH];
        intros [|i] Ei; try discriminate Ei; unfold api_live in *; simpl in *.
      - injection Ei as ->. rewrite Hc. simpl. lia.
      - specialize (IH _ Ei). destruct (GitHubApiService.in_flight x); simpl; lia. }
    destruct (GitHubApiService.isLoading (Api.service sys)) eqn:E; [|lia].
    assert ((svc = Api.service sys ∧ GitHubApiService.in_flight c' = true)
            ∨ (svc = GitHubApiService.idle ∧ GitHubApiService.in_flight c' = false))
      as [[-> Hc']|[-> Hc']].
    { destruct c as [m|r|m|res], s as [r'|e|j|d engine]; try discriminate Er;
        simpl in Er.
      - destruct (ok r'); injection Er as <- <- <-; auto.
      - injection Er as <- <- <-. auto.
      - injection Er as <- <- <-. auto.
      - unfold GitHubApiService.on_body in Er.
        destruct d as [e| |rs sm|items], m as [|ids];
          try (injection Er as <- <- <-; auto).
        destruct (GitHubApiService.process_all ids 0 items);
          injection Er as <- <- <-; auto. }
    + rewrite E, Hc' in *. lia.
    + rewrite Hc' in Hl. simpl. lia.
Qed.

Lemma run_loading_tracks_calls actions : ∀ sys sys',
  loading_tracks_calls sys → Api.run sys actions = Some sys' →
  loading_tracks_calls sys'.
Proof.
  induction actions as [|a actions IH]; intros sys sys' H Hr; simpl in Hr.
  - injection Hr as <-. exact H.
  - destruct (Api.step sys a) as [sys1|] eqn:Es; [|discriminate].
    eapply IH; [|exact Hr]. eapply step_loading_tracks_calls; eauto.
Qed.

(** X9. However the calls of [searchRepositories] and [loadSecurityAlerts]
    and the settlements of their promises interleave, at most one call
    is in flight, and [isLoading] tells whether one is. *)
Theorem api_single_flight (actions : list Api.Action) (sys : Api.t) :
  Api.run Api.init actions = Some sys →
  (api_live (Api.calls sys) ≤ 1)%nat
  ∧ (GitHubApiService.isRequestInProgress (Api.service sys) = true
     ↔ api_live (Api.calls sys) = 1%nat).
Proof.
  intros Hr.
  assert (loading_tracks_calls sys) as H.
  { eapply run_loading_tracks_calls; [|exact Hr]. reflexivity. }
  unfold loading_tracks_calls in H. unfold GitHubApiService.isRequestInProgress.
  destruct (GitHubApiService.isLoading (Api.service sys)); rewrite H;
    (split; [lia|]); split; intros; try reflexivity; try discriminate; lia.
Qed.

End ApiSingleFlight.


Section ApiResults.

Lemma getErrorMessage_nonempty (e : option Js.Error) :
  AppHelpers.getErrorMessage e ≠ "".
Proof.
  unfold AppHelpers.getErrorMessage. destruct e as [e|]; [|discriminate].
  repeat (match goal with |- context [if ?b then _ else _] =>
            destruct b eqn:?; try discriminate end).
  intros H. rewrite H in *. discriminate.
Qed.

Lemma new_Error_plain (msg : string) : msg ≠ "" → plain_error (Js.new_Error msg).
Proof. intros H. repeat split. exact H. Qed.

Lemma catch_finally_settled_well (e : Js.Error) :
  settled_well (GitHubApiService.catch_finally e).1.2.
Proof. apply new_Error_plain, getErrorMessage_nonempty. Qed.

Lemma is_level_defaulted (f : RawField) :
  let severity := GitHubApiService.defaulted f "low" in
  GitHubApiService.is_level
    (if GitHubApiService.is_level severity then severity else Some "low") = true.
Proof.
  cbn zeta.
  destruct (GitHubApiService.is_level (GitHubApiService.defaulted f "low")) eqn:E;
    [exact E|reflexivity].
Qed.

Lemma _processAlert_well_formed alert id a :
  GitHubApiService._processAlert alert id = inr a → well_formed_alert a.
Proof.
  destruct alert as [raw|]; [|discriminate]. intros [= <-]. split; simpl.
  - apply is_level_defaulted.
  - eexists. split; [reflexivity|]. apply (truncateText_length _ 80).
Qed.

Lemma process_all_well_formed ids items : ∀ i alerts,
  GitHubApiService.process_all ids i items = inr alerts →
  Forall well_formed_alert alerts ∧ length alerts = length items.
Proof.
  induction items as [|x items IH]; intros i alerts H; simpl in H.
  - injection H as <-. auto.
  - destruct (GitHubApiService._processAlert x (ids i)) as [e|a] eqn:Ea;
      [discriminate|].
    destruct (GitHubApiService.process_all ids (S i) items) as [e|others] eqn:Eo;
      [discriminate|].
    injection H as <-. destruct (IH _ _ Eo) as [Hf Hl]. split.
    + constructor; [eapply _processAlert_well_formed, Ea|exact Hf].
    + simpl. rewrite Hl. reflexivity.
Qed.

Lemma process_all_error ids items : ∀ i e,
  GitHubApiService.process_all ids i items = inl e →
  e = Js.new_Error "Invalid alert data" ∧ None ∈ items.
Proof.
  induction items as [|x items IH]; intros i e H; simpl in H; [discriminate|].
  destruct x as [raw|].
  - simpl in H.
    destruct (GitHubApiService.process_all ids (S i) items) as [e'|others] eqn:Eo;
      [|discriminate].
    injection H as <-. destruct (IH _ _ Eo) as [-> Hin]. split; [reflexivity|].
    right. exact Hin.
  - simpl in H. injection H as <-. split; [reflexivity|left].
Qed.

Lemma sortRepos_sorted (engine : AppHelpers.Arrangement Repo) (l : list Repo) :
  Forall (λ r, plain (repo_severity r)) (AppHelpers.sortReposBySeverity engine l) →
  Sorted (λ a b, repo_rank b ≤ repo_rank a) (AppHelpers.sortReposBySeverity engine l).
Proof.
  intros H.
  assert (Forall (λ r, plain (repo_severity r)) l) as Hl.
  { rewrite Forall_forall in *. intros r Hr. apply H.
    unfold AppHelpers.sortReposBySeverity. rewrite Array_sort_perm. exact Hr. }
  apply Sorted_neg.
  apply (Array_sort_stable engine _ (λ r, - repo_rank r) repos_compare_key l
           (repos_comparable l Hl)).
Qed.

Lemma on_body_settled_well m d engine :
  settled_well (GitHubApiService.on_body m d engine).1.2.
Proof.
  unfold GitHubApiService.on_body.
  destruct d as [e| |rs sm|items], m as [|ids];
    try apply catch_finally_settled_well; simpl; try apply sortRepos_sorted;
    try constructor.
  destruct (GitHubApiService.process_all ids 0 items) as [e|alerts] eqn:E.
  - apply catch_finally_settled_well.
  - simpl. apply (process_all_well_formed _ _ _ _ E).
Qed.

Lemma resume_settled_well svc c s svc' c' fs :
  GitHubApiService.resume svc c s = Some (svc', c', fs) → settled_well c'.
Proof.
  destruct c as [m|r|m|res], s as [r'|e|j|d engine]; try discriminate;
    unfold GitHubApiService.resume.
  - destruct (ok r'); intros [= <- <- <-]; exact I.
  - intros H.
    assert (c' = (GitHubApiService.catch_finally e).1.2) as ->
      by (injection H as _ Hc _; symmetry; exact Hc).
    apply catch_finally_settled_well.
  - intros H.
    assert (c' = (GitHubApiService.catch_finally
                    (GitHubApiService._handleApiError r j)).1.2) as ->
      by (injection H as _ Hc _; symmetry; exact Hc).
    apply catch_finally_settled_well.
  - intros H. pose proof (on_body_settled_well m d engine) as Hw.
    destruct (GitHubApiService.on_body m d engine) as [[? ?] ?].
    injection H as <- <- <-. exact Hw.
Qed.

Lemma searchRepositories_settled_well svc o q :
  settled_well (GitHubApiService.searchRepositories svc o q).1.2.
Proof.
  unfold GitHubApiService.searchRepositories.
  repeat (match goal with |- context [if ?b then _ else _] => destruct b end);
    simpl; try exact I; apply new_Error_plain; discriminate.
Qed.

Lemma loadSecurityAlerts_settled_well svc name ids :
  settled_well (GitHubApiService.loadSecurityAlerts svc name ids).1.2.
Proof.
  unfold GitHubApiService.loadSecurityAlerts.
  repeat (match goal with |- context [if ?b then _ else _] => destruct b end);
    simpl; try exact I; apply new_Error_plain; discriminate.
Qed.

Lemma step_settled_well sys a sys' :
  Forall settled_well (Api.calls sys) → Api.step sys a = Some sys' →
  Forall settled_well (Api.calls sys').
Proof.
  intros H Hs. destruct a as [o q|name ids|i s]; simpl in Hs.
  - injection Hs as <-.
    pose proof (searchRepositories_settled_well (Api.service sys) o q) as Hw.
    destruct (GitHubApiService.searchRepositories _ _ _) as [[? ?] ?]. simpl.
    apply Forall_app. split; [exact H|]. constructor; [exact Hw|constructor].
  - injection Hs as <-.
    pose proof (loadSecurityAlerts_settled_well (Api.service sys) name ids) as Hw.
    destruct (GitHubApiService.loadSecurityAlerts _ _ _) as [[? ?] ?]. simpl.
    apply Forall_app. split; [exact H|]. constructor; [exact Hw|constructor].
  - destruct (Api.calls sys !! i) as [c|] eqn:Ei; [|discriminate].
    destruct (GitHubApiService.resume (Api.service sys) c s)
      as [[[svc c'] fs]|] eqn:Er; [|discriminate].
    injection Hs as <-. simpl. apply Forall_insert; [exact H|].
    eapply resume_settled_well, Er.
Qed.

Lemma run_settled_well actions : ∀ sys sys',
  Forall settled_well (Api.calls sys) → Api.run sys actions = Some sys' →
  Forall settled_well (Api.calls sys').
Proof.
  induction actions as [|a actions IH]; intros sys sys' H Hr; simpl in Hr.
  - injection Hr as <-. exact H.
  - destruct (Api.step sys a) as [sys1|] eqn:Es; [|discriminate].
    eapply IH; [|exact Hr]. eapply step_settled_well; eauto.
Qed.

(** X10. Whatever a call of the API service is rejected with, it is a plain
    [Error] with a message to show and without a status: the errors of
    the transport are replaced by [getErrorMessage]'s text, which is never
    empty. *)
Theorem api_rejections_are_plain (actions : list Api.Action) (sys : Api.t)
    (i : nat) (e : Js.Error) :
  Api.run Api.init actions = Some sys →
  Api.calls sys !! i = Some (GitHubApiService.Returned (inl e)) →
  Js.name e = "Error" ∧ Js.message e ≠ "" ∧ Js.status e = None.
Proof.
  intros Hr Hi.
  assert (Forall settled_well (Api.calls sys)) as H.
  { eapply run_settled_well; [|exact Hr]. constructor. }
  rewrite Forall_lookup in H. exact (H _ _ Hi).
Qed.

(** X11. What the API service resolves a call with is ready for display: the
    repositories are in the order of their severity, worst first, where
    none of them has a severity that names a property inherited from
    [Object.prototype] (with such a name the comparator gives NaN and the
    order is the engine's); every alert has one of the four severities and
    a title of at most 83 characters. *)
Theorem api_results_are_well_formed (actions : list Api.Action) (sys : Api.t)
    (i : nat) (r : GitHubApiService.Result) :
  Api.run Api.init actions = Some sys →
  Api.calls sys !! i = Some (GitHubApiService.Returned (inr r)) →
  match r with
  | GitHubApiService.Repositories data =>
      Forall (λ r, plain (repo_severity r)) (GitHubApiService.repos data) →
      Sorted (λ a b, repo_rank b ≤ repo_rank a) (GitHubApiService.repos data)
  | GitHubApiService.Alerts alerts =>
      Forall (λ a, GitHubApiService.is_level (severity a) = true
                   ∧ ∃ v, vulnerability a = Some v ∧ (String.length v ≤ 83)%nat)
             alerts
  end.
Proof.
  intros Hr Hi.
  assert (Forall settled_well (Api.calls sys)) as H.
  { eapply run_settled_well; [|exact Hr]. constructor. }
  rewrite Forall_lookup in H. exact (H _ _ Hi).
Qed.

End ApiResults.

Section SearchParams.

(** X13. On arguments that are trimmed, as [handleSearchClick] passes them,
    [validateSearchParams] accepts exactly what [searchRepositories] on an
    idle service sends a request for. *)
Theorem validateSearchParams_matches_guards (trim : string → string)
    (organization query : option string) :
  trim <$> organization = organization → trim <$> query = query →
  (GitHubApiService.isValid
     (GitHubApiService.validateSearchParams trim organization query) = true
   ↔ GitHubApiService.searchRepositories GitHubApiService.idle organization query
     = ({| GitHubApiService.isLoading := true |},
        GitHubApiService.AwaitFetch GitHubApiService.Search,
        [GitHubApiService.GetSearch (default "" organization) (default "" query)])).
Proof.
  intros Ho Hq.
  unfold GitHubApiService.validateSearchParams,
    GitHubApiService.searchRepositories, GitHubApiService.blank.
  rewrite Ho. cbn [GitHubApiService.isLoading GitHubApiService.idle].
  destruct organization as [o|], query as [q|]; cbn [fmap option_fmap option_map] in *.
  all: try (injection Ho as Ho; rewrite Ho).
  all: try (injection Hq as Hq; rewrite Hq).
  all: cbn [Js.truthy]; rewrite ?orb_diag.
  all: try destruct (String.eqb o "") eqn:Eo;
       try destruct (String.eqb q "") eqn:Eq;
       cbn [negb orb andb app GitHubApiService.isValid]; try (split; discriminate).
  destruct (AppHelpers.isValidGitHubOrg (Some o));
    cbn [negb app GitHubApiService.isValid]; split; try discriminate; reflexivity.
Qed.

End SearchParams.

Section ProcessedAlerts.

Lemma truthy_of_text o : Dynamic.truthy (of_text o) = Js.truthy o.
Proof. destruct o; reflexivity. Qed.

Lemma or_default_of_text o d :
  Dynamic.or_default (of_text o) d = Dynamic.Text (Js.or_default o d).
Proof.
  unfold Dynamic.or_default. rewrite truthy_of_text.
  destruct o as [s|]; simpl; [|reflexivity]. destruct (String.eqb s ""); reflexivity.
Qed.

Lemma defaulted_of_field f d :
  Dynamic.defaulted (of_field f) d = of_text (GitHubApiService.defaulted f d).
Proof.
  destruct f as [| |s]; try reflexivity.
Qed.

Lemma is_level_of_text o : Dynamic.is_level (of_text o) = GitHubApiService.is_level o.
Proof. destruct o; reflexivity. Qed.

Lemma truncateText_of_text o n :
  Dynamic.truncateText (of_text o) n = AppHelpers.truncateText o n.
Proof. destruct o; reflexivity. Qed.

(** On raw alerts whose properties are texts, [null] or absent, the
    two [_processAlert] agree. *)
Lemma _processAlert_texts (raw : option RawAlert) (id : string) :
  Dynamic._processAlert (of_raw <$> raw) id
  = sum_map (λ e, e) of_alert (GitHubApiService._processAlert raw id).
Proof.
  destruct raw as [raw|]; [|reflexivity]. simpl. f_equal.
  unfold of_alert. simpl.
  rewrite !defaulted_of_field, is_level_of_text, truncateText_of_text.
  f_equal.
  - destruct (raw_id raw); reflexivity.
  - destruct (GitHubApiService.is_level _); reflexivity.
  - destruct (raw_repo_name raw); reflexivity.
Qed.

Lemma missingFields_of_alert a :
  Dynamic.missingFields (of_alert a) = AIService.missingFields a.
Proof.
  unfold Dynamic.missingFields, AIService.missingFields, AIService.required_fields.
  simpl. rewrite !truthy_of_text.
  destruct (Js.truthy (vulnerability a)), (Js.truthy (package a)),
    (Js.truthy (severity a)); reflexivity.
Qed.

(** On alerts whose properties are texts or missing, the two
    [_validateAlertData] agree. *)
Lemma _validateAlertData_texts (a : Alert) (now : Z) :
  Dynamic._validateAlertData (of_alert a) now
  = sum_map (λ e, e) of_request (AIService._validateAlertData a now).
Proof.
  unfold Dynamic._validateAlertData, AIService._validateAlertData.
  rewrite missingFields_of_alert.
  destruct (AIService.missingFields a) eqn:Em; [|reflexivity].
  unfold AIService.missingFields, AIService.required_fields in Em. simpl in Em.
  destruct (vulnerability a) as [v|] eqn:Ev; [|discriminate Em].
  destruct (package a) as [p|] eqn:Ep;
    [|simpl in Em; destruct (negb (negb (String.eqb v ""))); discriminate Em].
  destruct (severity a) as [sv|] eqn:Es;
    [|simpl in Em; destruct (negb (negb (String.eqb v ""))),
        (negb (negb (String.eqb p ""))); discriminate Em].
  simpl. unfold of_request, of_alert. simpl. rewrite Ev, Ep, Es. simpl.
  rewrite !or_default_of_text. reflexivity.
Qed.

Lemma dyn_missingFields_nil (a : Dynamic.Alert) :
  Dynamic.missingFields a = []
  ↔ Dynamic.truthy (Dynamic.vulnerability a) = true
    ∧ Dynamic.truthy (Dynamic.package a) = true
    ∧ Dynamic.truthy (Dynamic.severity a) = true.
Proof.
  unfold Dynamic.missingFields. simpl.
  destruct (Dynamic.truthy (Dynamic.vulnerability a)),
    (Dynamic.truthy (Dynamic.package a)),
    (Dynamic.truthy (Dynamic.severity a)); simpl;
    split; try discriminate; try tauto; intros (? & ? & ?); discriminate.
Qed.

Lemma dyn_validate_passes (a : Dynamic.Alert) (now : Z) :
  (∃ request, Dynamic._validateAlertData a now = inr request)
  ↔ Dynamic.missingFields a = [].
Proof.
  unfold Dynamic._validateAlertData.
  destruct (Dynamic.missingFields a); split; eauto; try discriminate.
  intros [? [=]].
Qed.

Lemma dyn_truncateText_empty (v : Dynamic.Value) (n : nat) :
  Dynamic.truncateText v n = "" ↔ ∀ s, v = Dynamic.Text s → s = "".
Proof.
  destruct v as [s| |]; simpl; try (split; [intros _ ? [=]|reflexivity]).
  split.
  - intros H ? [= <-].
    destruct (String.length s <=? n)%nat eqn:E; [exact H|].
    apply (f_equal String.length) in H.
    rewrite string_length_app in H. simpl in H. lia.
  - intros H. rewrite (H s eq_refl). reflexivity.
Qed.

(** X14. The defaults of [_processAlert] stand in for absent properties
    only. A processed alert passes [_validateAlertData] exactly when its
    vulnerability was absent or a text that is not empty, and its package
    absent or truthy: a vulnerability that is [null], empty or no text at
    all ends as the empty text ([truncateText] returns it for what is no
    string), and a package that is [null] or empty stays falsy, and the
    assistance service then refuses the alert; a package that is truthy
    without being a text passes. *)
Theorem processed_alert_is_assistable (raw : Dynamic.RawAlert) (id : string)
    (a : Dynamic.Alert) (now : Z) :
  Dynamic._processAlert (Some raw) id = inr a →
  ((∃ request, Dynamic._validateAlertData a now = inr request)
   ↔ absent_or_text (Dynamic.raw_vulnerability raw)
     ∧ absent_or_truthy (Dynamic.raw_package raw)).
Proof.
  intros [= <-]. rewrite dyn_validate_passes, dyn_missingFields_nil.
  cbn [Dynamic.vulnerability Dynamic.package Dynamic.severity].
  assert (Dynamic.truthy
            (if Dynamic.is_level (Dynamic.defaulted (Dynamic.raw_severity raw) "low")
             then Dynamic.defaulted (Dynamic.raw_severity raw) "low"
             else Dynamic.Text "low") = true) as Hs.
  { destruct (Dynamic.is_level _) eqn:E; [|reflexivity].
    destruct (Dynamic.defaulted _ _) as [s| |]; try discriminate E. simpl.
    destruct (String.eqb s "") eqn:E'; [|reflexivity].
    apply String.eqb_eq in E'. subst s. discriminate E. }
  rewrite Hs. clear Hs.
  assert (Dynamic.truthy (Dynamic.defaulted (Dynamic.raw_package raw) "Unknown package")
          = true ↔ absent_or_truthy (Dynamic.raw_package raw)) as Hp.
  { unfold absent_or_truthy. destruct (Dynamic.raw_package raw) as [|v]; simpl.
    - split; auto.
    - split; [intros H; right; eauto|intros [[=]|(? & [= <-] & H)]; exact H]. }
  assert (Dynamic.truthy
            (Dynamic.Text
               (Dynamic.truncateText
                  (Dynamic.defaulted (Dynamic.raw_vulnerability raw)
                     "Unknown vulnerability")
                  APP_CONSTANTS.MAX_VULNERABILITY_TITLE_LENGTH)) = true
          ↔ absent_or_text (Dynamic.raw_vulnerability raw)) as Hv.
  { cbn [Dynamic.truthy]. rewrite negb_true_iff, String.eqb_neq.
    rewrite dyn_truncateText_empty. unfold absent_or_text.
    destruct (Dynamic.raw_vulnerability raw) as [|[s| |]]; simpl.
    - split; [auto|]. intros _ H. specialize (H _ eq_refl). discriminate H.
    - split.
      + intros H. right. exists s. split; [reflexivity|].
        intros ->. apply H. intros ? [= <-]. reflexivity.
      + intros [[=]|(? & [= <-] & H)] H'. apply H, H'. reflexivity.
    - split; [intros H; exfalso; apply H; intros ? [=]|].
      intros [[=]|(? & [=] & _)].
    - split; [intros H; exfalso; apply H; intros ? [=]|].
      intros [[=]|(? & [=] & _)]. }
  tauto.
Qed.

Lemma markup_free_app (s1 s2 : string) :
  markup_free s1 → markup_free s2 → markup_free (s1 +:+ s2).
Proof. unfold markup_free. rewrite chars_app, Forall_app. auto. Qed.

Lemma markup_free_substring (s : string) : ∀ n,
  markup_free s → markup_free (String.substring 0 n s).
Proof.
  unfold markup_free. induction s as [|c s IH]; intros [|n] H; simpl;
    try constructor.
  - inversion H; assumption.
  - apply IH. inversion H; assumption.
Qed.

Lemma markup_free_truncateText (s : string) (n : nat) :
  markup_free s → markup_free (AppHelpers.truncateText (Some s) n).
Proof.
  intros H. simpl. destruct (String.length s <=? n)%nat; [exact H|].
  apply markup_free_app; [apply markup_free_substring, H|].
  unfold markup_free. cbv [chars String.list_ascii_of_string].
  repeat (constructor; [repeat split; discriminate|]); constructor.
Qed.

Lemma level_markup_free (s : option string) :
  GitHubApiService.is_level s = true → markup_free (Js.or_default s "low").
Proof.
  destruct s as [s|]; [|discriminate]. simpl.
  rewrite !orb_true_iff, !String.eqb_eq.
  unfold markup_free.
  intros [->|[->|[->|[->|?]]]]; try discriminate;
    match goal with |- Forall _ ?l =>
      let l' := eval vm_compute in l in change l with l' end;
    repeat (constructor; [repeat split; discriminate|]); constructor.
Qed.

(** X15. Of the values that the card's template puts into the markup, all
    but the severity are escaped and hold no character that opens or
    closes a tag or ends an attribute value; the severity goes in as it
    is. For an alert that [_processAlert] made it is one of the four
    levels, so that no value of its card holds such a character. *)
Theorem getCardHTML_no_markup (alert : Alert) :
  let card := AlertCardComponent.getCardHTML alert in
  Forall markup_free
    [AlertCardComponent.title card; AlertCardComponent.displayTitle card;
     AlertCardComponent.packageName card; AlertCardComponent.patchedIn card;
     AlertCardComponent.applyFixIn card]
  ∧ (∀ s, severity alert = Some s → s ≠ "" → AlertCardComponent.badge card = s)
  ∧ (∀ raw id, GitHubApiService._processAlert raw id = inr alert →
       Forall markup_free (AlertCardComponent.interpolated card)).
Proof.
  cbn zeta.
  assert (Forall markup_free
    [AlertCardComponent.title (AlertCardComponent.getCardHTML alert);
     AlertCardComponent.displayTitle (AlertCardComponent.getCardHTML alert);
     AlertCardComponent.packageName (AlertCardComponent.getCardHTML alert);
     AlertCardComponent.patchedIn (AlertCardComponent.getCardHTML alert);
     AlertCardComponent.applyFixIn (AlertCardComponent.getCardHTML alert)]) as H.
  { unfold AlertCardComponent.getCardHTML.
    cbn [AlertCardComponent.title AlertCardComponent.displayTitle
         AlertCardComponent.packageName AlertCardComponent.patchedIn
         AlertCardComponent.applyFixIn].
    repeat constructor;
      try apply markup_free_truncateText; apply escapeHtml_markup_free. }
  split; [exact H|]. split.
  - intros s Hs Hne. unfold AlertCardComponent.getCardHTML.
    cbn [AlertCardComponent.badge]. rewrite Hs. simpl.
    apply String.eqb_neq in Hne. rewrite Hne. reflexivity.
  - intros raw id Hp. apply _processAlert_well_formed in Hp as [Hl _].
    unfold AlertCardComponent.interpolated.
    inversion H as [|? ? H1 H']; subst. inversion H' as [|? ? H2 H'']; subst.
    constructor; [exact H1|]. constructor; [exact H2|].
    constructor; [|exact H''].
    apply level_markup_free, Hl.
Qed.

End ProcessedAlerts.

Section RepositoryStats.








End RepositoryStats.

(** * The components *)

Section SummaryCounts.

Lemma validateCount_nonneg (c : CountValue) : 0 ≤ SummaryComponent.validateCount c.
Proof.
  destruct c as [n|]; simpl; [|lia]. destruct (n <? 0) eqn:E; [lia|].
  apply Z.ltb_ge in E. exact E.
Qed.

Lemma renderSummary_nonneg (summary : option SummaryInput) :
  nonneg_summary (SummaryComponent.currentSummary
                    (SummaryComponent.renderSummary summary).1).
Proof.
  unfold nonneg_summary. simpl. repeat split; apply validateCount_nonneg.
Qed.

Lemma step_nonneg (c : SummaryComponent.t) (a : SummaryComponent.Action) :
  nonneg_summary (SummaryComponent.currentSummary c) →
  nonneg_summary (SummaryComponent.currentSummary (SummaryComponent.step c a)).
Proof.
  intros H. destruct a as [s|[a|]|];
    cbn [SummaryComponent.step SummaryComponent.addCounts SummaryComponent.reset];
    try apply renderSummary_nonneg.
  exact H.
Qed.

Lemma summary_after_nonneg (actions : list SummaryComponent.Action) : ∀ c,
  nonneg_summary (SummaryComponent.currentSummary c) →
  nonneg_summary (SummaryComponent.currentSummary
                    (fold_left SummaryComponent.step actions c)).
Proof.
  induction actions as [|a actions IH]; intros c H; simpl; [exact H|].
  apply IH, step_nonneg, H.
Qed.

(** X17. Whatever is rendered or added, no count of the summary is ever
    negative. This is what makes the questions about it agree: there are
    alerts exactly when a most severe level exists and when the overall
    status is not the safe one. *)
Theorem summary_counts_never_negative (actions : list SummaryComponent.Action) :
  let c := summary_after actions in
  nonneg_summary (SummaryComponent.currentSummary c)
  ∧ (SummaryComponent.hasAlerts c = true
     ↔ SummaryComponent.getMostSevereLevel c ≠ "safe")
  ∧ (SummaryComponent.hasAlerts c = true
     ↔ SummaryComponent.statusClass (SummaryComponent.currentSummary c)
       ≠ "status-safe")
  ∧ (SummaryComponent.hasCriticalAlerts c = true
     → SummaryComponent.hasAlerts c = true).
Proof.
  cbn zeta.
  assert (nonneg_summary (SummaryComponent.currentSummary (summary_after actions)))
    as H.
  { apply summary_after_nonneg. apply renderSummary_nonneg. }
  split; [exact H|].
  destruct H as (_ & Hc & Hh & Hm & Hl).
  unfold SummaryComponent.hasAlerts, SummaryComponent.getTotalAlerts,
    SummaryComponent.getMostSevereLevel, SummaryComponent.statusClass,
    SummaryComponent.hasCriticalAlerts.
  generalize dependent (SummaryComponent.currentSummary (summary_after actions)).
  intros s Hc Hh Hm Hl.
  rewrite Z.ltb_lt.
  destruct (0 <? sum_critical s) eqn:E1; [apply Z.ltb_lt in E1|apply Z.ltb_ge in E1];
  (destruct (0 <? sum_high s) eqn:E2; [apply Z.ltb_lt in E2|apply Z.ltb_ge in E2]);
  (destruct (0 <? sum_medium s) eqn:E3; [apply Z.ltb_lt in E3|apply Z.ltb_ge in E3]);
  (destruct (0 <? sum_low s) eqn:E4; [apply Z.ltb_lt in E4|apply Z.ltb_ge in E4]);
  cbn [orb]; repeat split; intros; try discriminate; try lia; try congruence.
Qed.

(** X18. The most severe level of the summary is what [getHighestSeverity]
    finds in its counts, except that a summary without alerts is ["safe"]
    for the one and ["low"] for the other. *)
Theorem getMostSevereLevel_is_highest (c : SummaryComponent.t) :
  AppHelpers.getHighestSeverity
    (Some (SummaryComponent.entries (SummaryComponent.currentSummary c)))
  = if String.eqb (SummaryComponent.getMostSevereLevel c) "safe" then "low"
    else SummaryComponent.getMostSevereLevel c.
Proof.
  unfold SummaryComponent.getMostSevereLevel, AppHelpers.getHighestSeverity,
    SummaryComponent.entries.
  destruct (SummaryComponent.currentSummary c) as [n cr hi me lo].
  cbn [sum_critical sum_high sum_medium sum_low repos_found fold_left].
  unfold AppHelpers.highest_step.
  change (APP_CONSTANTS.SEVERITY_ORDER "repos_found") with (@None Z).
  change (APP_CONSTANTS.SEVERITY_ORDER "critical") with (Some 4).
  change (APP_CONSTANTS.SEVERITY_ORDER "high") with (Some 3).
  change (APP_CONSTANTS.SEVERITY_ORDER "medium") with (Some 2).
  change (APP_CONSTANTS.SEVERITY_ORDER "low") with (Some 1).
  destruct (0 <? cr), (0 <? hi), (0 <? me), (0 <? lo); reflexivity.
Qed.

End SummaryCounts.

Section SortAlerts.

Lemma by_severity_key (d : bool) (a b : Alert) (v : Z) :
  AlertCardComponent.by_severity d a b = Some v →
  v ≤ 0 ↔ severity_key d a ≤ severity_key d b.
Proof.
  unfold AlertCardComponent.by_severity, severity_key, rank_of.
  destruct (AppHelpers.severity_rank (severity a)),
           (AppHelpers.severity_rank (severity b)), d; simpl;
    intros [= <-] || intros [=]; lia.
Qed.

Lemma alerts_comparable (d : bool) (alerts : list Alert) :
  Forall (λ a, plain (severity a)) alerts →
  AppHelpers.comparable (AlertCardComponent.by_severity d) alerts = true.
Proof.
  intros H. apply comparable_spec. intros a b Ha Hb.
  rewrite Forall_forall in H. unfold AlertCardComponent.by_severity.
  rewrite (plain_rank _ (H a Ha)), (plain_rank _ (H b Hb)).
  destruct d; simpl; eauto.
Qed.

Lemma keyed_severity_key (d d' : bool) (k : Z) (l : list Alert) :
  keyed (severity_key d) k l
  = keyed (severity_key d') (if Bool.eqb d d' then k else - k) l.
Proof.
  unfold keyed. apply List.filter_ext. intros a. unfold severity_key.
  destruct d, d'; simpl; try reflexivity;
    match goal with |- (?x =? ?y) = (?u =? ?v) =>
      destruct (x =? y) eqn:E1, (u =? v) eqn:E2; try reflexivity;
      try apply Z.eqb_eq in E1; try apply Z.eqb_eq in E2;
      try apply Z.eqb_neq in E1; try apply Z.eqb_neq in E2; lia
    end.
Qed.

Lemma filter_keyed {A} (f : A → Z) (p : A → bool) (k : Z) (l : list A) :
  (∀ a, p a = true → f a = k) →
  List.filter p (keyed f k l) = List.filter p l.
Proof.
  intros H. unfold keyed. induction l as [|a l IH]; simpl; [reflexivity|].
  destruct (f a =? k) eqn:E; simpl; rewrite IH; [reflexivity|].
  destruct (p a) eqn:Ep; [|reflexivity].
  apply H in Ep. apply Z.eqb_neq in E. contradiction.
Qed.

(** X19. Sorting the alerts keeps all of them, whatever the engine does
    with an array that the comparator does not order. Where no alert has a
    severity that names a property inherited from [Object.prototype] (as
    for the alerts that [_processAlert] returns), it keeps the order of
    the alerts of one severity, so that [filterBySeverity] sees no
    difference; and a sort undoes the sort before it: sorting twice is
    sorting once, in the direction asked for last. *)
Theorem sortBySeverity_composes (engine engine' : AppHelpers.Arrangement Alert)
    (alerts : list Alert) (d d' : bool) :
  AlertCardComponent.sortBySeverity engine alerts d ≡ₚ alerts
  ∧ (Forall (λ a, plain (severity a)) alerts →
     AlertCardComponent.sortBySeverity engine
       (AlertCardComponent.sortBySeverity engine' alerts d') d
     = AlertCardComponent.sortBySeverity engine alerts d
     ∧ ∀ s, AlertCardComponent.filterBySeverity
              (AlertCardComponent.sortBySeverity engine alerts d) s
            = AlertCardComponent.filterBySeverity alerts s).
Proof.
  unfold AlertCardComponent.sortBySeverity.
  split; [apply Array_sort_perm|]. intros Hplain.
  assert (Forall (λ a, plain (severity a))
            (AppHelpers.Array_sort engine' (AlertCardComponent.by_severity d') alerts))
    as Hplain'.
  { rewrite Forall_forall in *. intros a Ha. apply Hplain.
    rewrite Array_sort_perm in Ha. exact Ha. }
  pose proof (λ engine d l H, Array_sort_stable engine _ _ (by_severity_key d) l
                                (alerts_comparable d l H)) as H.
  split.
  - destruct (H engine d alerts Hplain) as (_ & _ & Hu). apply Hu.
    + apply (H engine d _ Hplain').
    + intros k. destruct (H engine d _ Hplain') as (_ & -> & _).
      rewrite !(keyed_severity_key d d').
      apply (H engine' d' alerts Hplain).
  - intros s. unfold AlertCardComponent.filterBySeverity.
    destruct (H engine d alerts Hplain) as (_ & Hk & _).
    rewrite <- (filter_keyed (severity_key d) _ (severity_key d
                  (mkAlert None None None s None None None))
                  (AppHelpers.Array_sort _ _ _)), Hk.
    + apply filter_keyed. intros a Ha. apply bool_decide_eq_true in Ha.
      unfold severity_key. simpl. rewrite Ha. reflexivity.
    + intros a Ha. apply bool_decide_eq_true in Ha.
      unfold severity_key. simpl. rewrite Ha. reflexivity.
Qed.

End SortAlerts.

Section NotificationList.

Lemma removeNotification_elem (ns : list Notification) (id : string) (n : Notification) :
  n ∈ Notifications.removeNotification ns id ↔ n ∈ ns ∧ n_id n ≠ id.
Proof.
  unfold Notifications.removeNotification.
  rewrite !list_elem_of_In, List.filter_In, negb_true_iff, String.eqb_neq.
  reflexivity.
Qed.

Lemma cleanup_loop (orig : list Notification) : ∀ current,
  (∀ n, n ∈ current → n_id n ∈ shown_ids orig) →
  fold_left (λ current n, Notifications.removeNotification current (n_id n))
    orig current = [].
Proof.
  induction orig as [|x orig IH]; intros current H; simpl.
  - destruct current as [|n current]; [reflexivity|].
    specialize (H n ltac:(left)). inversion H.
  - apply IH. intros n [Hn Hx]%removeNotification_elem.
    specialize (H n Hn). simpl in H. apply elem_of_cons in H as [H|H];
      [contradiction|exact H].
Qed.

(** X21. [cleanup] leaves no notification, although the loop walks the array
    that each removal replaces; and removing the notification just shown
    gives back the list as it was, when its identifier is new. *)
Theorem cleanup_removes_all (ns : list Notification) :
  Notifications.cleanup ns = []
  ∧ ∀ message type id now,
      id ∉ shown_ids ns →
      Notifications.removeNotification
        (Notifications.showNotification ns message type id now) id = ns.
Proof.
  split.
  - apply cleanup_loop. intros n Hn. unfold shown_ids.
    apply list_elem_of_fmap. exists n. auto.
  - intros message type id now Hid.
    unfold Notifications.showNotification, Notifications.removeNotification.
    rewrite List.filter_app. simpl. rewrite String.eqb_refl. simpl.
    rewrite app_nil_r. induction ns as [|n ns IH]; simpl; [reflexivity|].
    unfold shown_ids in Hid. simpl in Hid. apply not_elem_of_cons in Hid as [H1 H2].
    destruct (String.eqb (n_id n) id) eqn:E.
    + apply String.eqb_eq in E. congruence.
    + simpl. rewrite (IH H2). reflexivity.
Qed.

End NotificationList.

Section CacheLaws.

Lemma get_after_cacheResponse (ls : LocalStorage.t) (alertId : option string)
    (text : string) (now : Z) (k : string) :
  Some k ≠ alertId →
  LocalStorage.get_ai_responses (AIService.cacheResponse ls alertId text now).1 !! k
  = LocalStorage.get_ai_responses ls !! k.
Proof.
  intros Hk. unfold AIService.cacheResponse.
  destruct alertId as [a|]; [|reflexivity].
  destruct (String.eqb a "" || String.eqb text ""); [reflexivity|]. simpl.
  unfold LocalStorage.set_ai_responses, LocalStorage.get_ai_responses,
    LocalStorage.assign.
  destruct (LocalStorage.usable ls) eqn:Eu; simpl; rewrite ?Eu; [|reflexivity].
  destruct (String.eqb a "__proto__"); [reflexivity|].
  apply lookup_insert_ne. congruence.
Qed.

(** X22. Caching an answer changes what is read under its own identifier
    only; and what was cached is read back until it is 24 hours old, and
    not from then on. *)
Theorem cacheResponse_read_back_and_frame (ls : LocalStorage.t)
    (alertId : option string) (text : string) (now later : Z) :
  let ls' := (AIService.cacheResponse ls alertId text now).1 in
  (∀ other, other ≠ alertId →
     AIService.getCachedResponse ls' other later
     = AIService.getCachedResponse ls other later)
  ∧ (∀ k, alertId = Some k → LocalStorage.usable ls = true →
       k ≠ "" → k ≠ "__proto__" → text ≠ "" →
       AIService.getCachedResponse ls' alertId later
       = if later - now <? AIService.retention_ms then Some text else None).
Proof.
  cbn zeta. split.
  - intros [k|] Hne; [|reflexivity]. unfold AIService.getCachedResponse.
    rewrite get_after_cacheResponse by exact Hne. reflexivity.
  - intros k -> Hu Hk Hp Ht.
    apply String.eqb_neq in Hk, Hp, Ht.
    unfold AIService.cacheResponse, AIService.getCachedResponse.
    rewrite Hk, Ht. simpl.
    unfold LocalStorage.set_ai_responses, LocalStorage.get_ai_responses,
      LocalStorage.assign.
    rewrite Hu, Hp. simpl. rewrite lookup_insert_eq. simpl. rewrite Ht.
    reflexivity.
Qed.

(** X23. An answer that is too old to be read stays so; nothing is read
    after [clearCache]; and with a storage that cannot be used nothing is
    kept and nothing is read. *)
Theorem cache_expiry_is_final (ls : LocalStorage.t) (alertId : option string)
    (now later : Z) :
  (now ≤ later → AIService.getCachedResponse ls alertId now = None →
   AIService.getCachedResponse ls alertId later = None)
  ∧ AIService.getCachedResponse (AIService.clearCache ls) alertId now = None
  ∧ (LocalStorage.usable ls = false →
     AIService.getCachedResponse ls alertId now = None
     ∧ ∀ text, (AIService.cacheResponse ls alertId text now).1 = ls).
Proof.
  split; [|split].
  - intros Hle. unfold AIService.getCachedResponse.
    destruct alertId as [k|]; [|reflexivity].
    destruct (String.eqb k ""); [reflexivity|].
    destruct (LocalStorage.get_ai_responses ls !! k) as [cached|]; [|reflexivity].
    destruct (String.eqb (response cached) ""); [reflexivity|].
    destruct (now - timestamp cached <? AIService.retention_ms) eqn:E1;
      [discriminate|].
    intros _. apply Z.ltb_ge in E1.
    assert ((later - timestamp cached <? AIService.retention_ms) = false) as ->
      by (apply Z.ltb_ge; lia).
    reflexivity.
  - unfold AIService.getCachedResponse, AIService.clearCache,
      LocalStorage.remove_ai_responses, LocalStorage.get_ai_responses.
    destruct alertId as [k|]; [|reflexivity].
    destruct (String.eqb k ""); [reflexivity|].
    destruct (LocalStorage.usable ls) eqn:Eu; simpl; rewrite ?Eu;
      rewrite lookup_empty; reflexivity.
  - intros Hu. split.
    + unfold AIService.getCachedResponse, LocalStorage.get_ai_responses.
      rewrite Hu. destruct alertId as [k|]; [|reflexivity].
      destruct (String.eqb k ""); [reflexivity|]. rewrite lookup_empty.
      reflexivity.
    + intros text. unfold AIService.cacheResponse, LocalStorage.set_ai_responses.
      destruct alertId as [k|]; [|reflexivity].
      destruct (String.eqb k "" || String.eqb text ""); [reflexivity|].
      simpl. rewrite Hu. reflexivity.
Qed.

End CacheLaws.

Section CloseTwice.

(** X24. Closing the modal a second time does nothing: the service is
    cancelled once at most, and a closed modal stays closed. Closing sends
    no request. *)
Theorem closeModal_idempotent (app : DependabotApp.t) :
  DependabotApp.closeModal (DependabotApp.closeModal app)
  = DependabotApp.closeModal app
  ∧ AIAssistModalComponent.isVisible
      (DependabotApp.modal (DependabotApp.closeModal app)) = false
  ∧ DependabotApp.requests (DependabotApp.closeModal app)
    = DependabotApp.requests app.
Proof.
  unfold DependabotApp.closeModal, AIAssistModalComponent.closeModal,
    AIService.cancelStream, DependabotApp.requests.
  destruct app as [sys m ls aw lg]. simpl.
  destruct (AIAssistModalComponent.isVisible m) eqn:Ev; simpl.
  - destruct (AIAssistModalComponent.isStreaming m); simpl.
    + repeat split. rewrite List.filter_app.
      destruct (AIService.currentStream _) as [r|]; [destruct (abort r)|];
        simpl; apply app_nil_r.
    + auto.
  - rewrite Ev. simpl. auto.
Qed.

End CloseTwice.

Section CardCallbacks.

Import DependabotApp.

Lemma still_running_app ss new i :
  (i < length ss)%nat → still_running (ss ++ new) i = still_running ss i.
Proof. intros H. unfold still_running. rewrite lookup_app_l by exact H. reflexivity. Qed.

Lemma still_running_insert_ne ss i j s :
  i ≠ j → still_running (<[i := s]> ss) j = still_running ss j.
Proof.
  intros H. unfold still_running. rewrite list_lookup_insert_ne by exact H.
  reflexivity.
Qed.

Lemma still_running_insert ss i s s' :
  ss !! i = Some s → still_running (<[i := s']> ss) i = in_flight s'.2.
Proof.
  intros H. unfold still_running.
  rewrite list_lookup_insert_eq by (eapply lookup_lt_Some, H). reflexivity.
Qed.

Lemma pending_of_app ss new aw :
  (∀ i, i ∈ aw → (i < length ss)%nat) →
  pending_of (ss ++ new) aw = pending_of ss aw.
Proof.
  intros H. unfold pending_of. f_equal. apply List.filter_ext_in.
  intros i Hi. apply still_running_app, H, list_elem_of_In, Hi.
Qed.

Lemma pending_of_snoc ss aw i :
  pending_of ss (aw ++ [i])
  = (pending_of ss aw + if still_running ss i then 1 else 0)%nat.
Proof.
  unfold pending_of. rewrite List.filter_app, length_app. simpl.
  destruct (still_running ss i); reflexivity.
Qed.

Lemma pending_of_insert_notin ss aw i s :
  i ∉ aw → pending_of (<[i := s]> ss) aw = pending_of ss aw.
Proof.
  intros H. unfold pending_of. f_equal. apply List.filter_ext_in.
  intros j Hj. apply still_running_insert_ne. intros ->.
  apply H, list_elem_of_In, Hj.
Qed.

Lemma pending_of_cons ss aw i :
  pending_of ss (i :: aw)
  = ((if still_running ss i then 1 else 0) + pending_of ss aw)%nat.
Proof. unfold pending_of. simpl. destruct (still_running ss i); reflexivity. Qed.

Lemma pending_of_insert ss aw i cbs pc pc' :
  NoDup aw → ss !! i = Some (cbs, pc) → in_flight pc = true →
  (pending_of (<[i := (cbs, pc')]> ss) aw
   + (if bool_decide (i ∈ aw) && negb (in_flight pc') then 1 else 0)
   = pending_of ss aw)%nat.
Proof.
  intros Hnd Hi Hpc. induction Hnd as [|j aw Hj Hnd IH].
  - reflexivity.
  - rewrite !pending_of_cons. destruct (decide (i = j)) as [<-|Hne].
    + rewrite bool_decide_eq_true_2 by left.
      rewrite (still_running_insert _ _ _ _ Hi),
        (pending_of_insert_notin _ _ _ _ Hj).
      assert (still_running ss i = true) as ->
        by (unfold still_running; rewrite Hi; exact Hpc).
      simpl. destruct (in_flight pc'); simpl; lia.
    + assert (bool_decide (i ∈ j :: aw) = bool_decide (i ∈ aw)) as ->.
      { apply bool_decide_ext. rewrite elem_of_cons. tauto. }
      rewrite still_running_insert_ne by exact Hne. lia.
Qed.

Lemma handleStreamingComplete_no_card m ls finalData now :
  List.filter is_CardCallback
    (AIAssistModalComponent.handleStreamingComplete m ls finalData now).2 = [].
Proof.
  unfold AIAssistModalComponent.handleStreamingComplete, AIService.cacheResponse.
  destruct (AIAssistModalComponent.isVisible m); [|reflexivity].
  destruct (AIAssistModalComponent.currentAlert m) as [a|]; [|reflexivity].
  destruct (Js.truthy (id a)); [|reflexivity].
  destruct (id a) as [k|]; [|reflexivity].
  destruct (String.eqb k "" || String.eqb finalData ""); reflexivity.
Qed.

Lemma subscriber_no_card (es : list Effect) : ∀ m ls now,
  List.filter is_CardCallback es = [] →
  List.filter is_CardCallback (AIAssistModalComponent.subscriber m ls now es).2 = [].
Proof.
  induction es as [|e es IH]; intros m ls now H; [reflexivity|].
  destruct e; simpl in H; try discriminate H;
    cbn -[AIAssistModalComponent.handleStreamingComplete
          AIAssistModalComponent.updateStreamingContent
          AIAssistModalComponent.handleStreamingError].
  3:{ pose proof (handleStreamingComplete_no_card m ls buffer now) as Hw.
      destruct (AIAssistModalComponent.handleStreamingComplete m ls buffer now)
        as [[m1 ls1] ws].
      specialize (IH m1 ls1 now H).
      destruct (AIAssistModalComponent.subscriber m1 ls1 now es) as [[m2 ls2] out2].
      simpl in *. rewrite List.filter_app, Hw, IH. reflexivity. }
  all: match goal with
       | H : _ |- context [AIAssistModalComponent.subscriber ?m' ?ls' ?t ?l] =>
           specialize (IH m' ls' t H);
           destruct (AIAssistModalComponent.subscriber m' ls' t l)
             as [[m2 ls2] out2]
       end; simpl in *; exact IH.
Qed.

Lemma no_card_weaken (P : Effect → bool) (es : list Effect) :
  (∀ e, P e = true → is_CardCallback e = false) →
  forallb P es = true → List.filter is_CardCallback es = [].
Proof.
  intros HP. induction es as [|e es IH]; [reflexivity|]. simpl.
  intros H. apply andb_true_iff in H as [He H].
  rewrite (HP e He). apply IH, H.
Qed.

Lemma start_no_card svc alertData cbs now :
  List.filter is_CardCallback
    (AIService.streamFixSuggestion svc alertData cbs now).2 = [].
Proof.
  eapply no_card_weaken, start_callbacks.
  intros e. destruct e; try discriminate; reflexivity.
Qed.

Lemma resume_no_card svc cbs pc s svc' pc' es :
  AIService.resume svc cbs pc s = Some (svc', pc', es) →
  List.filter is_CardCallback es = [].
Proof.
  intros H. apply resume_callbacks in H as [H _].
  eapply no_card_weaken, H. intros e. destruct e; try discriminate; reflexivity.
Qed.

Lemma showModal_accounted (n : nat) app alert now (awaited : bool) :
  accounted n app →
  accounted (if awaited then S n else n) (showModal app alert now awaited).
Proof.
  intros ((Hnd & Hlt) & Hans & Hn). unfold showModal.
  pose proof (start_no_card (System.service (sys app)) (Some alert)
                all_callbacks now) as Hes.
  destruct (AIService.streamFixSuggestion _ _ _ _) as [[svc pc] es].
  simpl in Hes.
  pose proof (subscriber_no_card es (Modal.showModal_open (modal app) alert)
                (storage app) now Hes) as Hout.
  destruct (Modal.subscriber _ _ _ es) as [[m ls] out]. simpl in Hout.
  unfold accounted, awaiting_ok, card_callbacks, pending in *.
  cbn [sys modal storage awaiting log System.sessions].
  rewrite !List.filter_app, Hout, app_nil_l.
  assert (still_running (System.sessions (sys app) ++ [(all_callbacks, pc)])
            (length (System.sessions (sys app))) = in_flight pc) as Hnew.
  { unfold still_running. rewrite lookup_app_r by lia.
    rewrite Nat.sub_diag. reflexivity. }
  assert (∀ i, i ∈ awaiting app →
            (i < length (System.sessions (sys app) ++ [(all_callbacks, pc)]))%nat)
    as Hlt'.
  { intros i Hi. rewrite length_app. specialize (Hlt _ Hi). lia. }
  destruct awaited, (in_flight pc) eqn:Epc; cbn [andb negb List.filter];
    rewrite (length_app (List.filter _ _)); cbn [length].
  - split; [split|split].
    + apply NoDup_app. split; [exact Hnd|]. split; [|apply NoDup_singleton].
      intros i Hi [= ->]%list_elem_of_singleton. specialize (Hlt _ Hi). lia.
    + intros i [Hi|[= ->]%list_elem_of_singleton]%elem_of_app;
        [apply Hlt', Hi|rewrite length_app; simpl; lia].
    + rewrite app_nil_r. exact Hans.
    + rewrite pending_of_snoc, Hnew, pending_of_app by exact Hlt. lia.
  - split; [split; [exact Hnd|exact Hlt']|split].
    + apply Forall_app. split; [exact Hans|].
      constructor; [left; reflexivity|constructor].
    + rewrite pending_of_app by exact Hlt. simpl. lia.
  - split; [split; [exact Hnd|exact Hlt']|split].
    + rewrite app_nil_r. exact Hans.
    + rewrite pending_of_app by exact Hlt. simpl. lia.
  - split; [split; [exact Hnd|exact Hlt']|split].
    + rewrite app_nil_r. exact Hans.
    + rewrite pending_of_app by exact Hlt. simpl. lia.
Qed.

Lemma accounted_modal (n : nat) app m :
  accounted n app →
  accounted n {| sys := sys app; modal := m; storage := storage app;
                 awaiting := awaiting app; log := log app |}.
Proof. intros H. exact H. Qed.

Lemma accounted_answer (n : nat) app e :
  card_answer e → accounted n app →
  accounted (S n) {| sys := sys app; modal := modal app; storage := storage app;
                     awaiting := awaiting app; log := log app ++ [e] |}.
Proof.
  intros He ((Hnd & Hlt) & Hans & Hn).
  unfold accounted, awaiting_ok, card_callbacks, pending in *. simpl.
  assert (is_CardCallback e = true) as Hc by (destruct He as [->| ->]; reflexivity).
  rewrite List.filter_app. simpl. rewrite Hc, length_app. simpl.
  split; [auto|]. split; [|lia].
  apply Forall_app. split; [exact Hans|]. constructor; [exact He|constructor].
Qed.

Lemma handleAIAssistRequest_accounted (n : nat) app alert now :
  accounted n app → accounted (S n) (handleAIAssistRequest app alert now).
Proof.
  intros H. unfold handleAIAssistRequest. destruct alert as [alert|].
  - match goal with
    | |- context [if Js.truthy ?i then ?a else ?b] =>
        destruct (if Js.truthy i then a else b) as [m loaded]
    end.
    destruct loaded.
    + apply accounted_answer; [left; reflexivity|].
      apply (showModal_accounted n _ _ _ false), accounted_modal, H.
    + apply (showModal_accounted n _ _ _ true), accounted_modal, H.
  - apply accounted_answer; [right; reflexivity|exact H].
Qed.

Lemma closeModal_accounted (n : nat) app :
  accounted n app → accounted n (closeModal app).
Proof.
  intros ((Hnd & Hlt) & Hans & Hn). unfold closeModal.
  destruct (Modal.closeModal (modal app)) as [m cancel].
  destruct cancel; [|exact (conj (conj Hnd Hlt) (conj Hans Hn))].
  unfold AIService.cancelStream.
  unfold accounted, awaiting_ok, card_callbacks, pending in *. simpl.
  rewrite List.filter_app.
  assert (∀ es, es = match AIService.currentStream (System.service (sys app)) with
                     | Some reader =>
                         match abort reader with
                         | NoAbort => []
                         | _ => [Abort reader]
                         end
                     | None => []
                     end → List.filter is_CardCallback es = []) as Hes.
  { intros es ->. destruct (AIService.currentStream _) as [r|];
      [destruct (abort r)|]; reflexivity. }
  rewrite (Hes _ eq_refl), app_nil_r. auto.
Qed.

Lemma settle_accounted (n : nat) app i s now app' :
  accounted n app → settle app i s now = Some app' → accounted n app'.
Proof.
  intros ((Hnd & Hlt) & Hans & Hn). unfold settle.
  destruct (System.sessions (sys app) !! i) as [[cbs pc]|] eqn:Ei; [|discriminate].
  destruct (AIService.resume _ cbs pc s) as [[[svc pc'] es]|] eqn:Er; [|discriminate].
  pose proof (resume_in_flight _ _ _ _ _ Er) as Hpc.
  pose proof (resume_no_card _ _ _ _ _ _ _ Er) as Hes.
  pose proof (subscriber_no_card es (modal app) (storage app) now Hes) as Hout.
  destruct (Modal.subscriber _ _ _ es) as [[m ls] out]. simpl in Hout.
  intros [= <-].
  pose proof (pending_of_insert _ _ _ _ _ pc' Hnd Ei Hpc) as Hp.
  unfold accounted, awaiting_ok, card_callbacks, pending in *. simpl.
  rewrite !List.filter_app, Hout, length_app. simpl.
  rewrite length_insert.
  destruct (bool_decide (i ∈ awaiting app) && negb (in_flight pc')); simpl.
  - split; [auto|]. split; [|lia].
    apply Forall_app. split; [exact Hans|]. constructor; [left; reflexivity|constructor].
  - rewrite app_nil_r. split; [auto|]. split; [exact Hans|lia].
Qed.

Lemma step_accounted (n : nat) app a app' :
  accounted n app → step app a = Some app' →
  accounted (if is_AssistRequest a then S n else n) app'.
Proof.
  intros H Hs. destruct a as [alert now|now| |i s now]; simpl in Hs.
  - injection Hs as <-. apply handleAIAssistRequest_accounted, H.
  - destruct (Modal.modalContent (modal app)); try discriminate.
    destruct (Modal.currentAlert (modal app)) as [alert|]; injection Hs as <-.
    + apply (showModal_accounted n _ _ _ false), H.
    + exact H.
  - injection Hs as <-. apply closeModal_accounted, H.
  - eapply settle_accounted; eauto.
Qed.

Lemma run_accounted (actions : list Action) : ∀ n app app',
  accounted n app → run app actions = Some app' →
  accounted (n + length (List.filter is_AssistRequest actions))%nat app'.
Proof.
  induction actions as [|a actions IH]; intros n app app' H Hr; simpl in Hr.
  - injection Hr as <-. simpl. rewrite Nat.add_0_r. exact H.
  - destruct (step app a) as [app1|] eqn:Es; [|discriminate].
    pose proof (IH _ _ _ (step_accounted _ _ _ _ H Es) Hr) as H'.
    simpl. destruct (is_AssistRequest a); simpl in *; [|exact H'].
    rewrite Nat.add_succ_r. exact H'.
Qed.

(** X25. The card's callback is called once for every request: at any time,
    the calls of the callback and the requests whose call is still
    awaited add up to the requests made. What happens to the answer is
    none of the card's business: the callback gets an error only when the
    request came without an alert. *)
Theorem card_callback_once (ls : LocalStorage.t) (actions : list Action)
    (app : DependabotApp.t) :
  run (init ls) actions = Some app →
  (length (card_callbacks app) + pending app
   = length (List.filter is_AssistRequest actions))%nat
  ∧ Forall card_answer (card_callbacks app).
Proof.
  intros Hr.
  assert (accounted 0 (init ls)) as H0.
  { repeat split; try constructor. intros i Hi. inversion Hi. }
  destruct (run_accounted _ _ _ _ H0 Hr) as (_ & Hans & Hn). auto.
Qed.

End CardCallbacks.

Section CacheKey.

Import DependabotApp.

Lemma handleStreamingComplete_writes m ls text t :
  (Modal.handleStreamingComplete m ls text t).2
  = match Modal.isVisible m, Modal.currentAlert m with
    | true, Some shown => (AIService.cacheResponse ls (id shown) text t).2
    | _, _ => []
    end.
Proof.
  unfold Modal.handleStreamingComplete.
  destruct (Modal.isVisible m); [|reflexivity].
  destruct (Modal.currentAlert m) as [a|]; [|reflexivity].
  destruct (Js.truthy (id a)) eqn:E.
  - destruct (AIService.cacheResponse _ _ _ _); reflexivity.
  - unfold AIService.cacheResponse.
    destruct (id a) as [k|]; [|reflexivity].
    simpl in E. apply negb_false_iff in E. rewrite E. reflexivity.
Qed.

Lemma resume_completes svc pc s svc' es :
  AIService.resume svc all_callbacks pc s = Some (svc', Settled None, es) →
  let text := accumulated (buffer_of pc) (chunk_of s) in
  es = [OnComplete text] ∨ es = [OnData text; OnComplete text].
Proof.
  unfold AIService.resume, AIService._handleStreamingResponse,
    AIService.catch_finally.
  destruct pc as [|r0|reader buffer|o], s as [r|e|j|chunk| |e];
    try discriminate; intros H; split_branches H; try discriminate H;
    injection H as <- <-; simpl; auto.
Qed.

(** X29. When a call completes, its text is written to the cache under
    the id of the alert that the modal shows at that moment, if the modal
    is open, that alert has an id and the text is not empty; otherwise
    nothing is written. The alert that the call was started for plays no
    part: the text of a call that [closeModal] left running goes under the
    id of the alert that was asked for next, when the call ends after that
    request. *)
Theorem completion_is_cached_under_shown_alert app i pc s t app' :
  System.sessions (sys app) !! i = Some (all_callbacks, pc) →
  settle app i s t = Some app' →
  System.sessions (sys app') !! i = Some (all_callbacks, Settled None) →
  let text := accumulated (buffer_of pc) (chunk_of s) in
  ∃ new,
    log app' = log app ++ new
    ∧ List.filter is_CacheWrite new
      = match Modal.isVisible (modal app), Modal.currentAlert (modal app) with
        | true, Some shown =>
            match id shown with
            | Some k =>
                if String.eqb k "" || String.eqb text "" then []
                else [CacheWrite k {| response := text; timestamp := t |}]
            | None => []
            end
        | _, _ => []
        end.
Proof.
  intros Hl Hs Hf text. unfold settle in Hs. rewrite Hl in Hs.
  destruct (AIService.resume _ _ pc s) as [[[svc pc'] es]|] eqn:Er;
    [|discriminate Hs].
  destruct (Modal.subscriber (modal app) (storage app) t es) as [[m ls] out] eqn:Es.
  injection Hs as <-. simpl in Hf.
  rewrite (lookup_insert_session _ _ _ _ Hl) in Hf. injection Hf as ->.
  apply resume_completes in Er. fold text in Er.
  exists (out ++ (if bool_decide (i ∈ awaiting app) && negb (in_flight (Settled None))
                  then [CardCallback None] else [])).
  split; [reflexivity|]. rewrite filter_CacheWrite_card.
  set (shown_write := λ (m0 : Modal.t),
         match Modal.isVisible m0, Modal.currentAlert m0 with
         | true, Some shown =>
             match id shown with
             | Some k =>
                 if String.eqb k "" || String.eqb text "" then []
                 else [CacheWrite k {| response := text; timestamp := t |}]
             | None => []
             end
         | _, _ => []
         end).
  assert (∀ m0 ls0,
            (Modal.handleStreamingComplete m0 ls0 text t).2 = shown_write m0
            ∧ List.filter is_CacheWrite (shown_write m0) = shown_write m0) as Hh.
  { intros m0 ls0. rewrite handleStreamingComplete_writes. unfold shown_write.
    destruct (Modal.isVisible m0); [|auto].
    destruct (Modal.currentAlert m0) as [a|]; [|auto].
    unfold AIService.cacheResponse. destruct (id a) as [k|]; [|auto].
    destruct (String.eqb k "" || String.eqb text ""); auto. }
  change (List.filter is_CacheWrite out = shown_write (modal app)).
  destruct Er as [-> | ->]; cbn [Modal.subscriber] in Es.
  - destruct (Hh (modal app) (storage app)) as [H1 H2].
    destruct (Modal.handleStreamingComplete (modal app) (storage app) text t)
      as [[m1 ls1] ws]. simpl in H1. subst ws.
    injection Es as _ _ <-. rewrite app_nil_r. simpl. exact H2.
  - destruct (Hh (Modal.updateStreamingContent (modal app) text) (storage app))
      as [H1 H2].
    destruct (Modal.handleStreamingComplete _ (storage app) text t)
      as [[m1 ls1] ws]. simpl in H1. subst ws.
    injection Es as _ _ <-. rewrite app_nil_r. simpl.
    assert (shown_write (Modal.updateStreamingContent (modal app) text)
            = shown_write (modal app)) as <-; [|exact H2].
    unfold shown_write, Modal.updateStreamingContent.
    destruct (Modal.isVisible (modal app)) eqn:E; simpl; rewrite ?E; reflexivity.
Qed.

End CacheKey.

Section ApiRequests.

Lemma searchRepositories_fetches svc o q :
  Forall valid_fetch (GitHubApiService.searchRepositories svc o q).2
  ∧ (length (GitHubApiService.searchRepositories svc o q).2 ≤ 1)%nat.
Proof.
  unfold GitHubApiService.searchRepositories.
  destruct (GitHubApiService.isLoading svc); [split; [constructor|simpl; lia]|].
  destruct (negb (Js.truthy o) || negb (Js.truthy q)) eqn:E1;
    [split; [constructor|simpl; lia]|].
  destruct (negb (AppHelpers.isValidGitHubOrg o)) eqn:E2;
    [split; [constructor|simpl; lia]|].
  apply orb_false_iff in E1 as [Ho Hq].
  apply negb_false_iff in Ho, Hq, E2.
  apply truthy_Some in Ho as (so & -> & Hso), Hq as (sq & -> & Hsq).
  split; [|simpl; lia]. constructor; [|constructor]. split; assumption.
Qed.

Lemma loadSecurityAlerts_fetches svc name ids :
  Forall valid_fetch (GitHubApiService.loadSecurityAlerts svc name ids).2
  ∧ (length (GitHubApiService.loadSecurityAlerts svc name ids).2 ≤ 1)%nat.
Proof.
  unfold GitHubApiService.loadSecurityAlerts.
  destruct (GitHubApiService.isLoading svc); [split; [constructor|simpl; lia]|].
  destruct (negb (Js.truthy name)); [split; [constructor|simpl; lia]|].
  destruct (negb (Js.includes (default "" name) "/")) eqn:E;
    [split; [constructor|simpl; lia]|].
  apply negb_false_iff in E.
  split; [|simpl; lia]. constructor; [exact E|constructor].
Qed.

Lemma resume_fetches svc c s svc' c' fs :
  GitHubApiService.resume svc c s = Some (svc', c', fs) → fs = [].
Proof.
  destruct c as [m|r|m|res], s as [r'|e|j|d engine]; try discriminate;
    unfold GitHubApiService.resume.
  - destruct (ok r'); intros H; injection H as _ _ <-; reflexivity.
  - intros H. injection H as _ _ <-. reflexivity.
  - intros H. injection H as _ _ <-. reflexivity.
  - unfold GitHubApiService.on_body.
    destruct d as [e| |rs sm|items], m as [|ids];
      try (intros H; injection H as _ _ <-; reflexivity).
    destruct (GitHubApiService.process_all ids 0 items);
      intros H; injection H as _ _ <-; reflexivity.
Qed.

Lemma step_fetches sys a sys' :
  Api.step sys a = Some sys' →
  ∃ fs, Api.fetches sys' = Api.fetches sys ++ fs ∧ Forall valid_fetch fs
        ∧ (length (Api.fetches sys') + length (Api.calls sys)
           ≤ length (Api.fetches sys) + length (Api.calls sys'))%nat.
Proof.
  destruct a as [o q|name ids|i s]; simpl.
  - intros [= <-].
    destruct (searchRepositories_fetches (Api.service sys) o q) as [Hv Hl].
    destruct (GitHubApiService.searchRepositories _ _ _) as [[svc c] fs].
    exists fs. simpl in *. rewrite !length_app. simpl. repeat split; [exact Hv|lia].
  - intros [= <-].
    destruct (loadSecurityAlerts_fetches (Api.service sys) name ids) as [Hv Hl].
    destruct (GitHubApiService.loadSecurityAlerts _ _ _) as [[svc c] fs].
    exists fs. simpl in *. rewrite !length_app. simpl. repeat split; [exact Hv|lia].
  - destruct (Api.calls sys !! i) as [c|]; [|discriminate].
    destruct (GitHubApiService.resume (Api.service sys) c s)
      as [[[svc c'] fs]|] eqn:Er; [|discriminate].
    apply resume_fetches in Er as ->. intros [= <-]. exists []. simpl.
    rewrite app_nil_r, length_insert. repeat split; [constructor|lia].
Qed.

Lemma run_fetches actions : ∀ sys sys',
  Forall valid_fetch (Api.fetches sys) →
  (length (Api.fetches sys) ≤ length (Api.calls sys))%nat →
  Api.run sys actions = Some sys' →
  Forall valid_fetch (Api.fetches sys')
  ∧ (length (Api.fetches sys') ≤ length (Api.calls sys'))%nat.
Proof.
  induction actions as [|a actions IH]; intros sys sys' Hv Hl Hr; simpl in Hr.
  - injection Hr as <-. auto.
  - destruct (Api.step sys a) as [sys1|] eqn:Es; [|discriminate].
    destruct (step_fetches _ _ _ Es) as (fs & Hf & Hfs & Hlen).
    apply (IH sys1 sys'); [| |exact Hr].
    + rewrite Hf. apply Forall_app. auto.
    + lia.
Qed.

(** X12. The API service never sends a request that its checks would turn
    down: every search goes out for an organization name of the allowed
    form and a query that is not empty, every load of alerts for a name
    with a slash; and no call sends more than one request. *)
Theorem api_requests_are_valid (actions : list Api.Action) (sys : Api.t) :
  Api.run Api.init actions = Some sys →
  Forall valid_fetch (Api.fetches sys)
  ∧ (length (Api.fetches sys) ≤ length (Api.calls sys))%nat.
Proof.
  intros Hr. eapply run_fetches; [| |exact Hr]; [constructor|simpl; lia].
Qed.

End ApiRequests.

Section RequestFields.

Lemma escapeHtml_nonempty (x : string) : x ≠ "" → AppHelpers.escapeHtml x ≠ "".
Proof.
  intros Hx. destruct x as [|c x]; [contradiction|]. simpl.
  destruct (escape_char_cases c)
    as [[_ ->]|[[_ ->]|[[_ ->]|[[_ ->]|[[_ ->]|[_ ->]]]]]];
    rewrite string_app_cons; discriminate.
Qed.

Lemma dyn_escapeHtml_empty (v : Dynamic.Value) :
  Dynamic.truthy v = true → (Dynamic.escapeHtml v = "" ↔ v = Dynamic.Truthy).
Proof.
  destruct v as [s| |]; simpl; intros H; try discriminate H.
  - apply negb_true_iff, String.eqb_neq in H. split; [|discriminate].
    intros E. exfalso. exact (escapeHtml_nonempty s H E).
  - tauto.
Qed.

Lemma dyn_escapeHtml_markup_free (v : Dynamic.Value) :
  markup_free (Dynamic.escapeHtml v).
Proof.
  destruct v; simpl; try apply escapeHtml_markup_free; constructor.
Qed.

Lemma dyn_or_default_truthy (v : Dynamic.Value) (d : string) :
  d ≠ "" → Dynamic.truthy (Dynamic.or_default v d) = true.
Proof.
  intros Hd. unfold Dynamic.or_default.
  destruct (Dynamic.truthy v) eqn:E; [exact E|].
  simpl. apply negb_true_iff, String.eqb_neq, Hd.
Qed.

(** X26. The request that [_validateAlertData] builds has its
    vulnerability and package escaped: texts without the characters of
    markup, empty exactly when the alert's value is truthy without being a
    text (a number, say, for which [escapeHtml] returns the empty text).
    The severity goes out as it came in, and it and the three other
    properties are truthy. *)
Theorem request_fields_are_filled (a : Dynamic.Alert) (now : Z)
    (request : Dynamic.Request) :
  Dynamic._validateAlertData a now = inr request →
  markup_free (Dynamic.req_vulnerability request)
  ∧ markup_free (Dynamic.req_package request)
  ∧ (Dynamic.req_vulnerability request = "" ↔ Dynamic.vulnerability a = Dynamic.Truthy)
  ∧ (Dynamic.req_package request = "" ↔ Dynamic.package a = Dynamic.Truthy)
  ∧ Dynamic.req_severity request = Dynamic.severity a
  ∧ Dynamic.truthy (Dynamic.req_severity request) = true
  ∧ Dynamic.truthy (Dynamic.req_patched_in request) = true
  ∧ Dynamic.truthy (Dynamic.req_apply_fix_in request) = true
  ∧ Dynamic.truthy (Dynamic.req_repo_name request) = true
  ∧ Dynamic.req_created_at request = now.
Proof.
  intros H.
  assert (Dynamic.missingFields a = []) as Em
    by (apply (dyn_validate_passes a now); eauto).
  unfold Dynamic._validateAlertData in H. rewrite Em in H.
  apply dyn_missingFields_nil in Em as (Hv & Hp & Hs).
  injection H as <-. simpl.
  repeat split; auto using dyn_escapeHtml_markup_free;
    try (apply dyn_escapeHtml_empty; assumption);
    try (apply dyn_or_default_truthy; discriminate).
  all: intros E; apply dyn_escapeHtml_empty in E; assumption.
Qed.

End RequestFields.

Section UntilCancel.

Import System.

Lemma run_flag_tracks_calls (actions : list Action) : ∀ sys sys',
  forallb (λ a, negb (is_Cancel a)) actions = true →
  flag_tracks_calls sys → run sys actions = Some sys' → flag_tracks_calls sys'.
Proof.
  induction actions as [|a actions IH]; intros sys sys' Hc Inv H; simpl in *.
  - injection H as <-. exact Inv.
  - apply andb_true_iff in Hc as [Ha Hc]. apply negb_true_iff in Ha.
    destruct (step sys a) as [sys1|] eqn:E; [|discriminate].
    exact (IH sys1 sys' Hc (step_flag_tracks_calls _ _ _ Ha Inv E) H).
Qed.

(** X27. As long as [cancelStream] is not called, the guard of
    [streamFixSuggestion] does its work: at most one call is in flight,
    [isStreaming] tells whether one is, and while one is, a further call
    is rejected at once and sends nothing. *)
Theorem single_flight_until_cancel (actions : list Action) (sys : System.t) :
  forallb (λ a, negb (is_Cancel a)) actions = true →
  run init actions = Some sys →
  (live_count (sessions sys) ≤ 1)%nat
  ∧ (AIService.isStreamingInProgress (service sys) = true
     ↔ live_count (sessions sys) = 1%nat)
  ∧ ∀ alertData cbs now,
      live_count (sessions sys) = 1%nat →
      AIService.streamFixSuggestion (service sys) alertData cbs now
      = (service sys, Settled (Some AIService.already_in_progress), []).
Proof.
  intros Hc Hr.
  assert (flag_tracks_calls init) as H0 by reflexivity.
  pose proof (run_flag_tracks_calls _ _ _ Hc H0 Hr) as H.
  destruct (single_flight_without_cancel _ _ _ Hc H0 Hr) as [Hle Hrej].
  split; [exact Hle|]. split; [|exact Hrej].
  unfold flag_tracks_calls in H. unfold AIService.isStreamingInProgress.
  destruct (AIService.isStreaming (service sys)); rewrite H; split; intros;
    try reflexivity; try discriminate; lia.
Qed.

End UntilCancel.

Section AlertsArray.

Import AlertCardComponent.

Lemma in_bounds_spec (alerts : list Alert) (index : Z) :
  in_bounds alerts index = true ↔ 0 ≤ index < Z.of_nat (length alerts).
Proof. unfold in_bounds. rewrite andb_true_iff, Z.leb_le, Z.ltb_lt. tauto. Qed.

(** X20. Removing the alert at an index of the array shortens it by one and
    moves the alerts behind it one place down, which is what the cards'
    indices are then set to; replacing an alert changes that place only.
    With an index outside the array, a negative one included, neither
    does anything. *)
Theorem removeAlert_shifts (alerts : list Alert) (index : Z) (newAlert : Alert) :
  (in_bounds alerts index = true →
   Z.of_nat (length (removeAlert alerts index)) = Z.of_nat (length alerts) - 1
   ∧ (∀ j, j < index → getAlert (removeAlert alerts index) j = getAlert alerts j)
   ∧ (∀ j, index ≤ j →
        getAlert (removeAlert alerts index) j = getAlert alerts (j + 1))
   ∧ getAlert (updateAlert alerts index newAlert) index = Some newAlert
   ∧ (∀ j, j ≠ index →
        getAlert (updateAlert alerts index newAlert) j = getAlert alerts j))
  ∧ (in_bounds alerts index = false →
     removeAlert alerts index = alerts
     ∧ updateAlert alerts index newAlert = alerts
     ∧ getAlert alerts index = None).
Proof.
  unfold removeAlert, updateAlert. split; intros Hb; rewrite Hb; cbv iota; [|auto].
  2:{ unfold getAlert. rewrite Hb. auto. }
  apply in_bounds_spec in Hb.
  assert (length (delete (Z.to_nat index) alerts) = (length alerts - 1)%nat) as Hl.
  { rewrite length_delete; [lia|]. apply lookup_lt_is_Some. lia. }
  split; [rewrite Hl; lia|]. split; [|split; [|split]].
  - intros j Hj. unfold getAlert, in_bounds. rewrite Hl.
    destruct (0 <=? j) eqn:E0; [apply Z.leb_le in E0|reflexivity]. simpl.
    assert ((j <? Z.of_nat (length alerts - 1)) = true) as -> by (apply Z.ltb_lt; lia).
    assert ((j <? Z.of_nat (length alerts)) = true) as -> by (apply Z.ltb_lt; lia).
    apply list_lookup_delete_lt. lia.
  - intros j Hj. unfold getAlert, in_bounds. rewrite Hl.
    assert ((0 <=? j) = true) as -> by (apply Z.leb_le; lia).
    assert ((0 <=? j + 1) = true) as -> by (apply Z.leb_le; lia). simpl.
    destruct (j <? Z.of_nat (length alerts - 1)) eqn:E1.
    + apply Z.ltb_lt in E1.
      assert ((j + 1 <? Z.of_nat (length alerts)) = true) as ->
        by (apply Z.ltb_lt; lia).
      rewrite list_lookup_delete_ge by lia. f_equal. lia.
    + apply Z.ltb_ge in E1.
      assert ((j + 1 <? Z.of_nat (length alerts)) = false) as ->
        by (apply Z.ltb_ge; lia).
      reflexivity.
  - unfold getAlert, in_bounds. rewrite length_insert.
    assert ((0 <=? index) = true) as -> by (apply Z.leb_le; lia).
    assert ((index <? Z.of_nat (length alerts)) = true) as ->
      by (apply Z.ltb_lt; lia).
    simpl. apply list_lookup_insert_eq. lia.
  - intros j Hj. unfold getAlert, in_bounds. rewrite length_insert.
    destruct ((0 <=? j) && (j <? Z.of_nat (length alerts))) eqn:E; [|reflexivity].
    apply andb_true_iff in E as [E0 E1]. apply Z.leb_le in E0.
    apply list_lookup_insert_ne. lia.
Qed.

End AlertsArray.

(** * Instances of the further properties *)

Section FurtherInstances.

(** A text with all five characters. *)
Lemma escapeHtml_injective_witness :
  AppHelpers.escapeHtml "<a href='x'>Tom & Jerry</a>"
  = AppHelpers.escapeHtml "<a href='x'>Tom & Jerry</a>"
  ∧ "<a href='x'>Tom & Jerry</a>" = "<a href='x'>Tom & Jerry</a>".
Proof.
  split; [reflexivity|].
  exact (escapeHtml_injective "<a href='x'>Tom & Jerry</a>"
           "<a href='x'>Tom & Jerry</a>" eq_refl).
Defined.

Lemma api_single_flight_witness :
  ∃ sys, Api.run Api.init api_day = Some sys
         ∧ (api_live (Api.calls sys) ≤ 1)%nat
         ∧ (GitHubApiService.isRequestInProgress (Api.service sys) = true
            ↔ api_live (Api.calls sys) = 1%nat).
Proof.
  destruct (Api.run Api.init api_day) as [sys|] eqn:E;
    [|vm_compute in E; discriminate E].
  exists sys. split; [reflexivity|]. exact (api_single_flight api_day sys E).
Defined.

(** Two repositories, the worse one last. *)
Lemma sortReposBySeverity_stable_witness :
  Forall (λ r, plain (repo_severity r)) [repo_docs; repo_dash]
  ∧ AppHelpers.sortReposBySeverity AppHelpers.as_it_is [repo_docs; repo_dash]
    = [repo_dash; repo_docs]
  ∧ Sorted (λ a b, repo_rank b ≤ repo_rank a)
      (AppHelpers.sortReposBySeverity AppHelpers.as_it_is [repo_docs; repo_dash]).
Proof.
  assert (Forall (λ r, plain (repo_severity r)) [repo_docs; repo_dash]) as H
    by (repeat constructor; intros s [= <-]; apply inherited_spec; reflexivity).
  split; [exact H|]. split; [reflexivity|].
  exact (proj1 (proj2 (sortReposBySeverity_stable AppHelpers.as_it_is
                         [repo_docs; repo_dash]) H)).
Defined.

(** Two alerts, sorted one way and then the other. *)
Lemma sortBySeverity_composes_witness :
  Forall (λ a, plain (severity a)) [alert_without_severity; alert_of "a1"]
  ∧ AlertCardComponent.sortBySeverity AppHelpers.as_it_is
      (AlertCardComponent.sortBySeverity AppHelpers.as_it_is
         [alert_without_severity; alert_of "a1"] false) true
    = AlertCardComponent.sortBySeverity AppHelpers.as_it_is
        [alert_without_severity; alert_of "a1"] true.
Proof.
  assert (Forall (λ a, plain (severity a)) [alert_without_severity; alert_of "a1"])
    as H.
  { repeat constructor; intros s [= <-]; apply inherited_spec; reflexivity. }
  split; [exact H|].
  exact (proj1 (proj2 (sortBySeverity_composes AppHelpers.as_it_is
                         AppHelpers.as_it_is
                         [alert_without_severity; alert_of "a1"] true false) H)).
Defined.

(** The load of alerts that came during the search. *)
Lemma api_rejections_are_plain_witness :
  ∃ sys e, Api.run Api.init api_day = Some sys
           ∧ Api.calls sys !! 1%nat = Some (GitHubApiService.Returned (inl e))
           ∧ Js.name e = "Error" ∧ Js.message e ≠ "" ∧ Js.status e = None.
Proof.
  destruct (Api.run Api.init api_day) as [sys|] eqn:E;
    [|vm_compute in E; discriminate E].
  destruct (Api.calls sys !! 1%nat) as [[| | |[e|r]]|] eqn:El;
    try (vm_compute in E; injection E as <-; vm_compute in El; discriminate El).
  exists sys, e. split; [reflexivity|]. split; [exact El|].
  exact (api_rejections_are_plain api_day sys 1 e E El).
Defined.

(** The search and the second load of alerts. *)
Lemma api_results_are_well_formed_witness :
  ∃ sys data, Api.run Api.init api_day = Some sys
    ∧ Api.calls sys !! 0%nat
      = Some (GitHubApiService.Returned (inr (GitHubApiService.Repositories data)))
    ∧ Sorted (λ a b, repo_rank b ≤ repo_rank a) (GitHubApiService.repos data).
Proof.
  destruct (Api.run Api.init api_day) as [sys|] eqn:E;
    [|vm_compute in E; discriminate E].
  destruct (Api.calls sys !! 0%nat) as [[| | |[e|[data|alerts]]]|] eqn:El;
    try (vm_compute in E; injection E as <-; vm_compute in El; discriminate El).
  exists sys, data. split; [reflexivity|]. split; [exact El|].
  apply (api_results_are_well_formed api_day sys 0 _ E El).
  vm_compute in E. injection E as <-. vm_compute in El. injection El as <-.
  repeat constructor; intros s [= <-]; apply inherited_spec; reflexivity.
Defined.

Lemma api_requests_are_valid_witness :
  ∃ sys, Api.run Api.init api_day = Some sys
         ∧ Forall valid_fetch (Api.fetches sys)
         ∧ (length (Api.fetches sys) ≤ length (Api.calls sys))%nat.
Proof.
  destruct (Api.run Api.init api_day) as [sys|] eqn:E;
    [|vm_compute in E; discriminate E].
  exists sys. split; [reflexivity|]. exact (api_requests_are_valid api_day sys E).
Defined.

(** Arguments without blanks around them, with a function that leaves
    such texts alone. *)
Lemma validateSearchParams_matches_guards_witness :
  (λ s : string, s) <$> Some "github" = Some "github"
  ∧ (λ s : string, s) <$> Some "dash" = Some "dash"
  ∧ GitHubApiService.isValid
      (GitHubApiService.validateSearchParams (λ s, s) (Some "github") (Some "dash"))
    = true.
Proof.
  split; [reflexivity|]. split; [reflexivity|].
  apply (proj2 (validateSearchParams_matches_guards (λ s, s)
                  (Some "github") (Some "dash") eq_refl eq_refl)).
  reflexivity.
Defined.

(** The package is the number of a package. *)
Lemma processed_alert_is_assistable_witness :
  ∃ a, Dynamic._processAlert (Some raw_alert_numbered) (sample_ids 0) = inr a
       ∧ Dynamic.package a = Dynamic.Truthy
       ∧ ∃ request, Dynamic._validateAlertData a 1000 = inr request.
Proof.
  destruct (Dynamic._processAlert (Some raw_alert_numbered) (sample_ids 0))
    as [e|a] eqn:E; [discriminate E|].
  exists a. split; [reflexivity|].
  split; [injection E as <-; reflexivity|].
  apply (proj2 (processed_alert_is_assistable raw_alert_numbered (sample_ids 0)
                  a 1000 E)).
  split.
  - right. eexists. split; [reflexivity|discriminate].
  - right. eexists. split; reflexivity.
Defined.

Lemma card_callback_once_witness :
  ∃ app, DependabotApp.run (DependabotApp.init empty_storage) assistance_day
         = Some app
         ∧ (length (card_callbacks app) + pending app = 2)%nat
         ∧ Forall card_answer (card_callbacks app).
Proof.
  destruct (DependabotApp.run (DependabotApp.init empty_storage) assistance_day)
    as [app|] eqn:E; [|vm_compute in E; discriminate E].
  exists app. split; [reflexivity|].
  exact (card_callback_once empty_storage assistance_day app E).
Defined.

(** The same alert: its package goes out as the empty text. *)
Lemma request_fields_are_filled_witness :
  ∃ request, Dynamic._validateAlertData alert_numbered 1000 = inr request
             ∧ Dynamic.req_vulnerability request ≠ ""
             ∧ Dynamic.req_package request = "".
Proof.
  destruct (Dynamic._validateAlertData alert_numbered 1000) as [e|request] eqn:E;
    [vm_compute in E; discriminate E|].
  exists request. split; [reflexivity|].
  destruct (request_fields_are_filled alert_numbered 1000 request E)
    as (_ & _ & Hv & Hp & _).
  split.
  - intros H. apply Hv in H. discriminate H.
  - apply Hp. reflexivity.
Defined.

Lemma single_flight_until_cancel_witness :
  forallb (λ a, negb (System.is_Cancel a)) two_calls = true
  ∧ ∃ sys, System.run System.init two_calls = Some sys
           ∧ (live_count (System.sessions sys) ≤ 1)%nat.
Proof.
  split; [reflexivity|].
  destruct (System.run System.init two_calls) as [sys|] eqn:E;
    [|vm_compute in E; discriminate E].
  exists sys. split; [reflexivity|].
  exact (proj1 (single_flight_until_cancel two_calls sys eq_refl E)).
Defined.

(** A 429 response is classified as rate limited. *)
Lemma transport_classification_witness :
  status response_429 = 429
  ∧ Js.message (AIService._handleApiError response_429 JsonNoError)
    = APP_CONSTANTS.RATE_LIMITED.
Proof.
  split; [reflexivity|].
  exact (proj1 (proj2 (proj2 (transport_classification response_429 JsonNoError)))
           eq_refl).
Defined.

(** The end of a stream for a1 after the modal was closed and opened
    again for a2. *)
Lemma completion_is_cached_under_shown_alert_witness :
  ∃ app app',
    DependabotApp.run (DependabotApp.init empty_storage) reopened_before_the_end
    = Some app
    ∧ AIAssistModalComponent.currentAlert (DependabotApp.modal app)
      = Some (alert_of "a2")
    ∧ System.sessions (DependabotApp.sys app) !! 0%nat
      = Some (all_callbacks, AwaitRead reader_0 "Upgrade lodash.")
    ∧ DependabotApp.settle app 0 ReadDone 1400 = Some app'
    ∧ DependabotApp.cache_writes app'
      = [CacheWrite "a2" {| response := "Upgrade lodash."; timestamp := 1400 |}].
Proof.
  destruct (DependabotApp.run (DependabotApp.init empty_storage)
              reopened_before_the_end) as [app|] eqn:E;
    [|vm_compute in E; discriminate E].
  destruct (DependabotApp.settle app 0 ReadDone 1400) as [app'|] eqn:E';
    [|vm_compute in E; injection E as <-; vm_compute in E'; discriminate E'].
  assert (System.sessions (DependabotApp.sys app) !! 0%nat
          = Some (all_callbacks, AwaitRead reader_0 "Upgrade lodash.")) as Hl
    by (vm_compute in E; injection E as <-; reflexivity).
  assert (System.sessions (DependabotApp.sys app') !! 0%nat
          = Some (all_callbacks, Settled None)) as Hf
    by (vm_compute in E; injection E as <-; vm_compute in E';
        injection E' as <-; reflexivity).
  destruct (completion_is_cached_under_shown_alert app 0 _ ReadDone 1400 app'
              Hl E' Hf) as (new & Hlog & Hw).
  exists app, app'. split; [reflexivity|].
  split; [vm_compute in E; injection E as <-; reflexivity|].
  split; [exact Hl|]. split; [exact E'|].
  unfold DependabotApp.cache_writes. rewrite Hlog, List.filter_app, Hw.
  vm_compute in E. injection E as <-. reflexivity.
Defined.

End FurtherInstances.
